(** * The subtitle scraper: a shallow embedding and its properties

    The repository holds three versions of one Node.js script that walks
    the paginated catalogue of a subtitle site, resolves every listing to its
    English subtitle archive, downloads and unpacks the archive and writes the
    subtitle text to a CSV file:

    - [src/index.js]           one CSV row per listing (module [Index]);
    - [src/unnamed/part_000]   one CSV row per 102-character chunk of the
                               subtitle text (module [Chunked]);
    - [src/unnamed/part_001]   an earlier draft of the per-listing version,
                               without error handling (module [Draft]).

    The helper functions [getEnglishSubtitleLink], [startDownload],
    [downloadSubtitles] and [extractSubtitles] are the same text in
    [index.js] and [part_000]; they are embedded once, and so is the page
    loop of [scrapeMovies].

    JavaScript strings are sequences of UTF-16 code units and are modelled as
    [list N].  Asynchronous functions run strictly one after the other (every
    promise is awaited), so they are modelled in a state-and-exception monad
    over a world made of the file system and the trace of observable
    effects; a rejected promise is an exception.  What the scripts get from
    outside (the site, Node's [path.join], [path.dirname] and UTF-8 decoder,
    the working directory, the errors of the archive library that the file
    system of the model does not account for) and the constant [MAX_MOVIES]
    are the fields of an environment [env]. *)

From Stdlib Require Import List Bool Arith NArith Lia String Ascii DecimalString
  Sorted.
Import ListNotations.

Set Implicit Arguments.

(* ================================================================== *)
(** ** JavaScript strings *)
(* ================================================================== *)

(** A JavaScript string: its UTF-16 code units. *)
Definition jsstring := list N.

(** String literals of the source, written as Rocq strings. *)
Fixpoint lit (s : string) : jsstring :=
  match s with
  | EmptyString => []
  | String c s' => N_of_ascii c :: lit s'
  end.

Fixpoint jsstring_eqb (a b : jsstring) : bool :=
  match a, b with
  | [], [] => true
  | x :: a', y :: b' => N.eqb x y && jsstring_eqb a' b'
  | _, _ => false
  end.

(** Template-literal rendering of a non-negative integer
    ([`part ${index + 1}`]). *)
Definition show_nat (n : nat) : jsstring :=
  lit (NilEmpty.string_of_uint (Nat.to_uint n)).

(** [\d] *)
Definition is_digit (c : N) : bool := (48 <=? c)%N && (c <=? 57)%N.

(** [\s] of ECMAScript: WhiteSpace and LineTerminator code points.  The same
    set is what [String.prototype.trim] strips. *)
Definition is_space (c : N) : bool :=
  ((9 <=? c) && (c <=? 13) || (c =? 32) || (c =? 160) || (c =? 5760)
   || (8192 <=? c) && (c <=? 8202) || (c =? 8232) || (c =? 8233)
   || (c =? 8239) || (c =? 8287) || (c =? 12288) || (c =? 65279))%N.

(** LineTerminator: the code units that [.] refuses (no [s] flag). *)
Definition is_line_terminator (c : N) : bool :=
  ((c =? 10) || (c =? 13) || (c =? 8232) || (c =? 8233))%N.

(** [.] *)
Definition is_dot (c : N) : bool := negb (is_line_terminator c).

(** [[\n\r]] *)
Definition is_nl (c : N) : bool := ((c =? 10) || (c =? 13))%N.

Definition is_char (x : N) (c : N) : bool := (c =? x)%N.

(** [String.prototype.trim] *)
Fixpoint trimStart (s : jsstring) : jsstring :=
  match s with
  | [] => []
  | c :: s' => if is_space c then trimStart s' else s
  end.

Definition trim (s : jsstring) : jsstring :=
  rev (trimStart (rev (trimStart s))).

(** [String.prototype.endsWith] *)
Fixpoint startsWith (s p : jsstring) : bool :=
  match p, s with
  | [], _ => true
  | x :: p', y :: s' => N.eqb x y && startsWith s' p'
  | _ :: _, [] => false
  end.

Definition endsWith (s suffix : jsstring) : bool :=
  startsWith (rev s) (rev suffix).

(** [String.prototype.split] on a one-unit separator. *)
Fixpoint split_on (sep : N) (s : jsstring) : list jsstring :=
  match s with
  | [] => [[]]
  | c :: s' =>
      if N.eqb c sep then [] :: split_on sep s'
      else match split_on sep s' with
           | [] => [[c]]
           | seg :: segs => (c :: seg) :: segs
           end
  end.

(** [Array.prototype.pop] read as "the last element"; [undefined] is never
    produced here because [split] returns at least one segment. *)
Definition pop (segs : list jsstring) : jsstring := last segs [].

(** [url.substring(url.lastIndexOf("/") + 1)]: what follows the last
    separator, the whole string when there is none ([lastIndexOf] is then
    [-1]). *)
Fixpoint after_last (sep : N) (s : jsstring) : jsstring :=
  match s with
  | [] => []
  | c :: s' =>
      if existsb (N.eqb sep) s' then after_last sep s'
      else if N.eqb c sep then s' else s
  end.

(* ================================================================== *)
(** ** Regular expressions of the source *)
(* ================================================================== *)

(** The fragment of ECMAScript patterns the scripts use: quantifiers are
    only applied to character classes and are all greedy. *)
Inductive regex : Type :=
| Eps
| Chr (p : N -> bool)
| Plus (p : N -> bool)                 (* p+ *)
| Opt (p : N -> bool)                  (* p? *)
| Rep (p : N -> bool) (lo hi : nat)    (* p{lo,hi} *)
| Seq (r1 r2 : regex)
| Alt (r1 r2 : regex).

(** The backtracking matcher of ECMA-262, in continuation-passing style: the
    continuation receives the input that is left and answers with the final
    rest of the input, or [None] to make the matcher backtrack. *)
Fixpoint star (p : N -> bool) (s : jsstring)
    (k : jsstring -> option jsstring) : option jsstring :=
  match s with
  | c :: s' =>
      if p c then
        match star p s' k with
        | Some r => Some r
        | None => k s
        end
      else k s
  | [] => k []
  end.

Fixpoint rep (p : N -> bool) (lo hi : nat) (s : jsstring)
    (k : jsstring -> option jsstring) : option jsstring :=
  let stop := if Nat.eqb lo 0 then k s else None in
  match hi with
  | O => stop
  | S hi' =>
      match s with
      | c :: s' =>
          if p c then
            match rep p (Nat.pred lo) hi' s' k with
            | Some r => Some r
            | None => stop
            end
          else stop
      | [] => stop
      end
  end.

Fixpoint matcher (r : regex) (s : jsstring)
    (k : jsstring -> option jsstring) : option jsstring :=
  match r with
  | Eps => k s
  | Chr p =>
      match s with
      | c :: s' => if p c then k s' else None
      | [] => None
      end
  | Plus p =>
      match s with
      | c :: s' => if p c then star p s' k else None
      | [] => None
      end
  | Opt p =>
      match s with
      | c :: s' =>
          if p c then
            match k s' with
            | Some r => Some r
            | None => k s
            end
          else k s
      | [] => k s
      end
  | Rep p lo hi => rep p lo hi s k
  | Seq r1 r2 => matcher r1 s (fun s1 => matcher r2 s1 k)
  | Alt r1 r2 =>
      match matcher r1 s k with
      | Some rest => Some rest
      | None => matcher r2 s k
      end
  end.

(** One match attempt anchored at the head of [s]: the input left after the
    match. *)
Definition exec (r : regex) (s : jsstring) : option jsstring :=
  matcher r s Some.

(** [str.replace(/r/g, repl)].  [skip] counts the code units of the current
    match that are still to be dropped; an empty match inserts [repl] and
    moves on by one unit, as [lastIndex] does. *)
Fixpoint replace_go (r : regex) (repl : jsstring) (skip : nat)
    (s : jsstring) : jsstring :=
  match s with
  | [] =>
      match skip, exec r [] with
      | O, Some _ => repl
      | _, _ => []
      end
  | c :: s' =>
      match skip with
      | S n => replace_go r repl n s'
      | O =>
          match exec r s with
          | Some rest =>
              match List.length s - List.length rest with
              | O => repl ++ c :: replace_go r repl 0 s'
              | S n => repl ++ replace_go r repl n s'
              end
          | None => c :: replace_go r repl 0 s'
          end
      end
  end.

Definition replace_all (r : regex) (repl : jsstring) (s : jsstring) : jsstring :=
  replace_go r repl 0 s.

(** [str.match(/r/g)]: every match from left to right, [null] when there is
    none. *)
Fixpoint match_go (r : regex) (skip : nat) (s : jsstring) : list jsstring :=
  match s with
  | [] =>
      match skip, exec r [] with
      | O, Some _ => [[]]
      | _, _ => []
      end
  | c :: s' =>
      match skip with
      | S n => match_go r n s'
      | O =>
          match exec r s with
          | Some rest =>
              let n := List.length s - List.length rest in
              firstn n s :: match_go r (Nat.pred n) s'
          | None => match_go r 0 s'
          end
      end
  end.

Definition match_all (r : regex) (s : jsstring) : option (list jsstring) :=
  match match_go r 0 s with
  | [] => None
  | ms => Some ms
  end.

(** Literal text inside a pattern. *)
Fixpoint Lit (s : jsstring) : regex :=
  match s with
  | [] => Eps
  | c :: s' => Seq (Chr (is_char c)) (Lit s')
  end.

Fixpoint seq_of (rs : list regex) : regex :=
  match rs with
  | [] => Eps
  | r :: rs' => Seq r (seq_of rs')
  end.

(** [/[\n\r]+/g] *)
Definition re_newlines : regex := Plus is_nl.

(** [\d+:\d+:\d+,\d+] *)
Definition re_timecode : regex :=
  seq_of [Plus is_digit; Chr (is_char 58); Plus is_digit; Chr (is_char 58);
          Plus is_digit; Chr (is_char 44); Plus is_digit].

(** [/\d+\s\d+:\d+:\d+,\d+\s-->\s\d+:\d+:\d+,\d+\s|\s?<i>|<\/i>\s?/g] *)
Definition re_markup : regex :=
  Alt (seq_of [Plus is_digit; Chr is_space; re_timecode; Chr is_space;
               Lit (lit "-->"); Chr is_space; re_timecode; Chr is_space])
      (Alt (Seq (Opt is_space) (Lit (lit "<i>")))
           (Seq (Lit (lit "</i>")) (Opt is_space))).

(** [/.{1,102}/g] *)
Definition re_chunk : regex := Rep is_dot 1 102.

(** The two [replace] calls shared by [index.js] (lines 276-280) and
    [part_000] (lines 281-285). *)
Definition normalize (downloadData : jsstring) : jsstring :=
  replace_all re_markup [] (replace_all re_newlines (lit " ") downloadData).

(* ================================================================== *)
(** ** The world: web site, file system, trace *)
(* ================================================================== *)

(** A listing element ([li.media]).  [None] stands for an element the
    selector does not find, on which [$eval] rejects. *)
Record listing : Type := {
  heading : option jsstring;      (* h3.media-heading, textContent *)
  href : option jsstring          (* a[itemprop=url], href *)
}.

(** A row of the subtitle table. *)
Record row : Type := {
  sub_lang : option jsstring;            (* .sub-lang, textContent *)
  subtitle_download : option jsstring    (* .subtitle-download, href *)
}.

(** A detail page: [other_subs] is what [$(".table.other-subs tbody")] finds,
    [None] when the page has no such table ([$] then resolves to [null]). *)
Record detail_page : Type := {
  other_subs : option (list row)
}.

(** An archive entry as AdmZip presents it. *)
Record zip_entry : Type := {
  entryName : jsstring;
  getData : list N                 (* the bytes of the entry *)
}.

(** What a path of the file system holds. *)
Inductive node : Type :=
| Dir
| Archive (entries : list zip_entry)    (* a file AdmZip can open *)
| Plain (bytes : list N).               (* any other file *)

(** What clicking [.download-subtitle] on the page at a URL leads to. *)
Inductive download_outcome : Type :=
| GotoFails                        (* newPage.goto(url) rejects *)
| ClickFails                       (* no download button: click rejects *)
| Transfer (name : jsstring) (content : node) (ms : N).
    (* the browser saves [content] as [name] in the download directory and
       has it complete [ms] milliseconds after the click *)

(** The site.  Pages are addressed as the scripts address them: listing pages
    by the number [i] of [`${BASE_URL}/browse?page=${i}`], the others by
    URL.  [None]: navigation fails and [goto] rejects. *)
Record web : Type := {
  browse : nat -> option (list listing);
  detail : jsstring -> option detail_page;
  download : jsstring -> download_outcome
}.

(** The rows of the CSV file, in either schema. *)
Inductive record : Type :=
| MovieRow (id : nat) (name link subtitleLink subtitle : jsstring)
| ChunkRow (name subtitle part : jsstring).

(** Observable effects, in the order they happen. *)
Inductive event : Type :=
| EvGotoBrowse (i : nat)                       (* page.goto(pageUrl) *)
| EvGotoDetail (url : jsstring)                (* newPage.goto(movieLink) *)
| EvElement (i : nat) (found : bool)           (* movieList[i]; false: undefined *)
| EvMovie (movieIndex : nat)                   (* console.log(`Movie ${movieIndex}:`) *)
| EvExistsSync (path : jsstring) (found : bool)
| EvGotoDownload (url : jsstring)              (* newPage.goto(url) *)
| EvClick (url : jsstring)                     (* the click that starts a transfer *)
| EvWaitForTimeout (ms : N)
| EvClosePage
| EvOpenZip (path : jsstring)                  (* new AdmZip(filePath) *)
| EvWriteCsv (rows : list record).             (* csvWriter.writeRecords *)

Record world : Type := {
  fs : jsstring -> option node;
  trace : list event
}.

(** JavaScript exceptions (promise rejections).  [OutOfFuel] is not one of
    them: it marks a run of the page loop that the model cut short, and
    [scrapeMovies_fuel] shows that it never occurs. *)
Inductive exn : Type :=
| TypeError
| NavigationError
| SelectorError
| ZipError
| Error (message : string)
| OutOfFuel.

Inductive result (A : Type) : Type :=
| Ok (a : A)
| Throw (e : exn).
Arguments Ok {A} a.
Arguments Throw {A} e.

(** Computations: the world is threaded through and survives an exception. *)
Definition M (A : Type) : Type := world -> result A * world.

Definition ret {A} (a : A) : M A := fun w => (Ok a, w).

Definition throw {A} (e : exn) : M A := fun w => (Throw e, w).

Definition bind {A B} (m : M A) (f : A -> M B) : M B :=
  fun w =>
    match m w with
    | (Ok a, w') => f a w'
    | (Throw e, w') => (Throw e, w')
    end.

(** [try { m } catch (error) { h }] *)
Definition try_catch {A} (m : M A) (h : exn -> M A) : M A :=
  fun w =>
    match m w with
    | (Ok a, w') => (Ok a, w')
    | (Throw e, w') => h e w'
    end.

Declare Scope js_scope.
Delimit Scope js_scope with js.
Notation "x <- m ;; k" := (bind m (fun x => k))
  (at level 61, m at next level, right associativity) : js_scope.
Notation "m ;; k" := (bind m (fun _ => k))
  (at level 61, right associativity) : js_scope.
Local Open Scope js_scope.

Definition emit (e : event) : M unit :=
  fun w => (Ok tt, {| fs := fs w; trace := trace w ++ [e] |}).

(** [$eval] on an element that may be missing. *)
Definition eval_selector {A} (found : option A) : M A :=
  match found with
  | Some a => ret a
  | None => throw SelectorError
  end.

Definition fs_write (path : jsstring) (n : node)
    (f : jsstring -> option node) : jsstring -> option node :=
  fun q => if jsstring_eqb q path then Some n else f q.

(** [fs.existsSync] *)
Definition existsSync (path : jsstring) : M bool :=
  fun w =>
    let found := match fs w path with Some _ => true | None => false end in
    (Ok found, {| fs := fs w; trace := trace w ++ [EvExistsSync path found] |}).

(** JavaScript truthiness of a string or [null]: [!x] is [negb (truthy x)]. *)
Definition truthy (x : option jsstring) : bool :=
  match x with
  | Some (_ :: _) => true
  | _ => false
  end.

(** What the scripts take from their host and do not define themselves:
    Node's [process.cwd()], [path.join], [path.dirname] (by which the file
    system finds the directory a path lies in) and the UTF-8 decoder of
    [Buffer.toString], the site, and the constant [MAX_MOVIES] each file
    sets at its top (10 in [index.js], 2 in [part_000], 1 in [part_001]).
    [unpack_error] is what makes the archive library give up on an
    extraction for a reason the file system below does not account for (a
    write the host refuses, data that does not inflate): the message of its
    error, given the target directory, the entries and the disk. *)
Record env : Type := {
  cwd : jsstring;
  path_join : jsstring -> jsstring -> jsstring;
  dirname : jsstring -> jsstring;
  utf8_decode : list N -> jsstring;
  unpack_error :
    jsstring -> list zip_entry -> (jsstring -> option node) -> option string;
  site : web;
  MAX_MOVIES : nat
}.

(* ================================================================== *)
(** ** The helpers shared by [index.js] and [part_000] *)
(* ================================================================== *)

Section Helpers.

Variable E : env.

(** The [for (const row of subtitlesRows)] loop of
    [getEnglishSubtitleLink]. *)
Fixpoint find_english (subtitlesRows : list row) : M (option jsstring) :=
  match subtitlesRows with
  | [] => ret None
  | r :: rest =>
      text <- eval_selector (sub_lang r) ;;
      let language := trim text in
      if jsstring_eqb language (lit "English") then
        link <- eval_selector (subtitle_download r) ;;
        ret (Some link)
      else find_english rest
  end.

(** [getEnglishSubtitleLink(page, movieLink)]: the link, or [None] for
    [null]. *)
Definition getEnglishSubtitleLink (movieLink : jsstring) : M (option jsstring) :=
  emit (EvGotoDetail movieLink) ;;
  match detail (site E) movieLink with
  | None => throw NavigationError
  | Some newPage =>
      match other_subs newPage with
      | None => throw TypeError            (* subtitlesTable.$$ on null *)
      | Some subtitlesRows => find_english subtitlesRows
      end
  end.

(** [fs.mkdirSync(path)]: the directory the path lies in has to be there,
    the path itself must not. *)
Definition mkdirSync (path : jsstring) : M unit :=
  fun w =>
    match fs w path, fs w (dirname E path) with
    | Some _, _ => (Throw (Error "EEXIST"), w)
    | None, Some Dir =>
        (Ok tt, {| fs := fs_write path Dir (fs w); trace := trace w |})
    | None, Some _ => (Throw (Error "ENOTDIR"), w)
    | None, None => (Throw (Error "ENOENT"), w)
    end.

(** The [for] loop of [extractSubtitles] with its [break]. *)
Fixpoint subtitleEntry (entries : list zip_entry) : option zip_entry :=
  match entries with
  | [] => None
  | entry :: rest =>
      if endsWith (entryName entry) (lit ".srt") then Some entry
      else subtitleEntry rest
  end.

(** An entry whose name ends in a slash or a backslash is a directory. *)
Definition isDirectory (entry : zip_entry) : bool :=
  match last (entryName entry) 0%N with
  | 47%N | 92%N => true
  | _ => false
  end.

(** Where an entry is unpacked. *)
Definition target (subtitlesDir : jsstring) (entry : zip_entry) : jsstring :=
  path_join E subtitlesDir
    (if isDirectory entry then removelast (entryName entry)
     else entryName entry).

(** The entries are unpacked one after the other: a directory entry makes
    its directory unless it is there, a file entry is written over the file
    that is there.  The library does not write a file over a directory nor
    make a directory over a file: the first entry that asks for it ends the
    extraction with an error, the entries before it unpacked.  The messages
    stand for those of the library, which go on with the path.  (The
    asynchronous call makes the directories before it writes the files,
    which leaves the same disk when there is no error.) *)
Fixpoint unpack (subtitlesDir : jsstring) (entries : list zip_entry)
    (f : jsstring -> option node) : option string * (jsstring -> option node) :=
  match entries with
  | [] => (None, f)
  | entry :: rest =>
      let path := target subtitlesDir entry in
      if isDirectory entry then
        match f path with
        | None => unpack subtitlesDir rest (fs_write path Dir f)
        | Some Dir => unpack subtitlesDir rest f
        | Some _ => (Some "Unable to create folder"%string, f)
        end
      else
        match f path with
        | Some Dir => (Some "Unable to write file"%string, f)
        | _ => unpack subtitlesDir rest (fs_write path (Plain (getData entry)) f)
        end
  end.

(** [zip.extractAllToAsync(subtitlesDir, true, callback)] and
    [zip.extractAllTo(subtitlesDir, true)]: the error, if any, and the disk
    afterwards, which is taken as it was when the host is what makes the
    library give up. *)
Definition extractAllTo (subtitlesDir : jsstring) (entries : list zip_entry)
    (f : jsstring -> option node) : option string * (jsstring -> option node) :=
  match unpack_error E subtitlesDir entries f with
  | Some message => (Some message, f)
  | None => unpack subtitlesDir entries f
  end.

(** [extractSubtitles(filePath, subtitlesDir)]; a rejected promise is a
    [Throw]. *)
Definition extractSubtitles (filePath subtitlesDir : jsstring) : M jsstring :=
  emit (EvOpenZip filePath) ;;
  fun w =>
    match fs w filePath with
    | Some (Archive entries) =>
        let unpacked := extractAllTo subtitlesDir entries (fs w) in
        let w' := {| fs := snd unpacked; trace := trace w |} in
        match fst unpacked with
        | Some message => (Throw (Error message), w')   (* reject(error) *)
        | None =>
            match subtitleEntry entries with
            | Some entry => (Ok (utf8_decode E (getData entry)), w')
            | None => (Throw (Error "No subtitle file found in zip"), w')
            end
        end
    | _ => (Throw ZipError, w)             (* new AdmZip(filePath) throws *)
    end.

(** [newPage.waitForTimeout(delay)] while the transfer started by the click
    is under way: the file is in the download directory afterwards when the
    transfer took no longer than the delay and the download path is a
    directory.  The browser never replaces a file that is already there. *)
Definition waitForTimeout (delay : N) (downloadPath : jsstring)
    (name : jsstring) (content : node) (ms : N) : M unit :=
  emit (EvWaitForTimeout delay) ;;
  fun w =>
    let saved := path_join E downloadPath name in
    match (ms <=? delay)%N, fs w saved, fs w downloadPath with
    | true, None, Some Dir =>
        (Ok tt, {| fs := fs_write saved content (fs w); trace := trace w |})
    | _, _, _ => (Ok tt, w)
    end.

(** [downloadSubtitles(page, url, subtitlesDir)] *)
Definition downloadSubtitles (url subtitlesDir : jsstring) : M (option jsstring) :=
  try_catch
    (emit (EvGotoDownload url) ;;
     match download (site E) url with
     | GotoFails => throw NavigationError
     | ClickFails => throw SelectorError
     | Transfer name content ms =>
         emit (EvClick url) ;;
         waitForTimeout 10000%N subtitlesDir name content ms ;;
         emit EvClosePage ;;
         let fileName := after_last 47 url in
         let filePath := path_join E subtitlesDir (fileName ++ lit ".zip") in
         data <- extractSubtitles filePath subtitlesDir ;;
         ret (Some data)
     end)
    (fun _ => ret None).

(** The local paths [startDownload] derives from the archive URL. *)
Definition fileName_of (url : jsstring) : jsstring := pop (split_on 47 url).

Definition subtitlesDir_of : jsstring := path_join E (cwd E) (lit "subtitles").

Definition movieFolder_of (url : jsstring) : jsstring :=
  path_join E subtitlesDir_of (fileName_of url).

Definition filePath_of (url : jsstring) : jsstring :=
  path_join E (movieFolder_of url) (fileName_of url ++ lit ".zip").

(** [startDownload(url, page)] of [index.js] and [part_000]; [None] is
    [null]. *)
Definition startDownload (url : jsstring) : M (option jsstring) :=
  try_catch
    (let fileName := fileName_of url in
     let subtitlesDir := subtitlesDir_of in
     found <- existsSync subtitlesDir ;;
     (if negb found then mkdirSync subtitlesDir else ret tt) ;;
     let createMovieFolderName := path_join E subtitlesDir fileName in
     found <- existsSync createMovieFolderName ;;
     (if negb found then mkdirSync createMovieFolderName else ret tt) ;;
     let filePath := path_join E createMovieFolderName (fileName ++ lit ".zip") in
     found <- existsSync filePath ;;
     if negb found then
       downloadSubtitles url createMovieFolderName ;;
       data <- extractSubtitles filePath createMovieFolderName ;;
       ret (Some data)
     else
       data <- extractSubtitles filePath createMovieFolderName ;;
       ret (Some data))
    (fun _ => ret None).

(** [writeMoviesToCsv(movies)] *)
Definition writeMoviesToCsv (movies : list record) : M unit :=
  emit (EvWriteCsv movies).

(** The page loop of [scrapeMovies], the same in both files but for the
    [getMoviesList] it calls:
    [for (let i = 1; movieCount <= MAX_MOVIES; i++)]. *)
Fixpoint page_loop (getMoviesList : nat -> nat -> M (option (list record)))
    (fuel i startIndex movieCount : nat) (movies : list record)
    : M (list record) :=
  match fuel with
  | O => throw OutOfFuel
  | S fuel' =>
      if movieCount <=? MAX_MOVIES E then
        moviesList <- getMoviesList i startIndex ;;
        match moviesList with
        | None => throw TypeError          (* moviesList.length on null *)
        | Some [] => ret movies            (* break *)
        | Some l =>
            page_loop getMoviesList fuel' (S i)
              (startIndex + List.length l) (movieCount + List.length l)
              (movies ++ l)
        end
      else ret movies
  end.

(** [scrapeMovies()].  Every turn of the page loop but the last adds a
    record, so [MAX_MOVIES + 2] turns are enough ([scrapeMovies_fuel]). *)
Definition scrapeMovies_with
    (getMoviesList : nat -> nat -> M (option (list record))) : M unit :=
  movies <- page_loop getMoviesList (MAX_MOVIES E + 2) 1 1 0 [] ;;
  try_catch (writeMoviesToCsv movies) (fun _ => ret tt).

End Helpers.

Definition is_some {A} (x : option A) : bool :=
  match x with
  | Some _ => true
  | None => false
  end.

(** [Array.prototype.map] with the index the callback receives. *)
Fixpoint map_index {A B} (f : A -> nat -> B) (index : nat) (l : list A) : list B :=
  match l with
  | [] => []
  | a :: l' => f a index :: map_index f (S index) l'
  end.

(* ================================================================== *)
(** ** [part_000]: one row per chunk *)
(* ================================================================== *)

Module Chunked.

(** [const MAX_MOVIES = 2;] *)
Definition MAX_MOVIES_source : nat := 2.

(** Lines 280-286: the text is normalized and cut by [match(/.{1,102}/g)],
    which is [null] ([None]) when nothing matches. *)
Definition subtitleChunks (downloadData : jsstring) : option (list jsstring) :=
  match_all re_chunk (normalize downloadData).

(** Lines 290-294: [subtitleChunks.map((chunk, index) => ...)]. *)
Definition movieSubtitles (movieName : jsstring) (chunks : list jsstring)
    : list record :=
  map_index
    (fun chunk index =>
       ChunkRow movieName (trim chunk) (lit "part " ++ show_nat (index + 1)))
    0 chunks.

(** Lines 280-294 together: mapping over [null] is a [TypeError]. *)
Definition chunk_rows (movieName downloadData : jsstring) : M (list record) :=
  match subtitleChunks downloadData with
  | None => throw TypeError
  | Some chunks => ret (movieSubtitles movieName chunks)
  end.

Section Run.

Variable E : env.

(** The listing loop of [getMoviesList] (line 225):
    [for (let i = 0; i < movieList.length && movieIndex <= MAX_MOVIES; i++)].
    [n] is [movieList.length - i], so that [i < movieList.length] reads
    [n <> 0]. *)
Fixpoint listing_loop (movieList : list listing) (n i movieIndex : nat)
    (movies : list record) : M (list record) :=
  match n with
  | O => ret movies
  | S n' =>
      if movieIndex <=? MAX_MOVIES E then
        let continue := listing_loop movieList n' (S i) movieIndex movies in
        emit (EvElement i (is_some (nth_error movieList i))) ;;
        match nth_error movieList i with
        | None => continue
        | Some movie =>
            movieName <- eval_selector (heading movie) ;;
            if negb (truthy (Some movieName)) then continue else
            movieLink <- eval_selector (href movie) ;;
            if negb (truthy (Some movieLink)) then continue else
            subtitleLink <- getEnglishSubtitleLink E movieLink ;;
            match subtitleLink with
            | None | Some [] => continue
            | Some url =>
                downloadData <- startDownload E url ;;
                match downloadData with
                | None | Some [] => continue
                | Some data =>
                    emit (EvMovie movieIndex) ;;
                    rows <- chunk_rows movieName data ;;
                    listing_loop movieList n' (S i) (movieIndex + 1)
                      (movies ++ rows)
                end
            end
        end
      else ret movies
  end.

(** [getMoviesList(page, pageUrl, startIndex)]; [None] is [null]. *)
Definition getMoviesList (page startIndex : nat) : M (option (list record)) :=
  emit (EvGotoBrowse page) ;;
  match browse (site E) page with
  | None => throw NavigationError
  | Some movieList =>
      match movieList with
      | [] => ret None
      | _ =>
          movies <- listing_loop movieList (List.length movieList) 0 startIndex [] ;;
          ret (Some movies)
      end
  end.

Definition scrapeMovies : M unit := scrapeMovies_with E getMoviesList.

End Run.

End Chunked.

(* ================================================================== *)
(** ** [index.js]: one row per listing *)
(* ================================================================== *)

Module Index.

(** [const MAX_MOVIES = 10;] *)
Definition MAX_MOVIES_source : nat := 10.

Section Run.

Variable E : env.

(** The listing loop of [getMoviesList] (line 235):
    [for (let i = 0; i <= movieList.length && movieIndex <= MAX_MOVIES; i++)].
    [n] is [movieList.length + 1 - i], so that [i <= movieList.length] reads
    [n <> 0]. *)
Fixpoint listing_loop (movieList : list listing) (n i movieIndex : nat)
    (movies : list record) : M (list record) :=
  match n with
  | O => ret movies
  | S n' =>
      if movieIndex <=? MAX_MOVIES E then
        let continue := listing_loop movieList n' (S i) movieIndex movies in
        emit (EvElement i (is_some (nth_error movieList i))) ;;
        match nth_error movieList i with
        | None => continue
        | Some movie =>
            movieName <- eval_selector (heading movie) ;;
            movieLink <- eval_selector (href movie) ;;
            if negb (truthy (Some movieLink)) then continue else
            subtitleLink <- getEnglishSubtitleLink E movieLink ;;
            match subtitleLink with
            | None => continue
            | Some url =>
                downloadData <- startDownload E url ;;
                emit (EvMovie movieIndex) ;;
                match downloadData with
                | None => throw TypeError      (* downloadData.replace on null *)
                | Some data =>
                    listing_loop movieList n' (S i) (movieIndex + 1)
                      (movies ++ [MovieRow movieIndex movieName movieLink url
                                    (normalize data)])
                end
            end
        end
      else ret movies
  end.

(** [getMoviesList(page, pageUrl, startIndex)]; [None] is [null]. *)
Definition getMoviesList (page startIndex : nat) : M (option (list record)) :=
  emit (EvGotoBrowse page) ;;
  match browse (site E) page with
  | None => throw NavigationError
  | Some movieList =>
      match movieList with
      | [] => ret None
      | _ =>
          movies <- listing_loop movieList (List.length movieList + 1) 0 startIndex [] ;;
          ret (Some movies)
      end
  end.

Definition scrapeMovies : M unit := scrapeMovies_with E getMoviesList.

End Run.

End Index.

(* ================================================================== *)
(** ** Vocabulary of the statements *)
(* ================================================================== *)

(** [ceil (a / b)] on naturals. *)
Definition ceil_div (a b : nat) : nat := (a + b - 1) / b.

(** The text column of a row. *)
Definition subtitle_of (r : record) : jsstring :=
  match r with
  | MovieRow _ _ _ _ subtitle => subtitle
  | ChunkRow _ subtitle _ => subtitle
  end.

(** U+2028 and U+2029, the two line terminators that the newline pattern
    [[\n\r]+] leaves in the text and that [.] does not match. *)
Definition is_separator (c : N) : bool := ((c =? 8232) || (c =? 8233))%N.

(** The indices announced by [console.log(`Movie ${movieIndex}:`)]. *)
Fixpoint movie_indices (tr : list event) : list nat :=
  match tr with
  | [] => []
  | EvMovie k :: tr' => k :: movie_indices tr'
  | _ :: tr' => movie_indices tr'
  end.

(** The record sets handed to the CSV writer. *)
Fixpoint csv_writes (tr : list event) : list (list record) :=
  match tr with
  | [] => []
  | EvWriteCsv rows :: tr' => rows :: csv_writes tr'
  | _ :: tr' => csv_writes tr'
  end.

(** Events of the network transfer of an archive. *)
Definition is_transfer (e : event) : bool :=
  match e with
  | EvGotoDownload _ | EvClick _ => true
  | _ => false
  end.

(** The first row, in document order, whose trimmed label is exactly
    ["English"], as the specification words the resolver. *)
Definition labelled_english (r : row) : bool :=
  match sub_lang r with
  | Some text => jsstring_eqb (trim text) (lit "English")
  | None => false
  end.

Definition first_english (rows : list row) : option jsstring :=
  match find labelled_english rows with
  | Some r => subtitle_download r
  | None => None
  end.

(** The world after one more event. *)
Definition logged (e : event) (w : world) : world :=
  {| fs := fs w; trace := trace w ++ [e] |}.

(** The world after [if (!fs.existsSync(path)) fs.mkdirSync(path)]. *)
Definition ensure_dir (path : jsstring) (w : world) : world :=
  match fs w path with
  | Some _ => logged (EvExistsSync path true) w
  | None => {| fs := fs_write path Dir (fs w);
               trace := trace w ++ [EvExistsSync path false] |}
  end.

(** The world once [startDownload] has made sure of its two directories. *)
Definition prepared (E : env) (url : jsstring) (w : world) : world :=
  ensure_dir (movieFolder_of E url) (ensure_dir (subtitlesDir_of E) w).

(** [if (!fs.existsSync(path)) fs.mkdirSync(path)] *)
Definition ensure (E : env) (path : jsstring) : M unit :=
  (found <- existsSync path ;;
   if negb found then mkdirSync E path else ret tt)%js.

(** [if (!fs.existsSync(path)) fs.mkdirSync(path)] goes through: something
    is at the path, or the directory it lies in is there. *)
Definition makeable (E : env) (path : jsstring) (w : world) : bool :=
  match fs w path, fs w (dirname E path) with
  | Some _, _ => true
  | None, Some Dir => true
  | None, _ => false
  end.

(** [startDownload] gets as far as its cache test. *)
Definition ready (E : env) (url : jsstring) (w : world) : bool :=
  makeable E (subtitlesDir_of E) w &&
  makeable E (movieFolder_of E url) (ensure_dir (subtitlesDir_of E) w).

(** A file is at the path derived from the URL, inside its two
    directories. *)
Definition cached (E : env) (url : jsstring) (w : world) : bool :=
  is_some (fs w (subtitlesDir_of E)) &&
  is_some (fs w (movieFolder_of E url)) &&
  is_some (fs w (filePath_of E url)).

(** What is left of the [try] block of [startDownload] after the two
    directories: the cache test, the download on a miss, the extraction. *)
Definition fetch (E : env) (url : jsstring) : M (option jsstring) :=
  (found <- existsSync (filePath_of E url) ;;
   if negb found then
     downloadSubtitles E url (movieFolder_of E url) ;;
     data <- extractSubtitles E (filePath_of E url) (movieFolder_of E url) ;;
     ret (Some data)
   else
     data <- extractSubtitles E (filePath_of E url) (movieFolder_of E url) ;;
     ret (Some data))%js.

(** The subtitle document of what a path holds: the decoded text of the
    first entry, in the archive's order, whose name ends in [.srt]. *)
Definition document_of (E : env) (file : option node) : option jsstring :=
  match file with
  | Some (Archive entries) =>
      match subtitleEntry entries with
      | Some entry => Some (utf8_decode E (getData entry))
      | None => None
      end
  | _ => None
  end.

(** What the extraction of a file into a directory gives on a disk: the
    subtitle document of the file when it is an archive that unpacks
    without error, nothing otherwise. *)
Definition extraction_of (E : env) (subtitlesDir : jsstring)
    (disk : jsstring -> option node) (file : option node) : option jsstring :=
  match file with
  | Some (Archive entries) =>
      match fst (extractAllTo E subtitlesDir entries disk) with
      | None => document_of E file
      | Some _ => None
      end
  | _ => None
  end.

(** The turn of a listing loop for element [i] gets as far as a name and a
    link. *)
Definition reads_listing (E : env) (movieList : list listing)
    (i movieIndex : nat) (movieName movieLink : jsstring) : Prop :=
  movieIndex <= MAX_MOVIES E /\
  exists movie,
    nth_error movieList i = Some movie /\
    heading movie = Some movieName /\ movieName <> [] /\
    href movie = Some movieLink /\ movieLink <> [].

(** The archive is not on disk yet, and its path is not one of the two
    directories above it. *)
Definition cache_miss (E : env) (url : jsstring) (w : world) : Prop :=
  fs w (filePath_of E url) = None /\
  jsstring_eqb (filePath_of E url) (subtitlesDir_of E) = false /\
  jsstring_eqb (filePath_of E url) (movieFolder_of E url) = false.

(** The ways the download or the extraction of one listing fails. *)
Inductive stage_failure (E : env) (url : jsstring) (w : world) : Prop :=
| download_unreachable :
    cache_miss E url w ->
    download (site E) url = GotoFails ->
    stage_failure E url w
| download_without_button :
    cache_miss E url w ->
    download (site E) url = ClickFails ->
    stage_failure E url w
| download_too_slow : forall name content ms,
    cache_miss E url w ->
    download (site E) url = Transfer name content ms ->
    (10000 < ms)%N ->
    stage_failure E url w
| download_without_subtitle : forall entries ms,
    cache_miss E url w ->
    download (site E) url
      = Transfer (fileName_of url ++ lit ".zip") (Archive entries) ms ->
    subtitleEntry entries = None ->
    stage_failure E url w
| archive_unreadable :
    fs w (filePath_of E url) = Some Dir \/
    (exists bytes, fs w (filePath_of E url) = Some (Plain bytes)) ->
    stage_failure E url w
| archive_without_subtitle : forall entries,
    fs w (filePath_of E url) = Some (Archive entries) ->
    subtitleEntry entries = None ->
    stage_failure E url w.

(** The elements the listing loop read: index and whether one was there. *)
Fixpoint elements_read (tr : list event) : list (nat * bool) :=
  match tr with
  | [] => []
  | EvElement i found :: tr' => (i, found) :: elements_read tr'
  | _ :: tr' => elements_read tr'
  end.

(** Every event of a computation satisfies [P]. *)
Definition adds {A} (P : event -> Prop) (m : M A) : Prop :=
  forall w, exists evs, trace (snd (m w)) = trace w ++ evs /\ Forall P evs.

(** The events of the helpers: everything but the listing loop's own. *)
Definition helper_event (e : event) : bool :=
  match e with
  | EvGotoBrowse _ | EvElement _ _ | EvMovie _ | EvWriteCsv _ => false
  | _ => true
  end.

(** A computation that never reports the model's own [OutOfFuel]. *)
Definition fuelled {A} (m : M A) : Prop :=
  forall w, fst (m w) <> Throw OutOfFuel.

(** What holds of the events of a listing loop that stays within the page
    and the cap: every element read is there, every index announced is at
    most [MAX_MOVIES]. *)
Definition within_bounds (E : env) (e : event) : Prop :=
  match e with
  | EvElement _ found => found = true
  | EvMovie movieIndex => movieIndex <= MAX_MOVIES E
  | _ => True
  end.

(** The same without the condition on the elements read. *)
Definition within_cap (E : env) (e : event) : Prop :=
  match e with
  | EvMovie movieIndex => movieIndex <= MAX_MOVIES E
  | _ => True
  end.

(** The [id] column of a row of [index.js]. *)
Definition row_id (r : record) : nat :=
  match r with
  | MovieRow id _ _ _ _ => id
  | ChunkRow _ _ _ => 0
  end.

(* ================================================================== *)
(** ** Sample sites *)
(* ================================================================== *)

Module Sample.

(** [path.join] on plain segments; an empty segment adds nothing. *)
Definition join (a b : jsstring) : jsstring :=
  match b with
  | [] => a
  | _ => a ++ lit "/" ++ b
  end.

(** [path.dirname]: what stands before the last slash. *)
Fixpoint drop_through (sep : N) (s : jsstring) : jsstring :=
  match s with
  | [] => []
  | c :: s' => if N.eqb c sep then s' else drop_through sep s'
  end.

Definition parent (p : jsstring) : jsstring := rev (drop_through 47 (rev p)).

(** UTF-8 decoding of ASCII bytes. *)
Definition ascii_decode (bytes : list N) : jsstring := bytes.

Definition working_dir : string := "/home/user/scraper".

(** Nothing on the disk but the working directory, nothing logged. *)
Definition empty_world : world :=
  {| fs := fs_write (lit working_dir) Dir (fun _ => None); trace := [] |}.

Fixpoint lookup {A} (key : jsstring) (table : list (string * A)) : option A :=
  match table with
  | [] => None
  | (k, a) :: rest => if jsstring_eqb key (lit k) then Some a else lookup key rest
  end.

(** A site given by its listing pages (from page 1 on; the pages after the
    last one have no listing), its detail pages and its archives. *)
Definition site_of (pages : list (list listing))
    (details : list (string * detail_page))
    (archives : list (string * download_outcome)) : web :=
  {| browse := fun i =>
       match i with
       | O => None
       | S j => Some (nth j pages [])
       end;
     detail := fun url => lookup url details;
     download := fun url =>
       match lookup url archives with
       | Some outcome => outcome
       | None => GotoFails
       end |}.

Definition env_of (max : nat) (s : web) : env :=
  {| cwd := lit working_dir;
     path_join := join;
     dirname := parent;
     utf8_decode := ascii_decode;
     unpack_error := fun _ _ _ => None;
     site := s;
     MAX_MOVIES := max |}.

Definition movie (name link : string) : listing :=
  {| heading := Some (lit name); href := Some (lit link) |}.

(** A subtitle table with a French row before the English one. *)
Definition table (english : string) : detail_page :=
  {| other_subs :=
       Some [ {| sub_lang := Some (lit "French");
                 subtitle_download := Some (lit "https://yts-subs.com/subtitles/french") |};
              {| sub_lang := Some (lit "  English ");
                 subtitle_download := Some (lit english) |} ] |}.

(** An archive with a subtitle document between two other entries. *)
Definition archive (text : jsstring) : node :=
  Archive [ {| entryName := lit "info.nfo"; getData := lit "release notes" |};
            {| entryName := lit "movie.srt"; getData := text |};
            {| entryName := lit "readme.txt"; getData := lit "read me" |} ].

(** An archive that holds a directory and a file of the same name before
    its subtitle document. *)
Definition archive_with_clash (text : jsstring) : node :=
  Archive [ {| entryName := lit "sub/"; getData := [] |};
            {| entryName := lit "sub"; getData := lit "notes" |};
            {| entryName := lit "movie.srt"; getData := text |} ].

Definition archive_without_srt : node :=
  Archive [ {| entryName := lit "info.nfo"; getData := lit "release notes" |};
            {| entryName := lit "readme.txt"; getData := lit "read me" |} ].

(** One cue of an ordinary subtitle file. *)
Definition cue : jsstring := lit "1
00:00:01,000 --> 00:00:02,500
Hello there
".

(** 205 letters A: three windows. *)
Definition long_text : jsstring := repeat 65%N 205.

(** 103 letters A: two windows. *)
Definition two_window_text : jsstring := repeat 65%N 103.

Definition link_a : string := "https://yts-subs.com/movie-imdb/a".
Definition link_b : string := "https://yts-subs.com/movie-imdb/b".
Definition sub_a : string := "https://yts-subs.com/subtitles/a-english-yify-1".
Definition sub_b : string := "https://yts-subs.com/subtitles/b-english-yify-2".
Definition zip_a : string := "a-english-yify-1.zip".
Definition zip_b : string := "b-english-yify-2.zip".

Definition details_ab : list (string * detail_page) :=
  [ (link_a, table sub_a); (link_b, table sub_b) ].

(** Two listings on page 1, whose archives hold the given nodes. *)
Definition site_ab (a b : node) : web :=
  site_of [ [movie "Movie A" link_a; movie "Movie B" link_b] ] details_ab
    [ (sub_a, Transfer (lit zip_a) a 900); (sub_b, Transfer (lit zip_b) b 900) ].

(** Listing A alone on page 1, listing B alone on page 2. *)
Definition site_a_then_b (a b : node) : web :=
  site_of [ [movie "Movie A" link_a]; [movie "Movie B" link_b] ] details_ab
    [ (sub_a, Transfer (lit zip_a) a 900); (sub_b, Transfer (lit zip_b) b 900) ].

(** Listing A alone on page 1, nothing after it. *)
Definition site_a (a : node) : web :=
  site_of [ [movie "Movie A" link_a] ] details_ab
    [ (sub_a, Transfer (lit zip_a) a 900) ].

(** As [site_ab], but the detail page of listing A cannot be loaded. *)
Definition site_a_unreachable (b : node) : web :=
  site_of [ [movie "Movie A" link_a; movie "Movie B" link_b] ]
    [ (link_b, table sub_b) ]
    [ (sub_b, Transfer (lit zip_b) b 900) ].

(** As [site_ab], but the detail page of listing A has no subtitle table. *)
Definition site_a_without_table (b : node) : web :=
  site_of [ [movie "Movie A" link_a; movie "Movie B" link_b] ]
    [ (link_a, {| other_subs := None |}); (link_b, table sub_b) ]
    [ (sub_b, Transfer (lit zip_b) b 900) ].

(** As [site_ab], but the download page of the archive of listing A cannot
    be reached. *)
Definition site_a_download_fails (b : node) : web :=
  site_of [ [movie "Movie A" link_a; movie "Movie B" link_b] ] details_ab
    [ (sub_b, Transfer (lit zip_b) b 900) ].

(** As [site_a], but the transfer of the archive takes 10001 ms. *)
Definition site_a_slow (a : node) : web :=
  site_of [ [movie "Movie A" link_a] ] details_ab
    [ (sub_a, Transfer (lit zip_a) a 10001) ].

Definition subtitles_dir : string := "/home/user/scraper/subtitles".
Definition folder_a : string :=
  "/home/user/scraper/subtitles/a-english-yify-1".
Definition path_a : string :=
  "/home/user/scraper/subtitles/a-english-yify-1/a-english-yify-1.zip".

(** The rows of a text of 205 letters A. *)
Definition long_rows (name : string) : list record :=
  [ ChunkRow (lit name) (repeat 65%N 102) (lit "part 1");
    ChunkRow (lit name) (repeat 65%N 102) (lit "part 2");
    ChunkRow (lit name) (repeat 65%N 1) (lit "part 3") ].

(** The world in which the listing loop of page 1 starts, and the one in
    which the resolver has answered for listing A. *)
Definition on_page_1 : world := logged (EvGotoBrowse 1) empty_world.

Definition resolved_a : world :=
  logged (EvGotoDetail (lit link_a)) (logged (EvElement 0 true) on_page_1).

Definition page_ab : list listing :=
  [movie "Movie A" link_a; movie "Movie B" link_b].

(** What a finished run leaves to look at: how it ended, the indices it
    announced and the record sets it wrote. *)
Definition outcome (run : result unit * world)
    : result unit * list nat * list (list record) :=
  (fst run, movie_indices (trace (snd run)), csv_writes (trace (snd run))).

End Sample.

(* ================================================================== *)
(** ** [part_001]: the earlier draft *)
(* ================================================================== *)

Module Draft.

(** [const MAX_MOVIES = 1;] *)
Definition MAX_MOVIES_source : nat := 1.

(** What [JSON.parse] makes of a text: the string it denotes, another JSON
    value, or a [SyntaxError]. *)
Inductive parsed : Type :=
| ParsedString (s : jsstring)
| ParsedOther
| NotJson.

(** What the draft takes from its host beyond [env]: [path.basename],
    [JSON.stringify] on strings, [JSON.parse], and the bytes an archive is
    stored as (what [fs.readFileSync] would read from it). *)
Record host : Type := {
  basename : jsstring -> jsstring;
  stringify : jsstring -> jsstring;
  parse : jsstring -> parsed;
  archive_bytes : list zip_entry -> list N
}.

(** The rows of the CSV file of the draft: no [id] column. *)
Record movie_row : Type := {
  name : jsstring;
  link : jsstring;
  subtitleLink : jsstring;
  subtitle : jsstring
}.

(** [/\\r\\n/g]: a backslash, [r], a backslash, [n]. *)
Definition re_escaped_crlf : regex := Lit [92; 114; 92; 110]%N.

(** [/\\+/g]: one backslash or more. *)
Definition re_backslashes : regex := Plus (is_char 92).

(** [JSON.parse(downloadData).replace(/\\r\\n/g, " ").replace(/\\+/g, "")]
    once the text is parsed. *)
Definition convert (s : jsstring) : jsstring :=
  replace_all re_backslashes [] (replace_all re_escaped_crlf (lit " ") s).

Section Run.

Variable E : env.
Variable H : host.

(** [getEnglishSubtitleLink(page)], on a page that is already loaded. *)
Definition getEnglishSubtitleLink (page : detail_page) : M (option jsstring) :=
  match other_subs page with
  | None => throw TypeError              (* subtitlesTable.$$ on null *)
  | Some subtitlesRows => find_english subtitlesRows
  end.

(** [fs.readFileSync(path, "utf8")] *)
Definition readFileSync (path : jsstring) : M jsstring :=
  fun w =>
    match fs w path with
    | Some (Plain bytes) => (Ok (utf8_decode E bytes), w)
    | Some (Archive entries) => (Ok (utf8_decode E (archive_bytes H entries)), w)
    | Some Dir => (Throw (Error "EISDIR: illegal operation on a directory"), w)
    | None => (Throw (Error "ENOENT: no such file or directory"), w)
    end.

(** [extractSubtitles(filePath, subtitlesDir)].  [zip.extractAllTo] throws
    where the later versions get the error in their callback.  The loop is
    the one of the later versions, but it keeps the name of the entry, and
    nothing tests whether one was found: [path.basename(null)] is a
    [TypeError]. *)
Definition extractSubtitles (filePath subtitlesDir : jsstring) : M jsstring :=
  emit (EvOpenZip filePath) ;;
  entries <- (fun w =>
                match fs w filePath with
                | Some (Archive entries) =>
                    let unpacked := extractAllTo E subtitlesDir entries (fs w) in
                    let w' := {| fs := snd unpacked; trace := trace w |} in
                    match fst unpacked with
                    | Some message => (Throw (Error message), w')
                    | None => (Ok entries, w')
                    end
                | _ => (Throw ZipError, w)
                end) ;;
  match subtitleEntry entries with
  | None => throw TypeError
  | Some entry =>
      let subtitleFileName := basename H (entryName entry) in
      let txtFilePath := path_join E subtitlesDir subtitleFileName in
      data <- readFileSync txtFilePath ;;
      let jsonData := stringify H data in
      ret jsonData
  end.

(** [downloadSubtitles(page, url, subtitlesDir)]: no [try]. *)
Definition downloadSubtitles (url subtitlesDir : jsstring) : M jsstring :=
  emit (EvGotoDownload url) ;;
  match download (site E) url with
  | GotoFails => throw NavigationError
  | ClickFails => throw SelectorError
  | Transfer name content ms =>
      emit (EvClick url) ;;
      waitForTimeout E 10000%N subtitlesDir name content ms ;;
      emit EvClosePage ;;
      let fileName := after_last 47 url in
      let filePath := path_join E subtitlesDir (fileName ++ lit ".zip") in
      extractSubtitles filePath subtitlesDir
  end.

(** [startDownload(url, page)]: [url] is [null] ([None]) when the resolver
    found no English row; the result is [undefined] ([None]) when the
    function ends without [return], which is what it does after a
    download. *)
Definition startDownload (url : option jsstring) : M (option jsstring) :=
  match url with
  | None => throw TypeError                 (* url.substring on null *)
  | Some url =>
      let fileName := after_last 47 url in
      let subtitlesDir := path_join E (cwd E) (lit "subtitles") in
      found <- existsSync subtitlesDir ;;
      (if negb found then mkdirSync E subtitlesDir else ret tt) ;;
      let createMovieFolderName := path_join E subtitlesDir fileName in
      found <- existsSync createMovieFolderName ;;
      (if negb found then mkdirSync E createMovieFolderName else ret tt) ;;
      let filePath := path_join E createMovieFolderName (fileName ++ lit ".zip") in
      found <- existsSync filePath ;;
      if negb found then
        downloadSubtitles url createMovieFolderName ;;
        ret None
      else
        data <- extractSubtitles filePath createMovieFolderName ;;
        ret (Some data)
  end.

(** [JSON.parse(downloadData).replace(...).replace(...)]: [undefined] reads
    as the text [undefined], which is not JSON; a value that is not a string
    has no [replace]. *)
Definition parse_and_convert (downloadData : option jsstring) : M jsstring :=
  match downloadData with
  | None => throw (Error "SyntaxError: undefined is not valid JSON")
  | Some text =>
      match parse H text with
      | ParsedString s => ret (convert s)
      | ParsedOther => throw TypeError
      | NotJson => throw (Error "SyntaxError: not valid JSON")
      end
  end.

(** The [for (const movie of movieList)] loop of [getMoviesList]. *)
Fixpoint listing_loop (movieList : list listing) (movieIndex : nat)
    (movies : list movie_row) : M (list movie_row) :=
  match movieList with
  | [] => ret movies
  | movie :: rest =>
      if MAX_MOVIES E <? movieIndex then ret movies      (* break *)
      else
        movieName <- eval_selector (heading movie) ;;
        movieLink <- eval_selector (href movie) ;;
        emit (EvGotoDetail movieLink) ;;
        page <- match detail (site E) movieLink with
                | None => throw NavigationError
                | Some p => ret p
                end ;;
        subtitleLink <- getEnglishSubtitleLink page ;;
        downloadData <- startDownload subtitleLink ;;
        text <- parse_and_convert downloadData ;;
        match subtitleLink with
        | None => listing_loop rest movieIndex movies
        | Some url =>
            emit (EvMovie movieIndex) ;;
            listing_loop rest (movieIndex + 1)
              (movies ++ [ {| name := movieName; link := movieLink;
                              subtitleLink := url; subtitle := text |} ])
        end
  end.

(** [getMoviesList(page, pageUrl, startIndex)]: always an array. *)
Definition getMoviesList (page startIndex : nat) : M (list movie_row) :=
  emit (EvGotoBrowse page) ;;
  match browse (site E) page with
  | None => throw NavigationError
  | Some movieList => listing_loop movieList startIndex []
  end.

(** The page loop of [scrapeMovies]. *)
Fixpoint page_loop (fuel i startIndex movieCount : nat) (movies : list movie_row)
    : M (list movie_row) :=
  match fuel with
  | O => throw OutOfFuel
  | S fuel' =>
      if movieCount <=? MAX_MOVIES E then
        moviesList <- getMoviesList i startIndex ;;
        match moviesList with
        | [] => ret movies                  (* break *)
        | _ =>
            page_loop fuel' (S i)
              (startIndex + List.length moviesList)
              (movieCount + List.length moviesList)
              (movies ++ moviesList)
        end
      else ret movies
  end.

(** [scrapeMovies()], up to the rows it hands to [writeMoviesToCsv]. *)
Definition scrapeMovies : M (list movie_row) :=
  page_loop (MAX_MOVIES E + 2) 1 1 0 [].

End Run.

End Draft.

(* ================================================================== *)
(** ** More vocabulary *)
(* ================================================================== *)

(** The number of listing pages fetched. *)
Fixpoint pages_fetched (tr : list event) : nat :=
  match tr with
  | [] => 0
  | EvGotoBrowse _ :: tr' => S (pages_fetched tr')
  | _ :: tr' => pages_fetched tr'
  end.

Definition is_movie (e : event) : bool :=
  match e with
  | EvMovie _ => true
  | _ => false
  end.

Definition is_browse (e : event) : bool :=
  match e with
  | EvGotoBrowse _ => true
  | _ => false
  end.

(** A computation that announces no movie. *)
Definition silent {A} (m : M A) : Prop :=
  adds (fun e => is_movie e = false) m.

(** Every value a computation returns satisfies [Q]. *)
Definition returns {A} (Q : A -> Prop) (m : M A) : Prop :=
  forall w a w', m w = (Ok a, w') -> Q a.

(** A computation announces the indices [idx], [idx + 1], ... one after the
    other, [k] of them, none above the cap, and [post] relates what it
    returns to [k]. *)
Definition announces {A} (E : env) (idx : nat) (m : M A)
    (post : A -> nat -> Prop) : Prop :=
  forall w, exists k,
    movie_indices (trace (snd (m w))) = movie_indices (trace w) ++ seq idx k /\
    (k = 0 \/ idx + k <= S (MAX_MOVIES E)) /\
    forall a, fst (m w) = Ok a -> post a k.

(** The indices a run announces start at [from] or above, go strictly up and
    stay within the cap. *)
Definition climbs (E : env) (from : nat) (indices : list nat) : Prop :=
  StronglySorted lt indices /\
  Forall (fun k => from <= k <= MAX_MOVIES E) indices.

(** What is left of the draft's [startDownload] after the two
    directories. *)
Definition draft_fetch (E : env) (H : Draft.host) (url : jsstring)
    : M (option jsstring) :=
  (found <- existsSync (filePath_of E url) ;;
   if negb found then
     Draft.downloadSubtitles E H url (movieFolder_of E url) ;;
     ret None
   else
     data <- Draft.extractSubtitles E H (filePath_of E url)
               (movieFolder_of E url) ;;
     ret (Some data))%js.

(** A listing of the draft's loop gets as far as a loaded detail page with
    a subtitle table in order. *)
Definition reads_detail (E : env) (movie : listing) (movieIndex : nat)
    (movieName movieLink : jsstring) (rows : list row) : Prop :=
  movieIndex <= MAX_MOVIES E /\
  heading movie = Some movieName /\
  href movie = Some movieLink /\
  detail (site E) movieLink = Some {| other_subs := Some rows |} /\
  Forall (fun r => sub_lang r <> None /\ subtitle_download r <> None) rows.

Module SampleDraft.

(** A stand-in for JSON on texts: the text between two quotation marks. *)
Definition quote (s : jsstring) : jsstring := 34%N :: s ++ [34%N].

Definition unquote (text : jsstring) : Draft.parsed :=
  match text with
  | 34%N :: rest =>
      match rev rest with
      | 34%N :: body => Draft.ParsedString (rev body)
      | _ => Draft.NotJson
      end
  | _ => Draft.NotJson
  end.

Definition host : Draft.host :=
  {| Draft.basename := after_last 47;
     Draft.stringify := quote;
     Draft.parse := unquote;
     Draft.archive_bytes := fun _ => [] |}.

(** A table without an English row. *)
Definition french_only : detail_page :=
  {| other_subs :=
       Some [ {| sub_lang := Some (lit "French");
                 subtitle_download := Some (lit "https://yts-subs.com/subtitles/french") |} ] |}.

(** Listing A alone on page 1, with French subtitles only. *)
Definition site_french : web :=
  Sample.site_of [ [Sample.movie "Movie A" Sample.link_a] ]
    [ (Sample.link_a, french_only) ] [].

(** The disk after a run that downloaded the archive of listing A. *)
Definition cached_a (a : node) : world :=
  {| fs := fs_write (lit Sample.path_a) a
             (fs_write (lit Sample.folder_a) Dir
                (fs_write (lit Sample.subtitles_dir) Dir
                   (fs Sample.empty_world)));
     trace := [] |}.

End SampleDraft.

(* ================================================================== *)
(** ** Strings and patterns *)
(* ================================================================== *)

Lemma jsstring_eqb_spec (a b : jsstring) : jsstring_eqb a b = true <-> a = b.
Proof.
  revert b; induction a as [|x a IH]; intros [|y b]; simpl; split;
    try congruence; try reflexivity.
  - intros H. apply andb_prop in H as [Hx Hab].
    apply N.eqb_eq in Hx. apply IH in Hab. congruence.
  - intros H. injection H as -> ->. rewrite N.eqb_refl. simpl. now apply IH.
Qed.

Lemma jsstring_eqb_refl (a : jsstring) : jsstring_eqb a a = true.
Proof. now apply jsstring_eqb_spec. Qed.

Lemma jsstring_eqb_neq (a b : jsstring) : a <> b -> jsstring_eqb a b = false.
Proof.
  intros H. destruct (jsstring_eqb a b) eqn:Heq; [|reflexivity].
  apply jsstring_eqb_spec in Heq. contradiction.
Qed.

Lemma trimStart_length (s : jsstring) : List.length (trimStart s) <= List.length s.
Proof.
  induction s as [|c s IH]; simpl; [lia|].
  destruct (is_space c); simpl; lia.
Qed.

Lemma trim_length (s : jsstring) : List.length (trim s) <= List.length s.
Proof.
  unfold trim. rewrite length_rev.
  etransitivity; [apply trimStart_length|].
  rewrite length_rev. apply trimStart_length.
Qed.

(** A greedy bounded repetition over text made of the class alone takes as
    much as its upper bound allows. *)
Lemma rep_greedy (p : N -> bool) (hi : nat) :
  forall lo s,
    Forall (fun c => p c = true) s ->
    lo <= List.length s -> lo <= hi ->
    rep p lo hi s Some = Some (skipn hi s).
Proof.
  induction hi as [|hi IH]; intros lo s Hall Hlen Hlo.
  - assert (lo = 0) as -> by lia. reflexivity.
  - destruct s as [|c s].
    + simpl in Hlen. assert (lo = 0) as -> by lia. reflexivity.
    + inversion Hall as [|? ? Hc Hs]; subst.
      cbn [rep]. rewrite Hc.
      rewrite IH; [reflexivity|assumption|simpl in Hlen; lia|lia].
Qed.

Lemma match_go_skip (r : regex) :
  forall s k, k <= List.length s -> match_go r k s = match_go r 0 (skipn k s).
Proof.
  induction s as [|c s IH]; intros k Hk.
  - simpl in Hk. assert (k = 0) as -> by lia. reflexivity.
  - destruct k as [|k]; [reflexivity|].
    simpl in Hk. cbn [match_go skipn]. apply IH. lia.
Qed.

Section Windows.

Variable hi : nat.
Hypothesis hi_pos : 1 <= hi.

Let pattern : regex := Rep is_dot 1 hi.

Lemma windows_nil : match_go pattern 0 [] = [].
Proof. unfold pattern. destruct hi; reflexivity. Qed.

Lemma windows_cons (s : jsstring) :
  s <> [] ->
  Forall (fun c => is_dot c = true) s ->
  match_go pattern 0 s = firstn hi s :: match_go pattern 0 (skipn hi s).
Proof.
  intros Hne Hall. destruct s as [|c s]; [congruence|].
  cbn [match_go]. unfold exec, pattern. cbn [matcher].
  rewrite rep_greedy by (simpl; auto; lia).
  assert (Hn : List.length (c :: s) - List.length (skipn hi (c :: s))
               = Nat.min hi (List.length (c :: s))).
  { rewrite length_skipn. lia. }
  rewrite Hn. f_equal.
  - destruct (Nat.le_ge_cases hi (List.length (c :: s))) as [Hle|Hge].
    + now rewrite Nat.min_l.
    + rewrite Nat.min_r by assumption.
      rewrite !firstn_all2; auto.
  - rewrite match_go_skip by (simpl; lia). f_equal.
    destruct (Nat.le_ge_cases hi (List.length (c :: s))) as [Hle|Hge].
    + rewrite Nat.min_l by assumption.
      destruct hi; [lia|reflexivity].
    + rewrite Nat.min_r by assumption.
      rewrite (skipn_all2 (c :: s)) by assumption.
      simpl. apply skipn_all.
Qed.

(** The windows are a partition of the text into pieces of [hi] units, the
    last one possibly shorter. *)
Lemma windows_partition :
  forall n s,
    List.length s <= n ->
    Forall (fun c => is_dot c = true) s ->
    List.concat (match_go pattern 0 s) = s /\
    List.length (match_go pattern 0 s) = ceil_div (List.length s) hi /\
    Forall (fun w => 1 <= List.length w <= hi) (match_go pattern 0 s).
Proof.
  induction n as [|n IH]; intros s Hlen Hall.
  - destruct s; [|simpl in Hlen; lia].
    rewrite windows_nil. unfold ceil_div. simpl.
    repeat split; auto. rewrite Nat.div_small; lia.
  - destruct s as [|c s].
    + rewrite windows_nil. unfold ceil_div. simpl.
      repeat split; auto. rewrite Nat.div_small; lia.
    + rewrite windows_cons by (auto; congruence).
      set (t := c :: s) in *.
      assert (Hrest : List.length (skipn hi t) <= n).
      { rewrite length_skipn. unfold t in *. cbn [List.length] in *. lia. }
      assert (Hall' : Forall (fun c => is_dot c = true) (skipn hi t)).
      { rewrite <- (firstn_skipn hi t) in Hall.
        now apply Forall_app in Hall. }
      destruct (IH _ Hrest Hall') as (Hcat & Hcount & Hsize).
      split; [|split].
      * cbn [List.concat]. rewrite Hcat. apply firstn_skipn.
      * cbn [List.length]. rewrite Hcount, length_skipn. unfold ceil_div.
        assert (Ht : 1 <= List.length t) by (unfold t; simpl; lia).
        destruct (Nat.le_ge_cases hi (List.length t)) as [Hle|Hge].
        -- replace (List.length t + hi - 1)
             with ((List.length t - hi + hi - 1) + 1 * hi) by lia.
           rewrite Nat.div_add by lia. lia.
        -- replace (List.length t - hi + hi - 1) with (hi - 1) by lia.
           rewrite (Nat.div_small (hi - 1)) by lia.
           apply Nat.div_unique with (r := List.length t - 1); lia.
      * constructor; [|assumption].
        rewrite length_firstn. unfold t in *. cbn [List.length] in *. lia.
Qed.

End Windows.

Lemma star_accepts (p : N -> bool) (s : jsstring) :
  exists rest, star p s Some = Some rest /\ List.length rest <= List.length s.
Proof.
  induction s as [|c s (rest & Hrest & Hlen)]; simpl.
  - exists []. auto.
  - destruct (p c).
    + rewrite Hrest. exists rest. auto.
    + exists (c :: s). auto.
Qed.

Lemma is_dot_char (c : N) :
  is_dot c = negb (is_nl c) && negb (is_separator c).
Proof.
  unfold is_dot, is_line_terminator, is_nl, is_separator.
  destruct (c =? 10)%N, (c =? 13)%N, (c =? 8232)%N, (c =? 8233)%N; reflexivity.
Qed.

(** After [replace(/[\n\r]+/g, " ")] no newline or carriage return is
    left. *)
Lemma replace_newlines_dot :
  forall s skip,
    Forall (fun c => is_separator c = false) s ->
    Forall (fun c => is_dot c = true) (replace_go re_newlines (lit " ") skip s).
Proof.
  induction s as [|c s IH]; intros skip Hs.
  - destruct skip; simpl; constructor.
  - inversion Hs as [|? ? Hc Hs']; subst.
    destruct skip as [|skip]; cbn [replace_go]; [|now apply IH].
    unfold exec, re_newlines. cbn [matcher].
    destruct (is_nl c) eqn:Hnl.
    + destruct (star_accepts is_nl s) as (rest & -> & Hlen).
      destruct (List.length (c :: s) - List.length rest) eqn:Hn.
      * cbn [List.length] in Hn. lia.
      * simpl. constructor; [reflexivity|now apply IH].
    + constructor; [|now apply IH].
      rewrite is_dot_char, Hnl, Hc. reflexivity.
Qed.

(** Deleting matches keeps only code units of the text. *)
Lemma replace_delete_keeps (P : N -> Prop) (r : regex) :
  forall s skip, Forall P s -> Forall P (replace_go r [] skip s).
Proof.
  induction s as [|c s IH]; intros skip Hs.
  - simpl. destruct skip, (exec r []); constructor.
  - inversion Hs; subst.
    destruct skip as [|skip]; cbn [replace_go]; [|now apply IH].
    destruct (exec r (c :: s)) as [rest|].
    + destruct (List.length (c :: s) - List.length rest); simpl.
      * constructor; auto.
      * now apply IH.
    + constructor; auto.
Qed.

Lemma normalize_dot (raw : jsstring) :
  Forall (fun c => is_separator c = false) raw ->
  Forall (fun c => is_dot c = true) (normalize raw).
Proof.
  intros H. unfold normalize, replace_all.
  apply replace_delete_keeps. now apply replace_newlines_dot.
Qed.

Lemma nth_error_map_index {A B} (f : A -> nat -> B) :
  forall l start k a,
    nth_error l k = Some a ->
    nth_error (map_index f start l) k = Some (f a (start + k)).
Proof.
  induction l as [|x l IH]; intros start k a H.
  - destruct k; discriminate.
  - destruct k as [|k]; simpl in *.
    + injection H as ->. now rewrite Nat.add_0_r.
    + rewrite (IH (S start) k a H). f_equal. f_equal. lia.
Qed.

Lemma map_index_length {A B} (f : A -> nat -> B) :
  forall l start, List.length (map_index f start l) = List.length l.
Proof. induction l; intros; simpl; auto. Qed.

(* ================================================================== *)
(** ** C1: the chunker *)
(* ================================================================== *)

(** C1, as amended.  For every raw subtitle text without the separators
    U+2028 and U+2029 whose normalized text is not empty and has length [L],
    the pattern [.{1,102}] cuts the normalized text into exactly
    [ceil (L / 102)] windows of at most 102 code units each, whose
    concatenation in order is the normalized text; the rows are one per
    window, in order, the [k]-th (from 0) carrying the part number [k + 1]
    and, as its text, the window with the white space at its two ends
    trimmed off, hence at most 102 code units too. *)
Theorem C1_windows_partition_normalized_text :
  forall (movieName raw : jsstring) (w : world),
    Forall (fun c => is_separator c = false) raw ->
    normalize raw <> [] ->
    exists windows,
      Chunked.subtitleChunks raw = Some windows /\
      List.length windows = ceil_div (List.length (normalize raw)) 102 /\
      Forall (fun win => List.length win <= 102) windows /\
      List.concat windows = normalize raw /\
      exists rows,
        Chunked.chunk_rows movieName raw w = (Ok rows, w) /\
        List.length rows = List.length windows /\
        forall k win,
          nth_error windows k = Some win ->
          nth_error rows k
            = Some (ChunkRow movieName (trim win) (lit "part " ++ show_nat (k + 1))) /\
          List.length (trim win) <= 102.
Proof.
  intros movieName raw w Hsep Hne.
  pose proof (normalize_dot Hsep) as Hdot.
  assert (Hhi : 1 <= 102) by lia.
  destruct (@windows_partition 102 Hhi _ _ (Nat.le_refl _) Hdot)
    as (Hcat & Hcount & Hsize).
  pose proof (@windows_cons 102 Hhi _ Hne Hdot) as Hcons.
  set (windows := match_go (Rep is_dot 1 102) 0 (normalize raw)) in *.
  assert (Hchunks : Chunked.subtitleChunks raw = Some windows).
  { unfold Chunked.subtitleChunks, match_all, re_chunk. fold windows.
    rewrite Hcons. reflexivity. }
  exists windows. repeat split; try assumption.
  - eapply Forall_impl; [|exact Hsize]. simpl. intros; lia.
  - exists (Chunked.movieSubtitles movieName windows). repeat split.
    + unfold Chunked.chunk_rows. rewrite Hchunks. reflexivity.
    + apply map_index_length.
    + unfold Chunked.movieSubtitles.
      now rewrite (nth_error_map_index _ _ 0 _ H).
    + etransitivity; [apply trim_length|].
      apply nth_error_In in H.
      rewrite Forall_forall in Hsize. apply Hsize in H. lia.
Qed.

(* ================================================================== *)
(** ** The resolver *)
(* ================================================================== *)

Lemma find_english_spec (rows : list row) (w : world) :
  Forall (fun r => sub_lang r <> None /\ subtitle_download r <> None) rows ->
  find_english rows w = (Ok (first_english rows), w).
Proof.
  induction 1 as [|r rest [Hlang Hlink] _ IH]; [reflexivity|].
  unfold first_english in *. cbn [find_english find].
  unfold labelled_english at 1.
  destruct (sub_lang r) as [text|]; [|congruence].
  unfold bind, eval_selector, ret.
  destruct (jsstring_eqb (trim text) (lit "English")).
  - destruct (subtitle_download r); [reflexivity|congruence].
  - exact IH.
Qed.

Lemma getEnglishSubtitleLink_spec (E : env) (movieLink : jsstring)
    (rows : list row) (w : world) :
  detail (site E) movieLink = Some {| other_subs := Some rows |} ->
  Forall (fun r => sub_lang r <> None /\ subtitle_download r <> None) rows ->
  getEnglishSubtitleLink E movieLink w
    = (Ok (first_english rows), logged (EvGotoDetail movieLink) w).
Proof.
  intros Hpage Hrows. unfold getEnglishSubtitleLink, bind, emit.
  rewrite Hpage. cbn [other_subs]. now apply find_english_spec.
Qed.

(* ================================================================== *)
(** ** One turn of the listing loops *)
(* ================================================================== *)

Section Turn.

Variable E : env.
Variable movieList : list listing.
Variables (n i movieIndex : nat) (movies : list record) (w : world).
Variables (movie : listing) (movieName movieLink : jsstring).

Hypothesis below_cap : movieIndex <= MAX_MOVIES E.
Hypothesis element : nth_error movieList i = Some movie.
Hypothesis name_found : heading movie = Some movieName.
Hypothesis link_found : href movie = Some movieLink.
Hypothesis link_truthy : movieLink <> [].

(** [part_000]: what the turn for listing [i] does once the name and the link
    of the listing are read. *)
Lemma Chunked_turn :
  movieName <> [] ->
  Chunked.listing_loop E movieList (S n) i movieIndex movies w =
    match getEnglishSubtitleLink E movieLink (logged (EvElement i true) w) with
    | (Throw e, w1) => (Throw e, w1)
    | (Ok None, w1) | (Ok (Some []), w1) =>
        Chunked.listing_loop E movieList n (S i) movieIndex movies w1
    | (Ok (Some (c :: url')), w1) =>
        match startDownload E (c :: url') w1 with
        | (Throw e, w2) => (Throw e, w2)
        | (Ok None, w2) | (Ok (Some []), w2) =>
            Chunked.listing_loop E movieList n (S i) movieIndex movies w2
        | (Ok (Some (d :: data')), w2) =>
            match Chunked.chunk_rows movieName (d :: data')
                    (logged (EvMovie movieIndex) w2) with
            | (Throw e, w3) => (Throw e, w3)
            | (Ok rows, w3) =>
                Chunked.listing_loop E movieList n (S i) (movieIndex + 1)
                  (movies ++ rows) w3
            end
        end
    end.
Proof.
  intros name_truthy. cbn [Chunked.listing_loop].
  apply Nat.leb_le in below_cap. rewrite below_cap.
  unfold bind at 1. unfold emit at 1. rewrite element. cbn [is_some].
  rewrite name_found, link_found. unfold eval_selector.
  unfold bind at 1. unfold ret at 1.
  destruct movieName as [|? ?]; [congruence|]. cbn [truthy negb].
  unfold bind at 1. unfold ret at 1.
  destruct movieLink as [|? ?]; [congruence|]. cbn [truthy negb].
  unfold bind at 1. unfold logged.
  destruct (getEnglishSubtitleLink E _ _) as [[[[|c url']|]|e] w1]; try reflexivity.
  unfold bind at 1.
  destruct (startDownload E _ _) as [[[[|d data']|]|e] w2]; try reflexivity.
Qed.

(** [index.js]: the same turn. *)
Lemma Index_turn :
  Index.listing_loop E movieList (S n) i movieIndex movies w =
    match getEnglishSubtitleLink E movieLink (logged (EvElement i true) w) with
    | (Throw e, w1) => (Throw e, w1)
    | (Ok None, w1) =>
        Index.listing_loop E movieList n (S i) movieIndex movies w1
    | (Ok (Some url), w1) =>
        match startDownload E url w1 with
        | (Throw e, w2) => (Throw e, w2)
        | (Ok None, w2) => (Throw TypeError, logged (EvMovie movieIndex) w2)
        | (Ok (Some data), w2) =>
            Index.listing_loop E movieList n (S i) (movieIndex + 1)
              (movies ++ [MovieRow movieIndex movieName movieLink url
                            (normalize data)])
              (logged (EvMovie movieIndex) w2)
        end
    end.
Proof.
  cbn [Index.listing_loop].
  apply Nat.leb_le in below_cap. rewrite below_cap.
  unfold bind at 1. unfold emit at 1. rewrite element. cbn [is_some].
  rewrite name_found, link_found. unfold eval_selector.
  unfold bind at 1. unfold ret at 1.
  unfold bind at 1. unfold ret at 1.
  destruct movieLink as [|? ?]; [congruence|]. cbn [truthy negb].
  unfold bind at 1. unfold logged.
  destruct (getEnglishSubtitleLink E _ _) as [[[url|]|e] w1]; try reflexivity.
  unfold bind at 1.
  destruct (startDownload E _ _) as [[[data|]|e] w2]; try reflexivity.
Qed.

End Turn.

(* ================================================================== *)
(** ** The file system and the download cache *)
(* ================================================================== *)

Lemma fs_write_same (p : jsstring) (n : node) (f : jsstring -> option node) :
  fs_write p n f p = Some n.
Proof. unfold fs_write. now rewrite jsstring_eqb_refl. Qed.

Lemma fs_write_other (p q : jsstring) (n : node) (f : jsstring -> option node) :
  jsstring_eqb q p = false -> fs_write p n f q = f q.
Proof. unfold fs_write. now intros ->. Qed.

(** Creating a missing directory leaves every path that holds something as
    it is. *)
Lemma ensure_dir_keeps (p q : jsstring) (w : world) (nd : node) :
  fs w q = Some nd -> fs (ensure_dir p w) q = Some nd.
Proof.
  intros Hq. unfold ensure_dir.
  destruct (fs w p) eqn:Hp; cbn [fs logged]; [assumption|].
  rewrite fs_write_other; [assumption|].
  apply jsstring_eqb_neq. intros ->. congruence.
Qed.

Lemma ensure_dir_elsewhere (p q : jsstring) (w : world) :
  jsstring_eqb q p = false -> fs (ensure_dir p w) q = fs w q.
Proof.
  intros Hne. unfold ensure_dir.
  destruct (fs w p); cbn [fs logged]; [reflexivity|].
  now apply fs_write_other.
Qed.

Lemma ensure_dir_trace (p : jsstring) (w : world) :
  exists found, trace (ensure_dir p w) = trace w ++ [EvExistsSync p found].
Proof.
  unfold ensure_dir. destruct (fs w p); cbn [trace logged]; eauto.
Qed.

Lemma prepared_keeps (E : env) (url q : jsstring) (w : world) (nd : node) :
  fs w q = Some nd -> fs (prepared E url w) q = Some nd.
Proof. intros H. unfold prepared. now do 2 apply ensure_dir_keeps. Qed.

Lemma prepared_miss (E : env) (url : jsstring) (w : world) :
  cache_miss E url w -> fs (prepared E url w) (filePath_of E url) = None.
Proof.
  intros (Hnone & Hdir & Hfolder). unfold prepared.
  now rewrite !ensure_dir_elsewhere.
Qed.

Lemma prepared_trace (E : env) (url : jsstring) (w : world) :
  exists found1 found2,
    trace (prepared E url w)
      = trace w ++ [EvExistsSync (subtitlesDir_of E) found1;
                    EvExistsSync (movieFolder_of E url) found2].
Proof.
  unfold prepared.
  destruct (ensure_dir_trace (subtitlesDir_of E) w) as (b1 & H1).
  destruct (ensure_dir_trace (movieFolder_of E url)
              (ensure_dir (subtitlesDir_of E) w)) as (b2 & H2).
  exists b1, b2. rewrite H2, H1, <- app_assoc. reflexivity.
Qed.

(** One directory: the test and the creation go through when the path is
    [makeable], and the creation throws when it is not. *)
Lemma ensure_makeable (E : env) (path : jsstring) (w : world) :
  makeable E path w = true -> ensure E path w = (Ok tt, ensure_dir path w).
Proof.
  unfold makeable, ensure, ensure_dir, logged, bind, existsSync, mkdirSync, ret.
  cbn [fs trace].
  destruct (fs w path) eqn:Hpath; cbn [negb fs trace]; [reflexivity|].
  rewrite Hpath.
  destruct (fs w (dirname E path)) as [[| |]|]; try discriminate. reflexivity.
Qed.

Lemma ensure_unmakeable (E : env) (path : jsstring) (w : world) :
  makeable E path w = false ->
  exists e, ensure E path w = (Throw e, logged (EvExistsSync path false) w).
Proof.
  unfold makeable, ensure, logged, bind, existsSync, mkdirSync, ret.
  cbn [fs trace].
  destruct (fs w path) eqn:Hpath; cbn [negb fs trace]; [discriminate|].
  rewrite Hpath.
  destruct (fs w (dirname E path)) as [[| |]|]; try discriminate; eauto.
Qed.

Lemma bind_assoc {A B C} (m : M A) (f : A -> M B) (g : B -> M C) (w : world) :
  bind (bind m f) g w = bind m (fun a => bind (f a) g) w.
Proof. unfold bind. destruct (m w) as [[a|e] w']; reflexivity. Qed.

Lemma bind_ext {A B} (m : M A) (f g : A -> M B) (w : world) :
  (forall a w', f a w' = g a w') -> bind m f w = bind m g w.
Proof.
  intros H. unfold bind. destruct (m w) as [[a|e] w']; [apply H|reflexivity].
Qed.

(** [startDownload] is its two directories, then the rest of its [try]
    block, with every exception turned into [null]. *)
Lemma startDownload_body (E : env) (url : jsstring) (w : world) :
  startDownload E url w
    = try_catch
        (ensure E (subtitlesDir_of E) ;;
         ensure E (movieFolder_of E url) ;;
         fetch E url)%js
        (fun _ => ret None) w.
Proof.
  unfold startDownload, try_catch.
  match goal with |- match ?a with _ => _ end = match ?b with _ => _ end =>
    replace b with a; [reflexivity|] end.
  symmetry. unfold ensure. rewrite bind_assoc.
  apply bind_ext. intros found w1. apply bind_ext. intros _ w2.
  rewrite bind_assoc. reflexivity.
Qed.

Lemma startDownload_unfold (E : env) (url : jsstring) (w : world) :
  ready E url w = true ->
  startDownload E url w
    = try_catch (fetch E url) (fun _ => ret None) (prepared E url w).
Proof.
  intros Hready. apply andb_prop in Hready as [Hdir Hfolder].
  rewrite startDownload_body. unfold try_catch, prepared.
  unfold bind at 1. rewrite (ensure_makeable _ _ _ Hdir).
  unfold bind at 1. rewrite (ensure_makeable _ _ _ Hfolder). reflexivity.
Qed.

(** When a directory cannot be made, [startDownload] answers [null]
    before it has looked for the archive. *)
Lemma startDownload_not_ready (E : env) (url : jsstring) (w : world) :
  ready E url w = false ->
  exists w',
    startDownload E url w = (Ok None, w') /\
    filter is_transfer (trace w') = filter is_transfer (trace w).
Proof.
  intros Hready. rewrite startDownload_body. unfold try_catch.
  unfold bind at 1. unfold ready in Hready.
  destruct (makeable E (subtitlesDir_of E) w) eqn:Hdir.
  - rewrite (ensure_makeable _ _ _ Hdir). cbn [andb] in Hready.
    unfold bind at 1.
    destruct (ensure_unmakeable _ _ _ Hready) as (e & ->).
    unfold ret. eexists. split; [reflexivity|].
    destruct (ensure_dir_trace (subtitlesDir_of E) w) as (found & Htrace).
    cbn [logged trace]. rewrite Htrace, !filter_app. cbn [filter is_transfer].
    now rewrite !app_nil_r.
  - destruct (ensure_unmakeable _ _ _ Hdir) as (e & ->).
    unfold ret. eexists. split; [reflexivity|].
    cbn [logged trace]. rewrite filter_app. cbn [filter is_transfer].
    now rewrite app_nil_r.
Qed.

(** A file inside its two directories: nothing has to be made. *)
Lemma cached_ready (E : env) (url : jsstring) (w : world) :
  cached E url w = true ->
  ready E url w = true /\
  prepared E url w
    = logged (EvExistsSync (movieFolder_of E url) true)
        (logged (EvExistsSync (subtitlesDir_of E) true) w).
Proof.
  unfold cached, ready, prepared, makeable, ensure_dir, is_some.
  destruct (fs w (subtitlesDir_of E)); [|discriminate]. cbn [logged fs].
  destruct (fs w (movieFolder_of E url)); [|discriminate]. cbn [logged fs].
  intros _. split; reflexivity.
Qed.

Lemma startDownload_never_throws (E : env) (url : jsstring) (w : world) :
  exists r w', startDownload E url w = (Ok r, w').
Proof.
  unfold startDownload, try_catch.
  match goal with |- context [match ?m with _ => _ end] =>
    destruct m as [[r|e] w'] end; unfold ret; eauto.
Qed.

(** The two ways the scripts take the file name off a URL agree:
    [url.split("/").pop()] in [startDownload] and
    [url.substring(url.lastIndexOf("/") + 1)] in [downloadSubtitles]. *)
Lemma split_on_nonempty (sep : N) (s : jsstring) : split_on sep s <> [].
Proof.
  destruct s as [|c s]; simpl; [discriminate|].
  destruct (N.eqb c sep); [discriminate|].
  destruct (split_on sep s); discriminate.
Qed.

Lemma split_on_without (sep : N) (s : jsstring) :
  existsb (N.eqb sep) s = false -> split_on sep s = [s].
Proof.
  induction s as [|c s IH]; simpl; [reflexivity|].
  intros H. apply orb_false_elim in H as [Hc Hs].
  rewrite N.eqb_sym, Hc, (IH Hs). reflexivity.
Qed.

Lemma split_on_with (sep : N) (s : jsstring) :
  existsb (N.eqb sep) s = true -> exists a b l, split_on sep s = a :: b :: l.
Proof.
  induction s as [|c s IH]; simpl; [discriminate|].
  intros H. rewrite (N.eqb_sym sep c) in H.
  destruct (N.eqb c sep); simpl in H.
  - pose proof (split_on_nonempty sep s) as Hne.
    destruct (split_on sep s) as [|b l]; [congruence|]. eauto.
  - destruct (IH H) as (a & b & l & ->). eauto.
Qed.

Lemma after_last_is_pop_split (sep : N) (s : jsstring) :
  after_last sep s = pop (split_on sep s).
Proof.
  unfold pop. induction s as [|c s IH]; [reflexivity|].
  cbn [after_last split_on].
  destruct (existsb (N.eqb sep) s) eqn:Hs.
  - destruct (split_on_with _ _ Hs) as (a & b & l & Hsplit).
    rewrite IH, Hsplit. destruct (N.eqb c sep); reflexivity.
  - rewrite (split_on_without _ _ Hs). destruct (N.eqb c sep); reflexivity.
Qed.

Lemma downloaded_path (E : env) (url : jsstring) :
  path_join E (movieFolder_of E url) (after_last 47 url ++ lit ".zip")
    = filePath_of E url.
Proof. unfold filePath_of, fileName_of. now rewrite after_last_is_pop_split. Qed.

(* ------------------------------------------------------------------ *)
(** *** Extraction *)

(** What unpacking leaves at a path: what was there, a directory, or the
    bytes of an entry; never an archive that was not there. *)
Lemma unpack_lookup (E : env) (dir : jsstring) (entries : list zip_entry) :
  forall f q,
    snd (unpack E dir entries f) q = f q \/
    snd (unpack E dir entries f) q = Some Dir \/
    exists bytes, snd (unpack E dir entries f) q = Some (Plain bytes).
Proof.
  induction entries as [|entry rest IH]; intros f q; cbn [unpack].
  - now left.
  - destruct (isDirectory entry).
    + destruct (f (target E dir entry)) as [[| |]|] eqn:Hat;
        try (now left); [apply IH|].
      destruct (IH (fs_write (target E dir entry) Dir f) q)
        as [-> | H]; [|now right].
      unfold fs_write. destruct (jsstring_eqb q _); [right; now left|now left].
    + assert (Hwrite :
          snd (unpack E dir rest
                 (fs_write (target E dir entry) (Plain (getData entry)) f)) q
            = f q \/
          snd (unpack E dir rest
                 (fs_write (target E dir entry) (Plain (getData entry)) f)) q
            = Some Dir \/
          exists bytes,
            snd (unpack E dir rest
                   (fs_write (target E dir entry) (Plain (getData entry)) f)) q
              = Some (Plain bytes)).
      { destruct (IH (fs_write (target E dir entry) (Plain (getData entry)) f) q)
          as [-> | H]; [|now right].
        unfold fs_write.
        destruct (jsstring_eqb q _); [right; right; eauto|now left]. }
      destruct (f (target E dir entry)) as [[| |]|]; try assumption. now left.
Qed.

Lemma extractAllTo_lookup (E : env) (dir : jsstring) (entries : list zip_entry)
    (f : jsstring -> option node) (q : jsstring) :
  snd (extractAllTo E dir entries f) q = f q \/
  snd (extractAllTo E dir entries f) q = Some Dir \/
  exists bytes, snd (extractAllTo E dir entries f) q = Some (Plain bytes).
Proof.
  unfold extractAllTo. destruct (unpack_error E dir entries f).
  - now left.
  - apply unpack_lookup.
Qed.

(** Unpacking removes nothing. *)
Lemma extractAllTo_keeps (E : env) (dir : jsstring) (entries : list zip_entry)
    (f : jsstring -> option node) (q : jsstring) :
  f q <> None -> snd (extractAllTo E dir entries f) q <> None.
Proof.
  intros Hq.
  destruct (extractAllTo_lookup E dir entries f q) as [-> | [-> | (bytes & ->)]];
    [assumption|discriminate|discriminate].
Qed.

(** What [extractSubtitles] answers and logs. *)
Lemma extractSubtitles_result (E : env) (filePath dir : jsstring) (w : world) :
  fst (extractSubtitles E filePath dir w) =
    match fs w filePath with
    | Some (Archive entries) =>
        match fst (extractAllTo E dir entries (fs w)) with
        | Some message => Throw (Error message)
        | None =>
            match subtitleEntry entries with
            | Some entry => Ok (utf8_decode E (getData entry))
            | None => Throw (Error "No subtitle file found in zip")
            end
        end
    | _ => Throw ZipError
    end.
Proof.
  unfold extractSubtitles, bind, emit. cbn [fs].
  destruct (fs w filePath) as [[|entries|]|]; try reflexivity.
  destruct (fst (extractAllTo E dir entries (fs w))); [reflexivity|].
  destruct (subtitleEntry entries); reflexivity.
Qed.

Lemma extractSubtitles_trace (E : env) (filePath dir : jsstring) (w : world) :
  trace (snd (extractSubtitles E filePath dir w)) = trace w ++ [EvOpenZip filePath].
Proof.
  unfold extractSubtitles, bind, emit. cbn [fs].
  destruct (fs w filePath) as [[|entries|]|]; try reflexivity.
  destruct (fst (extractAllTo E dir entries (fs w))); [reflexivity|].
  destruct (subtitleEntry entries); reflexivity.
Qed.

Lemma extractSubtitles_disk (E : env) (filePath dir : jsstring) (w : world) :
  fs (snd (extractSubtitles E filePath dir w)) =
    match fs w filePath with
    | Some (Archive entries) => snd (extractAllTo E dir entries (fs w))
    | _ => fs w
    end.
Proof.
  unfold extractSubtitles, bind, emit. cbn [fs].
  destruct (fs w filePath) as [[|entries|]|]; try reflexivity.
  destruct (fst (extractAllTo E dir entries (fs w))); [reflexivity|].
  destruct (subtitleEntry entries); reflexivity.
Qed.

Lemma extractSubtitles_keeps (E : env) (filePath dir : jsstring) (w : world)
    (q : jsstring) :
  fs w q <> None -> fs (snd (extractSubtitles E filePath dir w)) q <> None.
Proof.
  intros Hq. rewrite extractSubtitles_disk.
  destruct (fs w filePath) as [[|entries|]|]; try assumption.
  now apply extractAllTo_keeps.
Qed.

(** The answer is the one [extraction_of] describes. *)
Lemma extractSubtitles_extraction (E : env) (filePath dir : jsstring) (w : world) :
  match fst (extractSubtitles E filePath dir w) with
  | Ok data => extraction_of E dir (fs w) (fs w filePath) = Some data
  | Throw _ => extraction_of E dir (fs w) (fs w filePath) = None
  end.
Proof.
  rewrite extractSubtitles_result. unfold extraction_of, document_of.
  destruct (fs w filePath) as [[|entries|]|]; try reflexivity.
  destruct (fst (extractAllTo E dir entries (fs w))); [reflexivity|].
  destruct (subtitleEntry entries); reflexivity.
Qed.

Lemma extraction_of_document (E : env) (dir : jsstring)
    (disk : jsstring -> option node) (file : option node) :
  document_of E file = None -> extraction_of E dir disk file = None.
Proof.
  unfold extraction_of. destruct file as [[|entries|]|]; try reflexivity.
  intros ->. now destruct (fst (extractAllTo E dir entries disk)).
Qed.

Lemma extractSubtitles_absent (E : env) (filePath dir : jsstring) (w : world) :
  fs w filePath = None ->
  extractSubtitles E filePath dir w = (Throw ZipError, logged (EvOpenZip filePath) w).
Proof.
  intros H. unfold extractSubtitles, bind, emit. cbn [fs]. now rewrite H.
Qed.

(** The entry picked is the first one, in the archive's order, whose name
    ends in [.srt]. *)
Lemma subtitleEntry_first (before after : list zip_entry) (entry : zip_entry) :
  Forall (fun e => endsWith (entryName e) (lit ".srt") = false) before ->
  endsWith (entryName entry) (lit ".srt") = true ->
  subtitleEntry (before ++ entry :: after) = Some entry.
Proof.
  induction 1 as [|e before He _ IH]; intros Hentry; cbn [subtitleEntry app].
  - now rewrite Hentry.
  - rewrite He. now apply IH.
Qed.

Lemma subtitleEntry_none (entries : list zip_entry) :
  Forall (fun e => endsWith (entryName e) (lit ".srt") = false) entries ->
  subtitleEntry entries = None.
Proof.
  induction 1 as [|e rest He _ IH]; cbn [subtitleEntry]; [reflexivity|].
  now rewrite He.
Qed.

(* ------------------------------------------------------------------ *)
(** *** Cache hit and cache miss *)

Lemma extraction_step (E : env) (filePath dir : jsstring) (w : world) :
  exists w' e,
    (data <- extractSubtitles E filePath dir ;; ret (Some data))%js w
      = (match extraction_of E dir (fs w) (fs w filePath) with
         | Some data => Ok (Some data)
         | None => Throw e
         end, w') /\
    trace w' = trace w ++ [EvOpenZip filePath] /\
    (forall q, fs w q <> None -> fs w' q <> None) /\
    fs w' = match fs w filePath with
            | Some (Archive entries) => snd (extractAllTo E dir entries (fs w))
            | _ => fs w
            end.
Proof.
  pose proof (extractSubtitles_extraction E filePath dir w) as Hresult.
  pose proof (extractSubtitles_trace E filePath dir w) as Htrace.
  pose proof (extractSubtitles_keeps E filePath dir w) as Hkeeps.
  pose proof (extractSubtitles_disk E filePath dir w) as Hdisk.
  unfold bind.
  destruct (extractSubtitles E filePath dir w) as [[data|e] w'];
    cbn [fst snd] in *; rewrite Hresult; unfold ret.
  - exists w', TypeError. auto.
  - exists w', e. auto.
Qed.

(** On a cache hit nothing is downloaded: the path is looked up and the
    archive it holds is opened. *)
Lemma startDownload_hit (E : env) (url : jsstring) (w : world) (nd : node) :
  ready E url w = true ->
  fs w (filePath_of E url) = Some nd ->
  exists w',
    startDownload E url w
      = (Ok (extraction_of E (movieFolder_of E url) (fs (prepared E url w))
               (Some nd)), w') /\
    trace w' = trace (prepared E url w)
                 ++ [EvExistsSync (filePath_of E url) true;
                     EvOpenZip (filePath_of E url)] /\
    forall q, fs (prepared E url w) q <> None -> fs w' q <> None.
Proof.
  intros Hready Hfile. rewrite (startDownload_unfold _ _ _ Hready).
  unfold try_catch, fetch. unfold bind at 1. unfold existsSync.
  rewrite (prepared_keeps E url _ _ Hfile). cbn [negb].
  match goal with |- context [bind ?m ?f ?w1] =>
    destruct (extraction_step E (filePath_of E url) (movieFolder_of E url) w1)
      as (w' & e & Hstep & Htrace & Hkeeps & _) end.
  rewrite Hstep. cbn [fs] in *. rewrite (prepared_keeps E url _ _ Hfile).
  cbn [trace] in Htrace. rewrite <- app_assoc in Htrace.
  destruct (extraction_of E (movieFolder_of E url) (fs (prepared E url w))
              (Some nd)); unfold ret; eauto.
Qed.

(** [downloadSubtitles] never throws either. *)
Lemma downloadSubtitles_never_throws (E : env) (url dir : jsstring) (w : world) :
  exists r w', downloadSubtitles E url dir w = (Ok r, w').
Proof.
  unfold downloadSubtitles, try_catch.
  match goal with |- context [match ?m with _ => _ end] =>
    destruct m as [[r|e] w'] end; unfold ret; eauto.
Qed.

(** On a cache miss the result is [null] as soon as the download leaves no
    archive with a subtitle document at the path. *)
Lemma startDownload_miss_null (E : env) (url : jsstring) (w : world) :
  cache_miss E url w ->
  (forall r w2,
      downloadSubtitles E url (movieFolder_of E url)
        (logged (EvExistsSync (filePath_of E url) false) (prepared E url w))
        = (r, w2) ->
      document_of E (fs w2 (filePath_of E url)) = None) ->
  exists w', startDownload E url w = (Ok None, w').
Proof.
  intros Hmiss Hafter.
  destruct (ready E url w) eqn:Hready;
    [|destruct (startDownload_not_ready _ _ _ Hready) as (w' & Hrun & _); eauto].
  rewrite (startDownload_unfold _ _ _ Hready).
  unfold try_catch, fetch. unfold bind at 1. unfold existsSync.
  rewrite (prepared_miss Hmiss). cbn [negb].
  unfold bind at 1. fold (logged (EvExistsSync (filePath_of E url) false)
                            (prepared E url w)).
  destruct (downloadSubtitles_never_throws E url (movieFolder_of E url)
              (logged (EvExistsSync (filePath_of E url) false) (prepared E url w)))
    as (r & w2 & Hdl).
  rewrite Hdl. specialize (Hafter _ _ Hdl).
  destruct (extraction_step E (filePath_of E url) (movieFolder_of E url) w2)
    as (w' & e & Hstep & _).
  rewrite Hstep, (extraction_of_document _ _ _ _ Hafter). unfold ret. eauto.
Qed.

(** A download that cannot start, or is not over when the wait is, leaves
    the file system as it was. *)
Lemma downloadSubtitles_nothing_saved (E : env) (url : jsstring) (w : world) :
  fs w (filePath_of E url) = None ->
  download (site E) url = GotoFails \/
  download (site E) url = ClickFails \/
  (exists name content ms,
      download (site E) url = Transfer name content ms /\ (10000 < ms)%N) ->
  forall r w2,
    downloadSubtitles E url (movieFolder_of E url) w = (r, w2) ->
    fs w2 = fs w.
Proof.
  intros Hnone Hcase r w2. unfold downloadSubtitles, try_catch.
  unfold bind at 1. unfold emit at 1.
  destruct Hcase as [-> | [-> | (name & content & ms & -> & Hslow)]].
  - unfold throw, ret. intros [= <- <-]. reflexivity.
  - unfold throw, ret. intros [= <- <-]. reflexivity.
  - unfold bind at 1. unfold emit at 1.
    unfold bind at 1. unfold waitForTimeout. unfold bind at 1. unfold emit at 1.
    cbn [fs trace]. apply N.leb_gt in Hslow. rewrite Hslow.
    unfold bind at 1. unfold emit at 1.
    rewrite downloaded_path. unfold bind at 1.
    rewrite extractSubtitles_absent by (cbn [fs]; assumption).
    unfold ret. intros [= <- <-]. reflexivity.
Qed.

(** An archive without a subtitle document, once downloaded, leaves no
    subtitle document at the path. *)
Lemma downloadSubtitles_without_subtitle (E : env) (url : jsstring) (w : world)
    (entries : list zip_entry) (ms : N) :
  fs w (filePath_of E url) = None ->
  download (site E) url
    = Transfer (fileName_of url ++ lit ".zip") (Archive entries) ms ->
  subtitleEntry entries = None ->
  forall r w2,
    downloadSubtitles E url (movieFolder_of E url) w = (r, w2) ->
    document_of E (fs w2 (filePath_of E url)) = None.
Proof.
  intros Hnone Hdl Hsrt r w2. unfold downloadSubtitles, try_catch.
  unfold bind at 1. unfold emit at 1. rewrite Hdl.
  unfold bind at 1. unfold emit at 1.
  unfold bind at 1. unfold waitForTimeout. unfold bind at 1. unfold emit at 1.
  cbn [fs trace]. fold (filePath_of E url). rewrite Hnone.
  unfold bind at 1. unfold emit at 1. rewrite downloaded_path.
  unfold bind at 1.
  assert (Hsaved : forall w1,
             fs w1 (filePath_of E url) = Some (Archive entries) ->
             document_of E
               (fs (snd (extractSubtitles E (filePath_of E url)
                           (movieFolder_of E url) w1)) (filePath_of E url))
               = None).
  { intros w1 Hfile. rewrite extractSubtitles_disk, Hfile.
    destruct (extractAllTo_lookup E (movieFolder_of E url) entries (fs w1)
                (filePath_of E url)) as [-> | [-> | (bytes & ->)]];
      try reflexivity.
    rewrite Hfile. cbn [document_of]. now rewrite Hsrt. }
  assert (Hmissing : forall w1,
             fs w1 (filePath_of E url) = None ->
             document_of E
               (fs (snd (extractSubtitles E (filePath_of E url)
                           (movieFolder_of E url) w1)) (filePath_of E url))
               = None).
  { intros w1 Hfile. rewrite extractSubtitles_disk, Hfile. now rewrite Hfile. }
  destruct (ms <=? 10000)%N;
    [destruct (fs w (movieFolder_of E url)) as [[| |]|]|];
    match goal with |- context [extractSubtitles E _ _ ?w1] =>
      first [ specialize (Hsaved w1 ltac:(cbn [fs]; apply fs_write_same))
            | specialize (Hmissing w1 ltac:(cbn [fs]; exact Hnone)) ];
      destruct (extractSubtitles E (filePath_of E url) (movieFolder_of E url) w1)
        as [[data|e] w3]
    end; cbn [snd] in *; unfold ret; intros [= <- <-]; assumption.
Qed.

(** Every failure of the download or of the extraction comes back from
    [startDownload] as [null]. *)
Lemma stage_failure_null (E : env) (url : jsstring) (w : world) :
  stage_failure E url w -> exists w', startDownload E url w = (Ok None, w').
Proof.
  assert (Hhit : forall nd,
             fs w (filePath_of E url) = Some nd ->
             document_of E (Some nd) = None ->
             exists w', startDownload E url w = (Ok None, w')).
  { intros nd Hfile Hdoc.
    destruct (ready E url w) eqn:Hready;
      [|destruct (startDownload_not_ready _ _ _ Hready) as (w' & Hrun & _); eauto].
    destruct (startDownload_hit E url w Hready Hfile) as (w' & Hrun & _).
    rewrite (extraction_of_document _ _ _ _ Hdoc) in Hrun. eauto. }
  intros [Hmiss Hdl | Hmiss Hdl | name content ms Hmiss Hdl Hslow
         | entries ms Hmiss Hdl Hsrt | Hfile | entries Hfile Hsrt].
  - apply startDownload_miss_null; [assumption|]. intros r w2 Hrun.
    erewrite (downloadSubtitles_nothing_saved); eauto;
      cbn [fs logged]; now rewrite (prepared_miss Hmiss).
  - apply startDownload_miss_null; [assumption|]. intros r w2 Hrun.
    erewrite (downloadSubtitles_nothing_saved); eauto;
      cbn [fs logged]; now rewrite (prepared_miss Hmiss).
  - apply startDownload_miss_null; [assumption|]. intros r w2 Hrun.
    erewrite (downloadSubtitles_nothing_saved); eauto 8;
      cbn [fs logged]; now rewrite (prepared_miss Hmiss).
  - apply startDownload_miss_null; [assumption|]. intros r w2 Hrun.
    eapply downloadSubtitles_without_subtitle; eauto.
    cbn [fs logged]. apply (prepared_miss Hmiss).
  - destruct Hfile as [Hfile | (bytes & Hfile)]; now apply (Hhit _ Hfile).
  - apply (Hhit _ Hfile). cbn [document_of]. now rewrite Hsrt.
Qed.

(* ================================================================== *)
(** ** How an exception travels up to the run *)
(* ================================================================== *)

Lemma Chunked_getMoviesList_unfold (E : env) (page startIndex : nat)
    (movieList : list listing) (w : world) :
  browse (site E) page = Some movieList -> movieList <> [] ->
  Chunked.getMoviesList E page startIndex w =
    match Chunked.listing_loop E movieList (List.length movieList) 0 startIndex []
            (logged (EvGotoBrowse page) w) with
    | (Ok movies, w') => (Ok (Some movies), w')
    | (Throw e, w') => (Throw e, w')
    end.
Proof.
  intros Hpage Hne. unfold Chunked.getMoviesList.
  unfold bind at 1. unfold emit at 1. rewrite Hpage.
  destruct movieList; [congruence|]. reflexivity.
Qed.

Lemma Index_getMoviesList_unfold (E : env) (page startIndex : nat)
    (movieList : list listing) (w : world) :
  browse (site E) page = Some movieList -> movieList <> [] ->
  Index.getMoviesList E page startIndex w =
    match Index.listing_loop E movieList (List.length movieList + 1) 0 startIndex []
            (logged (EvGotoBrowse page) w) with
    | (Ok movies, w') => (Ok (Some movies), w')
    | (Throw e, w') => (Throw e, w')
    end.
Proof.
  intros Hpage Hne. unfold Index.getMoviesList.
  unfold bind at 1. unfold emit at 1. rewrite Hpage.
  destruct movieList; [congruence|]. reflexivity.
Qed.

Section Propagation.

Variable E : env.
Variable getMoviesList : nat -> nat -> M (option (list record)).

(** Nothing in [scrapeMovies] catches what [getMoviesList] throws. *)
Lemma page_loop_throws (fuel page startIndex movieCount : nat)
    (movies : list record) (w w' : world) (e : exn) :
  movieCount <= MAX_MOVIES E ->
  getMoviesList page startIndex w = (Throw e, w') ->
  page_loop E getMoviesList (S fuel) page startIndex movieCount movies w
    = (Throw e, w').
Proof.
  intros Hcap Hthrow. cbn [page_loop].
  apply Nat.leb_le in Hcap. rewrite Hcap.
  unfold bind. now rewrite Hthrow.
Qed.

(** [moviesList.length] on the [null] that [getMoviesList] returns for a
    page without listings is a [TypeError]. *)
Lemma page_loop_null (fuel page startIndex movieCount : nat)
    (movies : list record) (w w' : world) :
  movieCount <= MAX_MOVIES E ->
  getMoviesList page startIndex w = (Ok None, w') ->
  page_loop E getMoviesList (S fuel) page startIndex movieCount movies w
    = (Throw TypeError, w').
Proof.
  intros Hcap Hnull. cbn [page_loop].
  apply Nat.leb_le in Hcap. rewrite Hcap.
  unfold bind. now rewrite Hnull.
Qed.

(** An exception of the page loop ends the run before the CSV file is
    written. *)
Lemma scrapeMovies_throws (w w' : world) (e : exn) :
  page_loop E getMoviesList (MAX_MOVIES E + 2) 1 1 0 [] w = (Throw e, w') ->
  scrapeMovies_with E getMoviesList w = (Throw e, w').
Proof.
  intros Hthrow. unfold scrapeMovies_with, bind. now rewrite Hthrow.
Qed.

End Propagation.

(** A page without listings makes [getMoviesList] answer [null] in both
    scripts, hence ends the page loop with a [TypeError]. *)
Lemma empty_page_ends_page_loop (E : env) (fuel page startIndex movieCount : nat)
    (movies : list record) (w : world) :
  browse (site E) page = Some [] ->
  movieCount <= MAX_MOVIES E ->
  page_loop E (Chunked.getMoviesList E) (S fuel) page startIndex movieCount movies w
    = (Throw TypeError, logged (EvGotoBrowse page) w) /\
  page_loop E (Index.getMoviesList E) (S fuel) page startIndex movieCount movies w
    = (Throw TypeError, logged (EvGotoBrowse page) w).
Proof.
  intros Hpage Hcap. split; apply page_loop_null; try assumption.
  - unfold Chunked.getMoviesList, bind, emit. now rewrite Hpage.
  - unfold Index.getMoviesList, bind, emit. now rewrite Hpage.
Qed.

(* ================================================================== *)
(** ** Failures of one listing *)
(* ================================================================== *)

(** In [part_000], every failure of the download or of the extraction of one
    listing (the download page cannot be reached, it has no download button,
    the transfer is not over when the wait is, the archive cannot be opened
    or holds no subtitle document) is caught inside [startDownload] and
    comes back as [null]; the listing loop then goes on to the next listing
    with the same index and the same records. *)
Lemma failed_download_or_extraction_is_skipped :
  forall (E : env) (movieList : list listing) (n i movieIndex : nat)
         (movies : list record) (w w1 : world)
         (movieName movieLink url : jsstring),
    reads_listing E movieList i movieIndex movieName movieLink ->
    getEnglishSubtitleLink E movieLink (logged (EvElement i true) w)
      = (Ok (Some url), w1) ->
    url <> [] ->
    stage_failure E url w1 ->
    exists w2,
      startDownload E url w1 = (Ok None, w2) /\
      Chunked.listing_loop E movieList (S n) i movieIndex movies w
        = Chunked.listing_loop E movieList n (S i) movieIndex movies w2.
Proof.
  intros E movieList n i movieIndex movies w w1 movieName movieLink url
         (Hcap & movie & Helt & Hname & Hname_ne & Hlink & Hlink_ne)
         Hresolved Hurl Hfail.
  destruct (stage_failure_null Hfail) as (w2 & Hnull).
  exists w2. split; [assumption|].
  rewrite (@Chunked_turn E movieList n i movieIndex movies w movie movieName
             movieLink Hcap Helt Hname Hlink Hlink_ne Hname_ne).
  rewrite Hresolved. destruct url as [|c url']; [congruence|].
  now rewrite Hnull.
Qed.

(* ================================================================== *)
(** ** The resolver and its callers *)
(* ================================================================== *)

(** When the detail page loads and has its subtitle table, each row of which
    has a language cell and a download link, the resolver returns the link
    of the first row, in document order, whose trimmed label is exactly
    ["English"], and [null] when the table is empty or no row matches; on
    [null] both listing loops go on to the next listing with the index and
    the records unchanged. *)
Lemma resolver_first_english_row :
  forall (E : env) (movieList : list listing) (n i movieIndex : nat)
         (movies : list record) (w : world)
         (movieName movieLink : jsstring) (rows : list row),
    reads_listing E movieList i movieIndex movieName movieLink ->
    detail (site E) movieLink = Some {| other_subs := Some rows |} ->
    Forall (fun r => sub_lang r <> None /\ subtitle_download r <> None) rows ->
    let w1 := logged (EvGotoDetail movieLink) (logged (EvElement i true) w) in
    getEnglishSubtitleLink E movieLink (logged (EvElement i true) w)
      = (Ok (first_english rows), w1) /\
    (first_english rows = None ->
     Chunked.listing_loop E movieList (S n) i movieIndex movies w
       = Chunked.listing_loop E movieList n (S i) movieIndex movies w1 /\
     Index.listing_loop E movieList (S n) i movieIndex movies w
       = Index.listing_loop E movieList n (S i) movieIndex movies w1).
Proof.
  intros E movieList n i movieIndex movies w movieName movieLink rows
         (Hcap & movie & Helt & Hname & Hname_ne & Hlink & Hlink_ne)
         Hpage Hrows w1.
  pose proof (@getEnglishSubtitleLink_spec E movieLink rows
                (logged (EvElement i true) w) Hpage Hrows) as Hres.
  fold w1 in Hres. split; [assumption|].
  intros Hnone. split.
  - rewrite (@Chunked_turn E movieList n i movieIndex movies w movie movieName
             movieLink Hcap Helt Hname Hlink Hlink_ne Hname_ne).
    now rewrite Hres, Hnone.
  - rewrite (@Index_turn E movieList n i movieIndex movies w movie movieName
               movieLink Hcap Helt Hname Hlink Hlink_ne).
    now rewrite Hres, Hnone.
Qed.

(* ================================================================== *)
(** ** C10: text that normalizes to nothing *)
(* ================================================================== *)

Lemma subtitleChunks_of_nothing (data : jsstring) :
  normalize data = [] -> Chunked.subtitleChunks data = None.
Proof. unfold Chunked.subtitleChunks. now intros ->. Qed.

(** C10, as amended.  In the chunked script, when the subtitle document of
    a listing is not empty but nothing of it is left after normalization,
    [match] finds no chunk and answers [null], mapping over it raises a
    [TypeError] right after the index of the listing is announced, and
    nothing catches it: the run ends there, no CSV file is written.  (An
    empty document does not get that far: the listing is skipped.) *)
Theorem C10_text_normalized_to_nothing_aborts_run :
  forall (E : env) (movieList : list listing) (n i movieIndex : nat)
         (movies : list record) (w w1 w2 : world)
         (movieName movieLink url data : jsstring)
         (fuel page startIndex movieCount : nat) (written : list record)
         (w0 start : world),
    reads_listing E movieList i movieIndex movieName movieLink ->
    getEnglishSubtitleLink E movieLink (logged (EvElement i true) w)
      = (Ok (Some url), w1) ->
    url <> [] ->
    startDownload E url w1 = (Ok (Some data), w2) ->
    data <> [] ->
    normalize data = [] ->
    (* the listing loop of the page gets to that turn *)
    browse (site E) page = Some movieList ->
    Chunked.listing_loop E movieList (List.length movieList) 0 startIndex []
        (logged (EvGotoBrowse page) w0)
      = Chunked.listing_loop E movieList (S n) i movieIndex movies w ->
    (* the page loop of the run gets to that page *)
    movieCount <= MAX_MOVIES E ->
    page_loop E (Chunked.getMoviesList E) (MAX_MOVIES E + 2) 1 1 0 [] start
      = page_loop E (Chunked.getMoviesList E) (S fuel) page startIndex
          movieCount written w0 ->
    Chunked.subtitleChunks data = None /\
    Chunked.scrapeMovies E start
      = (Throw TypeError, logged (EvMovie movieIndex) w2).
Proof.
  intros E movieList n i movieIndex movies w w1 w2 movieName movieLink url data
         fuel page startIndex movieCount written w0 start
         (Hcap & movie & Helt & Hname & Hname_ne & Hlink & Hlink_ne)
         Hresolved Hurl Hdata Hdata_ne Hnothing Hpage Hturn Hcount Hrun.
  pose proof (subtitleChunks_of_nothing _ Hnothing) as Hchunks.
  split; [assumption|].
  apply scrapeMovies_throws. rewrite Hrun.
  apply page_loop_throws; [assumption|].
  assert (Hne : movieList <> []) by (intros ->; destruct i; discriminate).
  rewrite (@Chunked_getMoviesList_unfold E page startIndex movieList w0 Hpage Hne).
  rewrite Hturn.
  rewrite (@Chunked_turn E movieList n i movieIndex movies w movie movieName
             movieLink Hcap Helt Hname Hlink Hlink_ne Hname_ne).
  rewrite Hresolved. destruct url as [|c url']; [congruence|].
  rewrite Hdata. destruct data as [|d data']; [congruence|].
  unfold Chunked.chunk_rows. rewrite Hchunks. reflexivity.
Qed.

(* ================================================================== *)
(** ** C6: the download cache *)
(* ================================================================== *)

Lemma is_some_true {A} (x : option A) : is_some x = true <-> x <> None.
Proof. destruct x; cbn; split; congruence. Qed.

(** C6, as amended.  When a file is on disk at the path derived from the
    archive URL, inside its two directories, [startDownload] starts no
    transfer: it looks up the two directories and the path, opens the file
    and answers with what the extraction of that very file gives, the
    subtitle document of the archive when the unpacking reports no error,
    [null] otherwise.  The file is still there afterwards, so the same
    holds of every later call: once a transfer has been saved at the path,
    the archive is not transferred again.  (A transfer that was not saved
    there is repeated by the next run.) *)
Theorem C6_cache_hit_reuses_artifact :
  forall (E : env) (url : jsstring) (w : world),
    cached E url w = true ->
    exists w',
      startDownload E url w
        = (Ok (extraction_of E (movieFolder_of E url) (fs w)
                 (fs w (filePath_of E url))), w') /\
      trace w' = trace w ++ [EvExistsSync (subtitlesDir_of E) true;
                             EvExistsSync (movieFolder_of E url) true;
                             EvExistsSync (filePath_of E url) true;
                             EvOpenZip (filePath_of E url)] /\
      filter is_transfer (trace w') = filter is_transfer (trace w) /\
      cached E url w' = true.
Proof.
  intros E url w Hcached.
  destruct (cached_ready _ _ _ Hcached) as [Hready Hprep].
  unfold cached in Hcached.
  apply andb_prop in Hcached as [Hcached Hfile].
  apply andb_prop in Hcached as [Hdir Hfolder].
  apply is_some_true in Hdir, Hfolder.
  destruct (fs w (filePath_of E url)) as [artifact|] eqn:Hat; [|discriminate].
  destruct (startDownload_hit E url w Hready Hat)
    as (w' & Hrun & Htrace & Hkeeps).
  rewrite Hprep in Hrun, Htrace, Hkeeps. cbn [logged fs trace] in *.
  rewrite <- !app_assoc in Htrace. cbn [app] in Htrace.
  exists w'. split; [assumption|]. split; [assumption|]. split.
  - rewrite Htrace, filter_app. cbn [filter is_transfer]. apply app_nil_r.
  - unfold cached. rewrite !andb_true_iff, !is_some_true.
    repeat split; apply Hkeeps; congruence.
Qed.

(* ================================================================== *)
(** ** C9: how the end of a download is awaited *)
(* ================================================================== *)

Lemma downloadSubtitles_transfer (E : env) (url subtitlesDir : jsstring)
    (w : world) (name : jsstring) (content : node) (ms : N) :
  download (site E) url = Transfer name content ms ->
  let filePath := path_join E subtitlesDir (after_last 47 url ++ lit ".zip") in
  exists r w',
    downloadSubtitles E url subtitlesDir w = (r, w') /\
    trace w' = trace w ++ [EvGotoDownload url; EvClick url; EvWaitForTimeout 10000;
                           EvClosePage; EvOpenZip filePath] /\
    ((10000 < ms)%N -> fs w filePath = None -> r = Ok None).
Proof.
  intros Hdl filePath.
  unfold downloadSubtitles, try_catch.
  unfold bind at 1. unfold emit at 1. rewrite Hdl.
  unfold bind at 1. unfold emit at 1.
  unfold bind at 1. unfold waitForTimeout. unfold bind at 1. unfold emit at 1.
  cbn [fs trace]. fold filePath.
  set (landed := match (ms <=? 10000)%N, fs w (path_join E subtitlesDir name),
                       fs w subtitlesDir with
                 | true, None, Some Dir => _
                 | _, _, _ => _
                 end).
  assert (Hlanded : exists f,
             landed = (Ok tt, {| fs := f;
                                 trace := ((trace w ++ [EvGotoDownload url])
                                            ++ [EvClick url])
                                            ++ [EvWaitForTimeout 10000] |})
             /\ ((10000 < ms)%N -> f = fs w)).
  { unfold landed. destruct (ms <=? 10000)%N eqn:Hms.
    - destruct (fs w (path_join E subtitlesDir name));
        [|destruct (fs w subtitlesDir) as [[| |]|]]; eexists; split;
        try reflexivity; intros Hslow; apply N.leb_le in Hms; lia.
    - eexists; split; reflexivity || auto. }
  destruct Hlanded as (f & -> & Hslow).
  unfold bind at 1. unfold emit at 1. cbn [fs trace].
  unfold bind at 1.
  match goal with |- context [extractSubtitles E filePath subtitlesDir ?w1] =>
    pose proof (extractSubtitles_trace E filePath subtitlesDir w1) as Htrace;
    pose proof (extractSubtitles_result E filePath subtitlesDir w1) as Hresult;
    destruct (extractSubtitles E filePath subtitlesDir w1) as [[data|e] w2]
  end; cbn [fst snd fs trace] in *; unfold ret; do 2 eexists;
    (split; [reflexivity|]); split.
  - rewrite Htrace, <- !app_assoc. reflexivity.
  - intros Hlate Hnone. rewrite (Hslow Hlate), Hnone in Hresult. discriminate.
  - rewrite Htrace, <- !app_assoc. reflexivity.
  - reflexivity.
Qed.

(** C9, as amended.  On every download, after the click the script waits a
    fixed 10000 milliseconds, closes the page and opens the expected
    archive path, without looking at the file system in between; when the
    transfer takes longer than that and nothing is at the path, the download
    step answers [null]. *)
Theorem C9_download_waits_fixed_delay :
  forall (E : env) (url subtitlesDir : jsstring) (w : world)
         (name : jsstring) (content : node) (ms : N),
    download (site E) url = Transfer name content ms ->
    let filePath := path_join E subtitlesDir (after_last 47 url ++ lit ".zip") in
    trace (snd (downloadSubtitles E url subtitlesDir w))
      = trace w ++ [EvGotoDownload url; EvClick url; EvWaitForTimeout 10000;
                    EvClosePage; EvOpenZip filePath] /\
    ((10000 < ms)%N -> fs w filePath = None ->
     fst (downloadSubtitles E url subtitlesDir w) = Ok None).
Proof.
  intros E url subtitlesDir w name content ms Hdl filePath.
  destruct (downloadSubtitles_transfer E url subtitlesDir w Hdl)
    as (r & w' & -> & Htrace & Hlate).
  split; assumption.
Qed.

(* ================================================================== *)
(** ** The page loop never runs out of fuel *)
(* ================================================================== *)

Lemma fuelled_ret {A} (a : A) : fuelled (ret a).
Proof. intros w. discriminate. Qed.

Lemma fuelled_emit (e : event) : fuelled (emit e).
Proof. intros w. discriminate. Qed.

Lemma fuelled_throw {A} (e : exn) : e <> OutOfFuel -> fuelled (@throw A e).
Proof. intros He w. cbn. congruence. Qed.

Lemma fuelled_bind {A B} (m : M A) (f : A -> M B) :
  fuelled m -> (forall a, fuelled (f a)) -> fuelled (bind m f).
Proof.
  intros Hm Hf w. unfold bind. specialize (Hm w).
  destruct (m w) as [[a|e] w']; [apply Hf|].
  cbn [fst] in *. congruence.
Qed.

Lemma fuelled_try_catch {A} (m : M A) (h : exn -> M A) :
  (forall e, fuelled (h e)) -> fuelled (try_catch m h).
Proof.
  intros Hh w. unfold try_catch.
  destruct (m w) as [[a|e] w']; [discriminate|apply Hh].
Qed.

Ltac fuelled_step :=
  match goal with
  | |- fuelled (ret _) => apply fuelled_ret
  | |- fuelled (emit _) => apply fuelled_emit
  | |- fuelled (throw _) => apply fuelled_throw; discriminate
  | |- fuelled (bind _ _) => apply fuelled_bind; [|intros]
  | |- fuelled (try_catch _ _) => apply fuelled_try_catch; intros
  | |- fuelled (eval_selector ?x) => destruct x; cbn [eval_selector]
  | |- fuelled (match ?x with _ => _ end) => destruct x
  end.

Lemma fuelled_find_english (rows : list row) : fuelled (find_english rows).
Proof.
  induction rows as [|r rows IH]; cbn [find_english]; repeat fuelled_step.
  exact IH.
Qed.

Lemma fuelled_getEnglishSubtitleLink (E : env) (movieLink : jsstring) :
  fuelled (getEnglishSubtitleLink E movieLink).
Proof.
  unfold getEnglishSubtitleLink. repeat fuelled_step.
  apply fuelled_find_english.
Qed.

Lemma fuelled_startDownload (E : env) (url : jsstring) :
  fuelled (startDownload E url).
Proof. unfold startDownload. repeat fuelled_step. Qed.

Lemma fuelled_chunk_rows (movieName data : jsstring) :
  fuelled (Chunked.chunk_rows movieName data).
Proof. unfold Chunked.chunk_rows. repeat fuelled_step. Qed.

Lemma fuelled_Chunked_listing_loop (E : env) (movieList : list listing) :
  forall n i movieIndex movies,
    fuelled (Chunked.listing_loop E movieList n i movieIndex movies).
Proof.
  induction n as [|n IH]; intros i movieIndex movies;
    cbn [Chunked.listing_loop]; [apply fuelled_ret|].
  cbv zeta.
  repeat first
    [ apply IH
    | apply fuelled_getEnglishSubtitleLink
    | apply fuelled_startDownload
    | apply fuelled_chunk_rows
    | fuelled_step ].
Qed.

Lemma fuelled_Index_listing_loop (E : env) (movieList : list listing) :
  forall n i movieIndex movies,
    fuelled (Index.listing_loop E movieList n i movieIndex movies).
Proof.
  induction n as [|n IH]; intros i movieIndex movies;
    cbn [Index.listing_loop]; [apply fuelled_ret|].
  cbv zeta.
  repeat first
    [ apply IH
    | apply fuelled_getEnglishSubtitleLink
    | apply fuelled_startDownload
    | fuelled_step ].
Qed.

Lemma fuelled_Chunked_getMoviesList (E : env) (page startIndex : nat) :
  fuelled (Chunked.getMoviesList E page startIndex).
Proof.
  unfold Chunked.getMoviesList.
  repeat first [ apply fuelled_Chunked_listing_loop | fuelled_step ].
Qed.

Lemma fuelled_Index_getMoviesList (E : env) (page startIndex : nat) :
  fuelled (Index.getMoviesList E page startIndex).
Proof.
  unfold Index.getMoviesList.
  repeat first [ apply fuelled_Index_listing_loop | fuelled_step ].
Qed.

(** Every turn of the page loop that does not end it adds at least one
    record to [movieCount], and the loop stops above [MAX_MOVIES]. *)
Lemma fuelled_page_loop (E : env)
    (getMoviesList : nat -> nat -> M (option (list record))) :
  (forall page startIndex, fuelled (getMoviesList page startIndex)) ->
  forall fuel page startIndex movieCount movies,
    1 <= fuel ->
    MAX_MOVIES E + 2 <= fuel + movieCount ->
    fuelled (page_loop E getMoviesList fuel page startIndex movieCount movies).
Proof.
  intros Hget. induction fuel as [|fuel IH];
    intros page startIndex movieCount movies Hpos Hfuel; [lia|].
  cbn [page_loop].
  destruct (movieCount <=? MAX_MOVIES E) eqn:Hcap; [|apply fuelled_ret].
  apply Nat.leb_le in Hcap.
  apply fuelled_bind; [apply Hget|]. intros [[|r l]|].
  - apply fuelled_ret.
  - apply IH; cbn [List.length]; lia.
  - apply fuelled_throw. discriminate.
Qed.

Lemma fuelled_scrapeMovies_with (E : env)
    (getMoviesList : nat -> nat -> M (option (list record))) :
  (forall page startIndex, fuelled (getMoviesList page startIndex)) ->
  fuelled (scrapeMovies_with E getMoviesList).
Proof.
  intros Hget. unfold scrapeMovies_with.
  apply fuelled_bind; [apply fuelled_page_loop; auto; lia|].
  intros movies. apply fuelled_try_catch. intros e. apply fuelled_ret.
Qed.

(** Both scripts end, with a result or with a JavaScript exception: the
    fuel given to the page loop is never used up. *)
Lemma scrapeMovies_fuel (E : env) (w : world) :
  fst (Chunked.scrapeMovies E w) <> Throw OutOfFuel /\
  fst (Index.scrapeMovies E w) <> Throw OutOfFuel.
Proof.
  split.
  - apply fuelled_scrapeMovies_with. apply fuelled_Chunked_getMoviesList.
  - apply fuelled_scrapeMovies_with. apply fuelled_Index_getMoviesList.
Qed.

(* ================================================================== *)
(** ** What the listing loops read and announce *)
(* ================================================================== *)

Section Adds.

Variable P : event -> Prop.

Lemma adds_ret {A} (a : A) : adds P (ret a).
Proof. intros w. exists []. split; [symmetry; apply app_nil_r|constructor]. Qed.

Lemma adds_throw {A} (e : exn) : adds P (@throw A e).
Proof. intros w. exists []. split; [symmetry; apply app_nil_r|constructor]. Qed.

Lemma adds_emit (e : event) : P e -> adds P (emit e).
Proof. intros He w. exists [e]. split; [reflexivity|now constructor]. Qed.

Lemma adds_bind {A B} (m : M A) (f : A -> M B) :
  adds P m -> (forall a, adds P (f a)) -> adds P (bind m f).
Proof.
  intros Hm Hf w. unfold bind. destruct (Hm w) as (evs & Htrace & Hevs).
  destruct (m w) as [[a|e] w1]; cbn [snd] in *.
  - destruct (Hf a w1) as (evs' & Htrace' & Hevs').
    exists (evs ++ evs'). split.
    + now rewrite Htrace', Htrace, app_assoc.
    + now apply Forall_app.
  - exists evs. auto.
Qed.

Lemma adds_try_catch {A} (m : M A) (h : exn -> M A) :
  adds P m -> (forall e, adds P (h e)) -> adds P (try_catch m h).
Proof.
  intros Hm Hh w. unfold try_catch. destruct (Hm w) as (evs & Htrace & Hevs).
  destruct (m w) as [[a|e] w1]; cbn [snd] in *.
  - exists evs. auto.
  - destruct (Hh e w1) as (evs' & Htrace' & Hevs').
    exists (evs ++ evs'). split.
    + now rewrite Htrace', Htrace, app_assoc.
    + now apply Forall_app.
Qed.

Hypothesis helpers : forall e, helper_event e = true -> P e.

Lemma adds_existsSync (path : jsstring) : adds P (existsSync path).
Proof.
  intros w. eexists. split; [reflexivity|].
  constructor; [now apply helpers|constructor].
Qed.

Lemma adds_mkdirSync (E : env) (path : jsstring) : adds P (mkdirSync E path).
Proof.
  intros w. exists []. split; [|constructor]. rewrite app_nil_r.
  unfold mkdirSync. destruct (fs w path); [reflexivity|].
  destruct (fs w (dirname E path)) as [[| |]|]; reflexivity.
Qed.

Lemma adds_extractSubtitles (E : env) (filePath dir : jsstring) :
  adds P (extractSubtitles E filePath dir).
Proof.
  intros w. eexists. split; [apply extractSubtitles_trace|].
  constructor; [now apply helpers|constructor].
Qed.

Lemma adds_waitForTimeout (E : env) (delay : N) (dir name : jsstring)
    (content : node) (ms : N) :
  adds P (waitForTimeout E delay dir name content ms).
Proof.
  unfold waitForTimeout. apply adds_bind.
  - apply adds_emit. now apply helpers.
  - intros _ w. exists []. split; [|constructor]. rewrite app_nil_r.
    destruct (ms <=? delay)%N; [|reflexivity].
    destruct (fs w (path_join E dir name)); [reflexivity|].
    destruct (fs w dir) as [[| |]|]; reflexivity.
Qed.

Ltac adds_step :=
  match goal with
  | |- adds _ (ret _) => apply adds_ret
  | |- adds _ (throw _) => apply adds_throw
  | |- adds _ (emit _) => apply adds_emit; apply helpers; reflexivity
  | |- adds _ (existsSync _) => apply adds_existsSync
  | |- adds _ (mkdirSync _ _) => apply adds_mkdirSync
  | |- adds _ (extractSubtitles _ _ _) => apply adds_extractSubtitles
  | |- adds _ (waitForTimeout _ _ _ _ _ _) => apply adds_waitForTimeout
  | |- adds _ (bind _ _) => apply adds_bind; [|intros]
  | |- adds _ (try_catch _ _) => apply adds_try_catch; [|intros]
  | |- adds _ (eval_selector ?x) => destruct x; cbn [eval_selector]
  | |- adds _ (match ?x with _ => _ end) => destruct x
  end.

Lemma adds_find_english (rows : list row) : adds P (find_english rows).
Proof.
  induction rows as [|r rows IH]; cbn [find_english]; repeat adds_step.
  exact IH.
Qed.

Lemma adds_getEnglishSubtitleLink (E : env) (movieLink : jsstring) :
  adds P (getEnglishSubtitleLink E movieLink).
Proof.
  unfold getEnglishSubtitleLink. repeat adds_step. apply adds_find_english.
Qed.

Lemma adds_downloadSubtitles (E : env) (url dir : jsstring) :
  adds P (downloadSubtitles E url dir).
Proof. unfold downloadSubtitles. cbv zeta. repeat adds_step. Qed.

Lemma adds_startDownload (E : env) (url : jsstring) :
  adds P (startDownload E url).
Proof.
  unfold startDownload. cbv zeta.
  repeat first [ apply adds_downloadSubtitles | adds_step ].
Qed.

Lemma adds_chunk_rows (movieName data : jsstring) :
  adds P (Chunked.chunk_rows movieName data).
Proof. unfold Chunked.chunk_rows. repeat adds_step. Qed.

End Adds.

Lemma within_bounds_helpers (E : env) (e : event) :
  helper_event e = true -> within_bounds E e.
Proof. destruct e; cbn; intros; congruence || exact I. Qed.

Lemma within_cap_helpers (E : env) (e : event) :
  helper_event e = true -> within_cap E e.
Proof. destruct e; cbn; intros; congruence || exact I. Qed.

(** [part_000]: the listing loop reads no element beyond the last one and
    announces no index above the cap. *)
Lemma Chunked_listing_loop_within_bounds (E : env) (movieList : list listing) :
  forall n i movieIndex movies,
    i + n = List.length movieList ->
    adds (within_bounds E) (Chunked.listing_loop E movieList n i movieIndex movies).
Proof.
  induction n as [|n IH]; intros i movieIndex movies Hlen;
    cbn [Chunked.listing_loop]; [apply adds_ret|].
  cbv zeta. destruct (movieIndex <=? MAX_MOVIES E) eqn:Hcap; [|apply adds_ret].
  apply Nat.leb_le in Hcap.
  assert (Hfound : is_some (nth_error movieList i) = true).
  { destruct (nth_error movieList i) eqn:Hnth; [reflexivity|].
    apply nth_error_None in Hnth. lia. }
  apply adds_bind; [apply adds_emit; exact Hfound|]. intros _.
  repeat first
    [ apply IH; lia
    | apply adds_getEnglishSubtitleLink; apply within_bounds_helpers
    | apply adds_startDownload; apply within_bounds_helpers
    | apply adds_chunk_rows
    | apply adds_emit; exact Hcap
    | apply adds_ret
    | apply adds_throw
    | apply adds_bind; [|intros]
    | match goal with
      | |- adds _ (eval_selector ?x) => destruct x; cbn [eval_selector]
      | |- adds _ (match ?x with _ => _ end) => destruct x
      end ].
Qed.

(** [index.js]: the listing loop announces no index above the cap. *)
Lemma Index_listing_loop_within_cap (E : env) (movieList : list listing) :
  forall n i movieIndex movies,
    adds (within_cap E) (Index.listing_loop E movieList n i movieIndex movies).
Proof.
  induction n as [|n IH]; intros i movieIndex movies;
    cbn [Index.listing_loop]; [apply adds_ret|].
  cbv zeta. destruct (movieIndex <=? MAX_MOVIES E) eqn:Hcap; [|apply adds_ret].
  apply Nat.leb_le in Hcap.
  apply adds_bind; [apply adds_emit; exact I|]. intros _.
  repeat first
    [ apply IH
    | apply adds_getEnglishSubtitleLink; apply within_cap_helpers
    | apply adds_startDownload; apply within_cap_helpers
    | apply adds_emit; exact Hcap
    | apply adds_ret
    | apply adds_throw
    | apply adds_bind; [|intros]
    | match goal with
      | |- adds _ (eval_selector ?x) => destruct x; cbn [eval_selector]
      | |- adds _ (match ?x with _ => _ end) => destruct x
      end ].
Qed.

Lemma adds_page_loop (P : event -> Prop) (E : env)
    (getMoviesList : nat -> nat -> M (option (list record))) :
  (forall page startIndex, adds P (getMoviesList page startIndex)) ->
  forall fuel page startIndex movieCount movies,
    adds P (page_loop E getMoviesList fuel page startIndex movieCount movies).
Proof.
  intros Hget. induction fuel as [|fuel IH];
    intros page startIndex movieCount movies; cbn [page_loop];
    [apply adds_throw|].
  destruct (movieCount <=? MAX_MOVIES E); [|apply adds_ret].
  apply adds_bind; [apply Hget|]. intros [[|r l]|].
  - apply adds_ret.
  - apply IH.
  - apply adds_throw.
Qed.

(** In every run of [part_000] each element the listing loops read is one of
    the listings found on the page, and each index announced, hence each
    listing recorded, is within the cap. *)
Lemma Chunked_scrapeMovies_within_bounds (E : env) :
  adds (within_bounds E) (Chunked.scrapeMovies E).
Proof.
  unfold Chunked.scrapeMovies, scrapeMovies_with.
  apply adds_bind.
  - apply adds_page_loop. intros page startIndex.
    unfold Chunked.getMoviesList.
    apply adds_bind; [apply adds_emit; exact I|]. intros _.
    destruct (browse (site E) page) as [[|movie rest]|];
      [apply adds_ret| |apply adds_throw].
    apply adds_bind; [|intros; apply adds_ret].
    now apply Chunked_listing_loop_within_bounds.
  - intros movies. apply adds_try_catch; [|intros; apply adds_ret].
    apply adds_emit. exact I.
Qed.

(** In every run of [index.js] each index announced is within the cap. *)
Lemma Index_scrapeMovies_within_cap (E : env) :
  adds (within_cap E) (Index.scrapeMovies E).
Proof.
  unfold Index.scrapeMovies, scrapeMovies_with.
  apply adds_bind.
  - apply adds_page_loop. intros page startIndex.
    unfold Index.getMoviesList.
    apply adds_bind; [apply adds_emit; exact I|]. intros _.
    destruct (browse (site E) page) as [[|movie rest]|];
      [apply adds_ret| |apply adds_throw].
    apply adds_bind; [|intros; apply adds_ret].
    apply Index_listing_loop_within_cap.
  - intros movies. apply adds_try_catch; [|intros; apply adds_ret].
    apply adds_emit. exact I.
Qed.

(* ================================================================== *)
(** ** The [id] column of [index.js] *)
(* ================================================================== *)

(** The rows a listing loop of [index.js] adds carry the indices from
    [movieIndex] on, one after the other. *)
Lemma Index_listing_loop_ids (E : env) (movieList : list listing) :
  forall n i movieIndex movies w out w',
    Index.listing_loop E movieList n i movieIndex movies w = (Ok out, w') ->
    exists added,
      out = movies ++ added /\
      map row_id added = seq movieIndex (List.length added).
Proof.
  induction n as [|n IH]; intros i movieIndex movies w out w' Hrun;
    cbn [Index.listing_loop] in Hrun.
  - injection Hrun as <- _. exists []. split; [symmetry; apply app_nil_r|reflexivity].
  - cbv zeta in Hrun.
    destruct (movieIndex <=? MAX_MOVIES E).
    2:{ injection Hrun as <- _. exists [].
        split; [symmetry; apply app_nil_r|reflexivity]. }
    unfold bind at 1 in Hrun. unfold emit at 1 in Hrun.
    destruct (nth_error movieList i) as [movie|]; [|now apply IH in Hrun].
    unfold bind at 1 in Hrun.
    destruct (heading movie) as [movieName|]; [|discriminate Hrun].
    cbn [eval_selector] in Hrun. unfold ret at 1 in Hrun.
    unfold bind at 1 in Hrun.
    destruct (href movie) as [movieLink|]; [|discriminate Hrun].
    cbn [eval_selector] in Hrun. unfold ret at 1 in Hrun.
    destruct (negb (truthy (Some movieLink))); [now apply IH in Hrun|].
    unfold bind at 1 in Hrun.
    destruct (getEnglishSubtitleLink E movieLink _) as [[[url|]|e] w1];
      [|now apply IH in Hrun|discriminate Hrun].
    unfold bind at 1 in Hrun.
    destruct (startDownload E url w1) as [[[data|]|e] w2];
      [|discriminate Hrun|discriminate Hrun].
    unfold bind at 1 in Hrun. unfold emit at 1 in Hrun.
    apply IH in Hrun. destruct Hrun as (added & -> & Hids).
    eexists (_ :: added). split.
    + rewrite <- app_assoc. reflexivity.
    + cbn [map row_id List.length seq]. rewrite Hids.
      now rewrite Nat.add_1_r.
Qed.

Lemma Index_page_loop_ids (E : env) :
  forall fuel page startIndex movieCount movies w out w',
    page_loop E (Index.getMoviesList E) fuel page startIndex movieCount movies w
      = (Ok out, w') ->
    startIndex = 1 + List.length movies ->
    map row_id movies = seq 1 (List.length movies) ->
    map row_id out = seq 1 (List.length out).
Proof.
  induction fuel as [|fuel IH];
    intros page startIndex movieCount movies w out w' Hrun Hstart Hids;
    cbn [page_loop] in Hrun; [discriminate Hrun|].
  destruct (movieCount <=? MAX_MOVIES E).
  2:{ injection Hrun as <- _. assumption. }
  unfold bind at 1 in Hrun.
  destruct (Index.getMoviesList E page startIndex w) as [[[[|r l]|]|e] w1] eqn:Hget;
    try discriminate Hrun.
  - injection Hrun as <- _. assumption.
  - unfold Index.getMoviesList in Hget.
    unfold bind at 1 in Hget. unfold emit at 1 in Hget.
    destruct (browse (site E) page) as [[|movie rest]|]; try discriminate Hget.
    unfold bind at 1 in Hget.
    destruct (Index.listing_loop E _ _ _ _ _ _) as [[found|e] w2] eqn:Hloop;
      [|discriminate Hget].
    injection Hget as Hfound _.
    apply Index_listing_loop_ids in Hloop.
    destruct Hloop as (added & Hadded & Hadded_ids).
    cbn [app] in Hadded. subst found. subst added.
    apply IH in Hrun; [assumption| |].
    + rewrite length_app. lia.
    + rewrite map_app, length_app, seq_app, Hids, Hadded_ids, Hstart.
      reflexivity.
Qed.

(** [index.js]: in every run that gets to write the CSV file, the [id]s of
    the rows written are 1, 2, 3, ... without a gap. *)
Lemma Index_ids_without_gap (E : env) (w w' : world) :
  Index.scrapeMovies E w = (Ok tt, w') ->
  exists rows w1,
    w' = logged (EvWriteCsv rows) w1 /\
    map row_id rows = seq 1 (List.length rows).
Proof.
  unfold Index.scrapeMovies, scrapeMovies_with. unfold bind at 1.
  destruct (page_loop E (Index.getMoviesList E) _ _ _ _ _ w)
    as [[rows|e] w1] eqn:Hloop; [|discriminate].
  intros Hrun. exists rows, w1. split.
  - unfold try_catch, writeMoviesToCsv, emit in Hrun. now injection Hrun as <-.
  - now apply Index_page_loop_ids in Hloop.
Qed.

(* ================================================================== *)
(** ** The claims on sample sites *)
(* ================================================================== *)

(** The example of the specification: 205 letters A give windows of 102,
    102 and 1 code units, numbered 1, 2, 3. *)
Example chunk_rows_205 :
  Chunked.chunk_rows (lit "Movie A") Sample.long_text Sample.empty_world
    = (Ok (Sample.long_rows "Movie A"), Sample.empty_world).
Proof. vm_compute. reflexivity. Qed.

(** A line separator U+2028 stays in the normalized text and is matched by
    no window: three code units give two windows. *)
Example separator_splits_windows :
  normalize [97; 8232; 98]%N = [97; 8232; 98]%N /\
  Chunked.subtitleChunks [97; 8232; 98]%N = Some [[97%N]; [98%N]] /\
  ceil_div 3 102 = 1.
Proof. repeat split; vm_compute; reflexivity. Qed.

(** A complete run of the chunked script over two listings. *)
Example chunked_run_two_listings :
  Sample.outcome
    (Chunked.scrapeMovies
       (Sample.env_of Chunked.MAX_MOVIES_source
          (Sample.site_ab (Sample.archive Sample.cue)
                          (Sample.archive Sample.long_text)))
       Sample.empty_world)
  = (Ok tt, [1; 2],
     [ ChunkRow (lit "Movie A") (lit "Hello there") (lit "part 1")
         :: Sample.long_rows "Movie B" ]).
Proof. vm_compute. reflexivity. Qed.

(** C1 as stated fails: the window of an ordinary cue ends in the space that
    stood for its last line break, the row carries the trimmed window, and
    the texts of the rows no longer concatenate to the normalized text. *)
Lemma C1_counterexample_trimmed_window :
  normalize Sample.cue = lit "Hello there " /\
  Chunked.chunk_rows (lit "Movie A") Sample.cue Sample.empty_world
    = (Ok [ChunkRow (lit "Movie A") (lit "Hello there") (lit "part 1")],
       Sample.empty_world) /\
  List.concat
    (map subtitle_of [ChunkRow (lit "Movie A") (lit "Hello there") (lit "part 1")])
    <> normalize Sample.cue.
Proof.
  split; [vm_compute; reflexivity|].
  split; [vm_compute; reflexivity|].
  vm_compute. discriminate.
Qed.

(** The theorem on the sample cue. *)
Lemma C1_witness :
  Forall (fun c => is_separator c = false) Sample.cue /\
  normalize Sample.cue <> [] /\
  exists windows,
    Chunked.subtitleChunks Sample.cue = Some windows /\
    List.length windows = ceil_div (List.length (normalize Sample.cue)) 102 /\
    Forall (fun win => List.length win <= 102) windows /\
    List.concat windows = normalize Sample.cue /\
    exists rows,
      Chunked.chunk_rows (lit "Movie A") Sample.cue Sample.empty_world
        = (Ok rows, Sample.empty_world) /\
      List.length rows = List.length windows /\
      forall k win,
        nth_error windows k = Some win ->
        nth_error rows k
          = Some (ChunkRow (lit "Movie A") (trim win)
                    (lit "part " ++ show_nat (k + 1))) /\
        List.length (trim win) <= 102.
Proof.
  assert (H1 : Forall (fun c => is_separator c = false) Sample.cue)
    by (unfold Sample.cue; cbn [lit]; repeat constructor).
  assert (H2 : normalize Sample.cue <> []) by (vm_compute; discriminate).
  split; [exact H1|]. split; [exact H2|].
  exact (C1_windows_partition_normalized_text (lit "Movie A")
           Sample.empty_world H1 H2).
Defined.

(** C2 on both scripts.  In [index.js] the download page of the archive of
    listing A cannot be reached: [startDownload] catches the failure and
    answers [null], and [downloadData.replace] then raises a [TypeError]
    that ends the run without a CSV file, where [part_000] skips listing A
    and records listing B.  In [part_000] the detail page of listing A
    cannot be loaded: the rejection of [goto] in the resolver is caught
    nowhere and ends the run without a CSV file, although listing B is in
    order. *)
Theorem C2_failure_of_one_listing_ends_run :
  let download_fails := Sample.site_a_download_fails (Sample.archive Sample.long_text) in
  let unreachable := Sample.site_a_unreachable (Sample.archive Sample.long_text) in
  download download_fails (lit Sample.sub_a) = GotoFails /\
  Sample.outcome
    (Index.scrapeMovies (Sample.env_of Index.MAX_MOVIES_source download_fails)
       Sample.empty_world)
    = (Throw TypeError, [1], []) /\
  Sample.outcome
    (Chunked.scrapeMovies (Sample.env_of Chunked.MAX_MOVIES_source download_fails)
       Sample.empty_world)
    = (Ok tt, [1], [Sample.long_rows "Movie B"]) /\
  browse unreachable 1 = Some Sample.page_ab /\
  detail unreachable (lit Sample.link_a) = None /\
  Sample.outcome
    (Chunked.scrapeMovies (Sample.env_of Chunked.MAX_MOVIES_source unreachable)
       Sample.empty_world)
    = (Throw NavigationError, [], []).
Proof.
  cbv zeta. split; [reflexivity|].
  split; [vm_compute; reflexivity|]. split; [vm_compute; reflexivity|].
  split; [reflexivity|]. split; vm_compute; reflexivity.
Qed.

(** Listing A of the sample page, whose archive holds no subtitle
    document, is skipped by [part_000]. *)
Example failed_download_is_skipped_on_sample :
  let E := Sample.env_of Chunked.MAX_MOVIES_source
             (Sample.site_ab Sample.archive_without_srt
                             (Sample.archive Sample.long_text)) in
  reads_listing E Sample.page_ab 0 1 (lit "Movie A") (lit Sample.link_a) /\
  getEnglishSubtitleLink E (lit Sample.link_a)
      (logged (EvElement 0 true) Sample.on_page_1)
    = (Ok (Some (lit Sample.sub_a)), Sample.resolved_a) /\
  stage_failure E (lit Sample.sub_a) Sample.resolved_a /\
  exists w2,
    startDownload E (lit Sample.sub_a) Sample.resolved_a = (Ok None, w2) /\
    Chunked.listing_loop E Sample.page_ab 2 0 1 [] Sample.on_page_1
      = Chunked.listing_loop E Sample.page_ab 1 1 1 [] w2.
Proof.
  intros E.
  assert (H1 : reads_listing E Sample.page_ab 0 1 (lit "Movie A")
                 (lit Sample.link_a)).
  { split; [vm_compute; lia|].
    exists (Sample.movie "Movie A" Sample.link_a).
    repeat split; try reflexivity; vm_compute; discriminate. }
  assert (H2 : getEnglishSubtitleLink E (lit Sample.link_a)
                 (logged (EvElement 0 true) Sample.on_page_1)
               = (Ok (Some (lit Sample.sub_a)), Sample.resolved_a))
    by (vm_compute; reflexivity).
  assert (H3 : stage_failure E (lit Sample.sub_a) Sample.resolved_a).
  { apply download_without_subtitle
      with (entries := [ {| entryName := lit "info.nfo";
                            getData := lit "release notes" |};
                         {| entryName := lit "readme.txt";
                            getData := lit "read me" |} ])
           (ms := 900%N).
    - repeat split; vm_compute; reflexivity.
    - vm_compute. reflexivity.
    - vm_compute. reflexivity. }
  assert (H4 : lit Sample.sub_a <> []) by (vm_compute; discriminate).
  split; [exact H1|]. split; [exact H2|]. split; [exact H3|].
  exact (@failed_download_or_extraction_is_skipped E Sample.page_ab 1 0 1 []
           Sample.on_page_1 Sample.resolved_a (lit "Movie A")
           (lit Sample.link_a) (lit Sample.sub_a) H1 H2 H4 H3).
Defined.

(** C3 on [index.js]: on a page with one listing the loop test
    [i <= movieList.length] lets [i] reach 1, and [movieList[1]], one past
    the last listing, is read (it is [undefined] and the guard skips it).
    The loop of [part_000], with [<], reads element 0 only. *)
Theorem C3_index_reads_past_last_listing :
  let E := Sample.env_of Index.MAX_MOVIES_source
             (Sample.site_a (Sample.archive Sample.cue)) in
  browse (site E) 1 = Some [Sample.movie "Movie A" Sample.link_a] /\
  elements_read (trace (snd (Index.getMoviesList E 1 1 Sample.empty_world)))
    = [(0, true); (1, false)] /\
  elements_read (trace (snd (Chunked.getMoviesList E 1 1 Sample.empty_world)))
    = [(0, true)].
Proof.
  cbv zeta. split; [reflexivity|]. split; vm_compute; reflexivity.
Qed.

(** What the cap of [part_000] hides: [scrapeMovies] adds the number of
    rows, not of listings, to [startIndex].  Were the constant 3, listing A
    alone on page 1 with two rows would make listing B on page 2 movie 3
    after movie 1, where [index.js], with one row per listing, announces 1
    and 2. *)
Example chunked_index_jumps_under_larger_cap :
  let s := Sample.site_a_then_b (Sample.archive Sample.two_window_text)
                                (Sample.archive Sample.long_text) in
  Sample.outcome (Chunked.scrapeMovies (Sample.env_of 3 s) Sample.empty_world)
    = (Ok tt, [1; 3],
       [ [ ChunkRow (lit "Movie A") (repeat 65%N 102) (lit "part 1");
           ChunkRow (lit "Movie A") (repeat 65%N 1) (lit "part 2") ]
         ++ Sample.long_rows "Movie B" ]) /\
  movie_indices
    (trace (snd (Index.scrapeMovies (Sample.env_of 3 s) Sample.empty_world)))
    = [1; 2].
Proof.
  cbv zeta. split; vm_compute; reflexivity.
Qed.

(** With the cap of 2 that [part_000] sets, the same jump of [startIndex]
    to 3 makes the loop of page 2 end before its first turn: listing B is
    never processed although one listing only was recorded. *)
Example chunked_cap_reached_by_rows :
  let s := Sample.site_a_then_b (Sample.archive Sample.two_window_text)
                                (Sample.archive Sample.long_text) in
  let run := Chunked.scrapeMovies (Sample.env_of Chunked.MAX_MOVIES_source s)
               Sample.empty_world in
  fst run = Ok tt /\
  movie_indices (trace (snd run)) = [1] /\
  elements_read (trace (snd run)) = [(0, true)].
Proof.
  cbv zeta. repeat split; vm_compute; reflexivity.
Qed.

(** C5 on both scripts: the detail page of listing A has no subtitle table,
    [$] answers [null], [subtitlesTable.$$] raises a [TypeError] instead of
    the resolver answering [null], and the run ends without a CSV file
    although listing B is in order. *)
Theorem C5_absent_table_raises :
  let s := Sample.site_a_without_table (Sample.archive Sample.long_text) in
  let chunked := Sample.env_of Chunked.MAX_MOVIES_source s in
  let index := Sample.env_of Index.MAX_MOVIES_source s in
  detail s (lit Sample.link_a) = Some {| other_subs := None |} /\
  fst (getEnglishSubtitleLink chunked (lit Sample.link_a) Sample.empty_world)
    = Throw TypeError /\
  Sample.outcome (Chunked.scrapeMovies chunked Sample.empty_world)
    = (Throw TypeError, [], []) /\
  Sample.outcome (Index.scrapeMovies index Sample.empty_world)
    = (Throw TypeError, [], []).
Proof.
  cbv zeta. split; [reflexivity|]. repeat split; vm_compute; reflexivity.
Qed.

(** The example of the specification: French before English. *)
Example first_english_second_row :
  first_english
    [ {| sub_lang := Some (lit "French"); subtitle_download := Some (lit "a") |};
      {| sub_lang := Some (lit "English"); subtitle_download := Some (lit "b") |} ]
    = Some (lit "b") /\
  first_english
    [ {| sub_lang := Some (lit "French"); subtitle_download := Some (lit "a") |};
      {| sub_lang := Some (lit "english"); subtitle_download := Some (lit "c") |} ]
    = None /\
  first_english [] = None.
Proof. repeat split; vm_compute; reflexivity. Qed.

(** The resolver on the sample table: surrounding white space is trimmed
    off the label. *)
Example resolver_on_sample :
  let E := Sample.env_of Chunked.MAX_MOVIES_source
             (Sample.site_ab (Sample.archive Sample.cue)
                             (Sample.archive Sample.long_text)) in
  let rows :=
    [ {| sub_lang := Some (lit "French");
         subtitle_download := Some (lit "https://yts-subs.com/subtitles/french") |};
      {| sub_lang := Some (lit "  English ");
         subtitle_download := Some (lit Sample.sub_a) |} ] in
  reads_listing E Sample.page_ab 0 1 (lit "Movie A") (lit Sample.link_a) /\
  detail (site E) (lit Sample.link_a) = Some {| other_subs := Some rows |} /\
  Forall (fun r => sub_lang r <> None /\ subtitle_download r <> None) rows /\
  first_english rows = Some (lit Sample.sub_a) /\
  getEnglishSubtitleLink E (lit Sample.link_a)
      (logged (EvElement 0 true) Sample.on_page_1)
    = (Ok (first_english rows), Sample.resolved_a).
Proof.
  intros E rows.
  assert (H1 : reads_listing E Sample.page_ab 0 1 (lit "Movie A")
                 (lit Sample.link_a)).
  { split; [vm_compute; lia|].
    exists (Sample.movie "Movie A" Sample.link_a).
    repeat split; try reflexivity; vm_compute; discriminate. }
  assert (H2 : detail (site E) (lit Sample.link_a)
               = Some {| other_subs := Some rows |})
    by (vm_compute; reflexivity).
  assert (H3 : Forall (fun r => sub_lang r <> None /\ subtitle_download r <> None)
                 rows)
    by (repeat constructor; discriminate).
  split; [exact H1|]. split; [exact H2|]. split; [exact H3|].
  split; [vm_compute; reflexivity|].
  exact (proj1 (@resolver_first_english_row E Sample.page_ab 1 0 1 []
                  Sample.on_page_1 (lit "Movie A") (lit Sample.link_a) rows
                  H1 H2 H3)).
Defined.

(** C6, the original claim refuted: when the transfer of the first run is
    not over after the fixed wait, nothing is saved at the path, and a
    second run of the chunked script on the same disk transfers the same
    archive again. *)
Lemma C6_counterexample_second_transfer :
  let E := Sample.env_of Chunked.MAX_MOVIES_source
             (Sample.site_a_slow (Sample.archive Sample.cue)) in
  let first := Chunked.scrapeMovies E Sample.empty_world in
  let second := Chunked.scrapeMovies E {| fs := fs (snd first); trace := [] |} in
  filter is_transfer (trace (snd first))
    = [EvGotoDownload (lit Sample.sub_a); EvClick (lit Sample.sub_a)] /\
  fs (snd first) (lit Sample.path_a) = None /\
  filter is_transfer (trace (snd second))
    = [EvGotoDownload (lit Sample.sub_a); EvClick (lit Sample.sub_a)].
Proof.
  cbv zeta. repeat split; vm_compute; reflexivity.
Qed.

(** The theorem on the disk a first call has left: the transfer of the
    first call was saved at the path, the second call starts none and
    answers with the document of the archive. *)
Lemma C6_witness :
  let E := Sample.env_of Chunked.MAX_MOVIES_source
             (Sample.site_a (Sample.archive Sample.cue)) in
  let first := startDownload E (lit Sample.sub_a) Sample.empty_world in
  filePath_of E (lit Sample.sub_a) = lit Sample.path_a /\
  fs Sample.empty_world (lit Sample.path_a) = None /\
  filter is_transfer (trace (snd first))
    = [EvGotoDownload (lit Sample.sub_a); EvClick (lit Sample.sub_a)] /\
  fs (snd first) (filePath_of E (lit Sample.sub_a))
    = Some (Sample.archive Sample.cue) /\
  cached E (lit Sample.sub_a) (snd first) = true /\
  extraction_of E (movieFolder_of E (lit Sample.sub_a)) (fs (snd first))
      (fs (snd first) (filePath_of E (lit Sample.sub_a)))
    = Some Sample.cue /\
  exists w',
    startDownload E (lit Sample.sub_a) (snd first)
      = (Ok (extraction_of E (movieFolder_of E (lit Sample.sub_a))
               (fs (snd first))
               (fs (snd first) (filePath_of E (lit Sample.sub_a)))), w') /\
    trace w' = trace (snd first)
                 ++ [EvExistsSync (subtitlesDir_of E) true;
                     EvExistsSync (movieFolder_of E (lit Sample.sub_a)) true;
                     EvExistsSync (filePath_of E (lit Sample.sub_a)) true;
                     EvOpenZip (filePath_of E (lit Sample.sub_a))] /\
    filter is_transfer (trace w') = filter is_transfer (trace (snd first)) /\
    cached E (lit Sample.sub_a) w' = true.
Proof.
  intros E first.
  assert (H : cached E (lit Sample.sub_a) (snd first) = true)
    by (vm_compute; reflexivity).
  split; [vm_compute; reflexivity|]. split; [reflexivity|].
  split; [vm_compute; reflexivity|]. split; [vm_compute; reflexivity|].
  split; [exact H|]. split; [vm_compute; reflexivity|].
  exact (@C6_cache_hit_reuses_artifact E (lit Sample.sub_a) (snd first) H).
Defined.

(** C7 on [index.js]: the archive of listing A holds no [.srt] entry, the
    extraction is rejected, [startDownload] answers [null], and
    [downloadData.replace] raises a [TypeError] that ends the run without a
    CSV file.  On the same site [part_000] skips listing A and records
    listing B. *)
Theorem C7_index_archive_without_subtitle_ends_run :
  let s := Sample.site_ab Sample.archive_without_srt
                          (Sample.archive Sample.long_text) in
  subtitleEntry [ {| entryName := lit "info.nfo"; getData := lit "release notes" |};
                  {| entryName := lit "readme.txt"; getData := lit "read me" |} ]
    = None /\
  Sample.outcome
    (Index.scrapeMovies (Sample.env_of Index.MAX_MOVIES_source s)
       Sample.empty_world)
    = (Throw TypeError, [1], []) /\
  Sample.outcome
    (Chunked.scrapeMovies (Sample.env_of Chunked.MAX_MOVIES_source s)
       Sample.empty_world)
    = (Ok tt, [1], [Sample.long_rows "Movie B"]).
Proof.
  cbv zeta. split; [reflexivity|]. split; vm_compute; reflexivity.
Qed.

(** The example of the specification: the entry between [info.nfo] and
    [readme.txt]. *)
Example extraction_picks_movie_srt :
  let E := Sample.env_of Chunked.MAX_MOVIES_source
             (Sample.site_a (Sample.archive Sample.cue)) in
  document_of E (Some (Sample.archive Sample.cue)) = Some Sample.cue /\
  document_of E (Some Sample.archive_without_srt) = None.
Proof. cbv zeta. split; vm_compute; reflexivity. Qed.

(** C8 on both scripts: page 1 gives a record, page 2 has no listing,
    [getMoviesList] answers [null], [moviesList.length] raises a
    [TypeError], and the run ends without a CSV file. *)
Theorem C8_page_without_listings_ends_run :
  let s := Sample.site_a (Sample.archive Sample.cue) in
  let chunked := Sample.env_of Chunked.MAX_MOVIES_source s in
  let index := Sample.env_of Index.MAX_MOVIES_source s in
  browse s 2 = Some [] /\
  fst (Chunked.getMoviesList chunked 2 2 Sample.empty_world) = Ok None /\
  Sample.outcome (Chunked.scrapeMovies chunked Sample.empty_world)
    = (Throw TypeError, [1], []) /\
  fst (Index.getMoviesList index 2 2 Sample.empty_world) = Ok None /\
  Sample.outcome (Index.scrapeMovies index Sample.empty_world)
    = (Throw TypeError, [1], []).
Proof.
  cbv zeta. split; [reflexivity|]. repeat split; vm_compute; reflexivity.
Qed.

(** C9 as stated fails: on a cache miss the only thing between the click and
    the opening of the archive is a wait of 10000 ms, the file system is not
    looked at, and a transfer of 10001 ms is lost: the archive is opened
    before it is there and the listing yields [null]. *)
Lemma C9_counterexample_fixed_delay :
  let E := Sample.env_of Chunked.MAX_MOVIES_source
             (Sample.site_a_slow (Sample.archive Sample.cue)) in
  let run := startDownload E (lit Sample.sub_a) Sample.empty_world in
  download (site E) (lit Sample.sub_a)
    = Transfer (lit Sample.zip_a) (Sample.archive Sample.cue) 10001 /\
  fst run = Ok None /\
  trace (snd run)
    = [ EvExistsSync (lit Sample.subtitles_dir) false;
        EvExistsSync (lit Sample.folder_a) false;
        EvExistsSync (lit Sample.path_a) false;
        EvGotoDownload (lit Sample.sub_a);
        EvClick (lit Sample.sub_a);
        EvWaitForTimeout 10000;
        EvClosePage;
        EvOpenZip (lit Sample.path_a);
        EvOpenZip (lit Sample.path_a) ].
Proof.
  cbv zeta. repeat split; vm_compute; reflexivity.
Qed.

(** The theorem on the slow transfer of the sample site. *)
Lemma C9_witness :
  let E := Sample.env_of Chunked.MAX_MOVIES_source
             (Sample.site_a_slow (Sample.archive Sample.cue)) in
  let filePath :=
    path_join E (lit Sample.folder_a)
      (after_last 47 (lit Sample.sub_a) ++ lit ".zip") in
  download (site E) (lit Sample.sub_a)
    = Transfer (lit Sample.zip_a) (Sample.archive Sample.cue) 10001 /\
  filePath = lit Sample.path_a /\
  trace (snd (downloadSubtitles E (lit Sample.sub_a) (lit Sample.folder_a)
                Sample.empty_world))
    = trace Sample.empty_world
        ++ [EvGotoDownload (lit Sample.sub_a); EvClick (lit Sample.sub_a);
            EvWaitForTimeout 10000; EvClosePage; EvOpenZip filePath] /\
  fst (downloadSubtitles E (lit Sample.sub_a) (lit Sample.folder_a)
         Sample.empty_world) = Ok None.
Proof.
  intros E filePath.
  assert (H : download (site E) (lit Sample.sub_a)
              = Transfer (lit Sample.zip_a) (Sample.archive Sample.cue) 10001)
    by (vm_compute; reflexivity).
  destruct (@C9_download_waits_fixed_delay E (lit Sample.sub_a)
              (lit Sample.folder_a) Sample.empty_world _ _ _ H)
    as [Htrace Hlate].
  split; [exact H|]. split; [vm_compute; reflexivity|].
  split; [exact Htrace|].
  apply Hlate; [reflexivity|reflexivity].
Defined.

(** C10 as stated fails for the empty document: [!downloadData] holds for
    the empty string, listing A is skipped, and the run goes on to record
    listing B and writes the CSV file. *)
Lemma C10_counterexample_empty_document :
  let E := Sample.env_of Chunked.MAX_MOVIES_source
             (Sample.site_ab (Sample.archive []) (Sample.archive Sample.long_text)) in
  document_of E (Some (Sample.archive [])) = Some [] /\
  Sample.outcome (Chunked.scrapeMovies E Sample.empty_world)
    = (Ok tt, [1], [Sample.long_rows "Movie B"]).
Proof.
  cbv zeta. split; vm_compute; reflexivity.
Qed.

(** The theorem on a document made of one italic tag: listing A of page 1
    ends the run. *)
Lemma C10_witness :
  let E := Sample.env_of Chunked.MAX_MOVIES_source
             (Sample.site_ab (Sample.archive (lit "<i>"))
                             (Sample.archive Sample.long_text)) in
  let w2 := snd (startDownload E (lit Sample.sub_a) Sample.resolved_a) in
  reads_listing E Sample.page_ab 0 1 (lit "Movie A") (lit Sample.link_a) /\
  startDownload E (lit Sample.sub_a) Sample.resolved_a = (Ok (Some (lit "<i>")), w2) /\
  normalize (lit "<i>") = [] /\
  Chunked.subtitleChunks (lit "<i>") = None /\
  Chunked.scrapeMovies E Sample.empty_world
    = (Throw TypeError, logged (EvMovie 1) w2).
Proof.
  intros E w2.
  assert (H1 : reads_listing E Sample.page_ab 0 1 (lit "Movie A")
                 (lit Sample.link_a)).
  { split; [vm_compute; lia|].
    exists (Sample.movie "Movie A" Sample.link_a).
    repeat split; try reflexivity; vm_compute; discriminate. }
  assert (H2 : getEnglishSubtitleLink E (lit Sample.link_a)
                 (logged (EvElement 0 true) Sample.on_page_1)
               = (Ok (Some (lit Sample.sub_a)), Sample.resolved_a))
    by (vm_compute; reflexivity).
  assert (H3 : lit Sample.sub_a <> []) by (vm_compute; discriminate).
  assert (H4 : startDownload E (lit Sample.sub_a) Sample.resolved_a
               = (Ok (Some (lit "<i>")), w2)).
  { unfold w2.
    destruct (startDownload E (lit Sample.sub_a) Sample.resolved_a)
      as [r w'] eqn:Hrun.
    assert (Hr : fst (startDownload E (lit Sample.sub_a) Sample.resolved_a)
                 = Ok (Some (lit "<i>"))) by (vm_compute; reflexivity).
    rewrite Hrun in Hr. cbn [fst snd] in *. now subst r. }
  assert (H5 : lit "<i>" <> []) by (vm_compute; discriminate).
  assert (H6 : normalize (lit "<i>") = []) by (vm_compute; reflexivity).
  assert (H7 : browse (site E) 1 = Some Sample.page_ab) by reflexivity.
  split; [exact H1|]. split; [exact H4|]. split; [exact H6|].
  exact (@C10_text_normalized_to_nothing_aborts_run E Sample.page_ab 1 0 1 []
           Sample.on_page_1 Sample.resolved_a w2 (lit "Movie A")
           (lit Sample.link_a) (lit Sample.sub_a) (lit "<i>")
           3 1 1 0 [] Sample.empty_world Sample.empty_world
           H1 H2 H3 H4 H5 H6 H7 eq_refl (Nat.le_0_l _) eq_refl).
Defined.

(* ================================================================== *)
(** ** More on the normalization *)
(* ================================================================== *)

Lemma replace_newlines_clean :
  forall s skip,
    Forall (fun c => is_nl c = false) (replace_go re_newlines (lit " ") skip s).
Proof.
  induction s as [|c s IH]; intros skip.
  - destruct skip; simpl; constructor.
  - destruct skip as [|skip]; cbn [replace_go]; [|apply IH].
    unfold exec, re_newlines. cbn [matcher].
    destruct (is_nl c) eqn:Hnl.
    + destruct (star_accepts is_nl s) as (rest & -> & Hlen).
      destruct (List.length (c :: s) - List.length rest) eqn:Hn.
      * cbn [List.length] in Hn. lia.
      * simpl. constructor; [reflexivity|apply IH].
    + constructor; [assumption|apply IH].
Qed.

(** The text both scripts store holds no line feed and no carriage return,
    whatever the subtitle document. *)
Theorem normalize_has_no_line_break (downloadData : jsstring) :
  Forall (fun c => c <> 10%N /\ c <> 13%N) (normalize downloadData).
Proof.
  unfold normalize, replace_all.
  apply Forall_impl with (P := fun c => is_nl c = false).
  - intros c Hc. unfold is_nl in Hc. apply orb_false_elim in Hc as [H10 H13].
    apply N.eqb_neq in H10, H13. auto.
  - apply replace_delete_keeps. apply replace_newlines_clean.
Qed.

Lemma replace_newlines_length :
  forall s skip,
    skip <= List.length s ->
    List.length (replace_go re_newlines (lit " ") skip s) + skip <= List.length s.
Proof.
  unfold re_newlines.
  induction s as [|c s IH]; intros skip Hskip.
  - destruct skip; simpl in *; lia.
  - destruct skip as [|skip]; cbn [replace_go].
    + unfold exec. cbn [matcher].
      destruct (is_nl c) eqn:Hnl.
      * destruct (star_accepts is_nl s) as (rest & -> & Hlen).
        destruct (List.length (c :: s) - List.length rest) eqn:Hn.
        -- cbn [List.length] in Hn. lia.
        -- cbn [List.length] in Hn.
           assert (Hn' : n <= List.length s) by lia.
           specialize (IH n Hn'). rewrite length_app.
           change (List.length (lit " ")) with 1. cbn [List.length]. lia.
      * specialize (IH 0 (Nat.le_0_l _)). cbn [List.length]. lia.
    + cbn [List.length] in *. specialize (IH skip ltac:(lia)). lia.
Qed.

Lemma replace_delete_length (r : regex) :
  forall s skip, List.length (replace_go r [] skip s) <= List.length s.
Proof.
  induction s as [|c s IH]; intros skip.
  - simpl. destruct skip, (exec r []); simpl; lia.
  - destruct skip as [|skip]; cbn [replace_go].
    + destruct (exec r (c :: s)) as [rest|].
      * destruct (List.length (c :: s) - List.length rest); simpl;
          [specialize (IH 0)|specialize (IH n)]; lia.
      * simpl. specialize (IH 0). lia.
    + simpl. specialize (IH skip). lia.
Qed.

(** Normalization never makes the text longer. *)
Theorem normalize_never_longer (downloadData : jsstring) :
  List.length (normalize downloadData) <= List.length downloadData.
Proof.
  unfold normalize, replace_all.
  etransitivity; [apply replace_delete_length|].
  pose proof (@replace_newlines_length downloadData 0 (Nat.le_0_l _)). lia.
Qed.

(** A global replacement leaves a text alone in which the pattern matches
    nowhere. *)
Lemma replace_go_untouched (r : regex) (repl : jsstring) (P : N -> Prop) :
  exec r [] = None ->
  (forall c t, P c -> Forall P t -> exec r (c :: t) = None) ->
  forall s, Forall P s -> replace_go r repl 0 s = s.
Proof.
  intros Hnil Hcons. induction 1 as [|c s Hc Hs IH]; cbn [replace_go].
  - now rewrite Hnil.
  - rewrite (Hcons c s Hc Hs). now rewrite IH.
Qed.

(** Dialogue without line breaks, digits and [<] goes through the
    normalization unchanged. *)
Theorem normalize_plain_text_unchanged (downloadData : jsstring) :
  Forall (fun c => is_nl c = false /\ is_digit c = false /\ c <> 60%N) downloadData ->
  normalize downloadData = downloadData.
Proof.
  intros Hplain. unfold normalize, replace_all.
  rewrite (@replace_go_untouched re_newlines (lit " ")
             (fun c => is_nl c = false /\ is_digit c = false /\ c <> 60%N));
    [|reflexivity| |assumption].
  - apply (@replace_go_untouched re_markup []
             (fun c => is_nl c = false /\ is_digit c = false /\ c <> 60%N));
      [reflexivity| |assumption].
    intros c t (_ & Hdigit & Hlt) Ht.
    assert (Hc : (c =? 60)%N = false) by now apply N.eqb_neq.
    assert (Htail : matcher (Lit (lit "<i>")) t Some = None).
    { destruct t as [|d t]; [reflexivity|].
      inversion Ht as [|? ? (_ & _ & Hd) _]; subst.
      cbn. unfold is_char. apply N.eqb_neq in Hd. now rewrite Hd. }
    assert (Hhead : matcher (Lit (lit "<i>")) (c :: t) Some = None).
    { cbn. unfold is_char. now rewrite Hc. }
    unfold exec, re_markup. cbn [matcher seq_of]. rewrite Hdigit.
    destruct (is_space c).
    + rewrite Htail, Hhead. cbn. unfold is_char. now rewrite Hc.
    + rewrite Hhead. cbn. unfold is_char. now rewrite Hc.
  - intros c t (Hnl & _) _. unfold exec, re_newlines. cbn [matcher].
    now rewrite Hnl.
Qed.

Lemma normalize_plain_text_unchanged_witness :
  Forall (fun c => is_nl c = false /\ is_digit c = false /\ c <> 60%N)
    (lit "Hello there") /\
  normalize (lit "Hello there") = lit "Hello there".
Proof.
  assert (H : Forall (fun c => is_nl c = false /\ is_digit c = false /\ c <> 60%N)
                (lit "Hello there")).
  { cbn [lit]. repeat constructor; discriminate. }
  split; [exact H|]. exact (normalize_plain_text_unchanged H).
Defined.

(* ================================================================== *)
(** ** More on the windows *)
(* ================================================================== *)

Lemma windows_full_but_last (hi : nat) (hi_pos : 1 <= hi) :
  forall n s,
    List.length s <= n ->
    Forall (fun c => is_dot c = true) s ->
    Forall (fun w => List.length w = hi)
      (removelast (match_go (Rep is_dot 1 hi) 0 s)).
Proof.
  induction n as [|n IH]; intros s Hlen Hall.
  - destruct s; [|simpl in Hlen; lia].
    rewrite (@windows_nil hi hi_pos). constructor.
  - destruct s as [|c s]; [rewrite (@windows_nil hi hi_pos); constructor|].
    rewrite (@windows_cons hi hi_pos (c :: s)) by (auto; congruence).
    set (t := c :: s) in *.
    assert (Hrest : List.length (skipn hi t) <= n).
    { rewrite length_skipn. unfold t in *. cbn [List.length] in *. lia. }
    assert (Hall' : Forall (fun c => is_dot c = true) (skipn hi t)).
    { rewrite <- (firstn_skipn hi t) in Hall. now apply Forall_app in Hall. }
    specialize (IH _ Hrest Hall').
    destruct (skipn hi t) as [|d rest] eqn:Hskip.
    + rewrite (@windows_nil hi hi_pos). constructor.
    + assert (Hmore : match_go (Rep is_dot 1 hi) 0 (d :: rest) <> []).
      { rewrite (@windows_cons hi hi_pos (d :: rest)) by (auto; congruence).
        discriminate. }
      destruct (match_go (Rep is_dot 1 hi) 0 (d :: rest)) as [|w ws] eqn:Hws;
        [congruence|].
      change (removelast (firstn hi t :: w :: ws))
        with (firstn hi t :: removelast (w :: ws)).
      constructor; [|assumption].
      rewrite length_firstn.
      assert (List.length (skipn hi t) = S (List.length rest))
        by now rewrite Hskip.
      rewrite length_skipn in *. lia.
Qed.

(** No re-balancing across chunks: when the text holds no U+2028 and no
    U+2029, every chunk [match] cuts, but the last one, has exactly 102
    code units. *)
Theorem chunks_full_but_last (downloadData : jsstring) (chunks : list jsstring) :
  Forall (fun c => is_separator c = false) downloadData ->
  Chunked.subtitleChunks downloadData = Some chunks ->
  Forall (fun chunk => List.length chunk = 102) (removelast chunks).
Proof.
  intros Hsep Hchunks.
  assert (Hgo : chunks = match_go (Rep is_dot 1 102) 0 (normalize downloadData)).
  { unfold Chunked.subtitleChunks, match_all, re_chunk in Hchunks.
    destruct (match_go (Rep is_dot 1 102) 0 (normalize downloadData));
      [discriminate|]. now injection Hchunks as <-. }
  subst chunks.
  apply windows_full_but_last with (n := List.length (normalize downloadData));
    [lia|lia|]. now apply normalize_dot.
Qed.

Lemma chunks_full_but_last_witness :
  Forall (fun c => is_separator c = false) Sample.long_text /\
  Chunked.subtitleChunks Sample.long_text
    = Some [repeat 65%N 102; repeat 65%N 102; repeat 65%N 1] /\
  Forall (fun chunk => List.length chunk = 102)
    (removelast [repeat 65%N 102; repeat 65%N 102; repeat 65%N 1]).
Proof.
  assert (H1 : Forall (fun c => is_separator c = false) Sample.long_text).
  { unfold Sample.long_text. apply Forall_forall. intros c Hc.
    apply repeat_spec in Hc. now subst c. }
  assert (H2 : Chunked.subtitleChunks Sample.long_text
               = Some [repeat 65%N 102; repeat 65%N 102; repeat 65%N 1])
    by (vm_compute; reflexivity).
  split; [exact H1|]. split; [exact H2|].
  exact (chunks_full_but_last H1 H2).
Defined.

(* ================================================================== *)
(** ** A download that succeeds *)
(* ================================================================== *)

Lemma last_is_head_of_rev {A} (s : list A) (d : A) : last s d = hd d (rev s).
Proof.
  induction s as [|x s _] using rev_ind; [reflexivity|].
  now rewrite last_last, rev_unit.
Qed.

(** An entry whose name ends in [.srt] is a file. *)
Lemma srt_is_file (entry : zip_entry) :
  endsWith (entryName entry) (lit ".srt") = true -> isDirectory entry = false.
Proof.
  unfold endsWith, isDirectory. rewrite last_is_head_of_rev.
  assert (Hrev : rev (lit ".srt") = [116; 114; 115; 46]%N)
    by (vm_compute; reflexivity).
  rewrite Hrev. intros Hends.
  destruct (rev (entryName entry)) as [|c r]; cbn [startsWith] in Hends;
    [discriminate|].
  apply andb_prop in Hends as [Hc _]. apply N.eqb_eq in Hc. now subst c.
Qed.

Lemma unpack_app (E : env) (dir : jsstring) (a b : list zip_entry) :
  forall f,
    unpack E dir (a ++ b) f
      = match fst (unpack E dir a f) with
        | None => unpack E dir b (snd (unpack E dir a f))
        | Some message => unpack E dir a f
        end.
Proof.
  induction a as [|entry a IH]; intros f; [reflexivity|].
  cbn [app unpack].
  destruct (isDirectory entry);
    destruct (f (target E dir entry)) as [[| |]|]; try apply IH; reflexivity.
Qed.

(** Unpacking leaves alone every path at which no entry is unpacked. *)
Lemma unpack_elsewhere (E : env) (dir q : jsstring) (entries : list zip_entry) :
  forall f,
    Forall (fun e => jsstring_eqb q (target E dir e) = false) entries ->
    snd (unpack E dir entries f) q = f q.
Proof.
  induction entries as [|entry rest IH]; intros f Hall; [reflexivity|].
  inversion Hall as [|? ? Hentry Hrest]; subst.
  cbn [unpack].
  destruct (isDirectory entry);
    destruct (f (target E dir entry)) as [[| |]|];
    try reflexivity; try (now apply IH);
    rewrite (IH _ Hrest); now apply fs_write_other.
Qed.

Lemma extractAllTo_elsewhere (E : env) (dir q : jsstring)
    (entries : list zip_entry) (f : jsstring -> option node) :
  Forall (fun e => jsstring_eqb q (target E dir e) = false) entries ->
  snd (extractAllTo E dir entries f) q = f q.
Proof.
  intros Hall. unfold extractAllTo.
  destruct (unpack_error E dir entries f); [reflexivity|].
  now apply unpack_elsewhere.
Qed.

(** A file that is on disk stays as it is while the entries unpacked are
    files for other paths and the extraction goes through. *)
Lemma unpack_keeps_file (E : env) (dir q : jsstring) (bytes : list N)
    (entries : list zip_entry) :
  forall f,
    f q = Some (Plain bytes) ->
    fst (unpack E dir entries f) = None ->
    Forall (fun e => jsstring_eqb q (path_join E dir (entryName e)) = false)
      entries ->
    snd (unpack E dir entries f) q = Some (Plain bytes).
Proof.
  induction entries as [|entry rest IH]; intros f Hq Hok Hall; [assumption|].
  inversion Hall as [|? ? Hentry Hrest]; subst.
  cbn [unpack] in *. unfold target in *.
  destruct (isDirectory entry).
  - destruct (f (path_join E dir (removelast (entryName entry))))
      as [[| |]|] eqn:Hat; try discriminate Hok.
    + now apply IH.
    + apply IH; try assumption.
      rewrite fs_write_other; [assumption|].
      apply jsstring_eqb_neq. intros ->. congruence.
  - assert (Hstep : snd (unpack E dir rest
                           (fs_write (path_join E dir (entryName entry))
                              (Plain (getData entry)) f)) q
                    = Some (Plain bytes) \/
                    fst (unpack E dir rest
                           (fs_write (path_join E dir (entryName entry))
                              (Plain (getData entry)) f)) <> None).
    { destruct (fst (unpack E dir rest
                       (fs_write (path_join E dir (entryName entry))
                          (Plain (getData entry)) f))) eqn:Hrest_ok;
        [right; discriminate|left].
      apply IH; try assumption. now rewrite fs_write_other. }
    destruct (f (path_join E dir (entryName entry))) as [[| |]|];
      try discriminate Hok; destruct Hstep as [Hstep | Hstep];
      solve [exact Hstep | contradiction].
Qed.

(** After an extraction that went through, a file entry is on disk under
    its name, unless a later entry was unpacked onto it. *)
Lemma unpack_written (E : env) (dir : jsstring) (before after : list zip_entry)
    (entry : zip_entry) (f : jsstring -> option node) :
  isDirectory entry = false ->
  fst (unpack E dir (before ++ entry :: after) f) = None ->
  Forall (fun e => jsstring_eqb (path_join E dir (entryName entry))
                     (path_join E dir (entryName e)) = false) after ->
  snd (unpack E dir (before ++ entry :: after) f)
    (path_join E dir (entryName entry))
    = Some (Plain (getData entry)).
Proof.
  intros Hfile. rewrite unpack_app.
  destruct (fst (unpack E dir before f)) eqn:Hbefore;
    [now rewrite Hbefore|].
  cbn [unpack]. unfold target. rewrite Hfile.
  intros Hok Hafter.
  destruct (snd (unpack E dir before f) (path_join E dir (entryName entry)))
    as [[| |]|]; try discriminate Hok;
    (apply unpack_keeps_file; [apply fs_write_same|assumption|assumption]).
Qed.

Lemma ensure_dir_there (p : jsstring) (w : world) :
  fs (ensure_dir p w) p <> None.
Proof.
  unfold ensure_dir. destruct (fs w p) eqn:Hp; cbn [logged fs].
  - congruence.
  - rewrite fs_write_same. discriminate.
Qed.

(** A transfer that is over in time is saved at the path, and
    [downloadSubtitles] unpacks it. *)
Lemma downloadSubtitles_saved (E : env) (url : jsstring) (w : world)
    (entries : list zip_entry) (ms : N) :
  fs w (filePath_of E url) = None ->
  fs w (movieFolder_of E url) = Some Dir ->
  download (site E) url
    = Transfer (fileName_of url ++ lit ".zip") (Archive entries) ms ->
  (ms <= 10000)%N ->
  exists r w2,
    downloadSubtitles E url (movieFolder_of E url) w = (Ok r, w2) /\
    fs w2 = snd (extractAllTo E (movieFolder_of E url) entries
                   (fs_write (filePath_of E url) (Archive entries) (fs w))) /\
    trace w2 = trace w ++ [EvGotoDownload url; EvClick url;
                           EvWaitForTimeout 10000; EvClosePage;
                           EvOpenZip (filePath_of E url)].
Proof.
  intros Hnone Hfolder Hdl Hms.
  unfold downloadSubtitles, try_catch.
  unfold bind at 1. unfold emit at 1. rewrite Hdl.
  unfold bind at 1. unfold emit at 1.
  unfold bind at 1. unfold waitForTimeout. unfold bind at 1. unfold emit at 1.
  cbn [fs trace]. fold (filePath_of E url).
  apply N.leb_le in Hms. rewrite Hms, Hnone, Hfolder.
  unfold bind at 1. unfold emit at 1. rewrite downloaded_path. cbn [fs trace].
  match goal with |- context [bind _ _ ?w1] =>
    destruct (extraction_step E (filePath_of E url) (movieFolder_of E url) w1)
      as (w2 & e & Hstep & Htrace & _ & Hdisk) end.
  rewrite Hstep. cbn [fs trace] in Htrace, Hdisk.
  rewrite fs_write_same in Hdisk. rewrite <- !app_assoc in Htrace.
  match goal with |- context [match ?x with Some _ => _ | None => _ end] =>
    destruct x end; unfold ret; do 2 eexists; repeat split; eassumption.
Qed.

(** On a cache miss, when the transfer ends within the wait, the browser
    saves the archive under the expected name and no entry of the archive
    is unpacked at the path of the archive itself, [startDownload] starts
    one transfer and extracts the archive twice, once inside
    [downloadSubtitles], whose answer it drops, and once itself: it answers
    with what the second extraction gives on the disk the first has left.
    The archive is then at the path, where the next call finds it. *)
Theorem startDownload_downloads_once :
  forall (E : env) (url : jsstring) (w : world)
         (entries : list zip_entry) (ms : N),
    ready E url w = true ->
    fs (prepared E url w) (movieFolder_of E url) = Some Dir ->
    cache_miss E url w ->
    download (site E) url
      = Transfer (fileName_of url ++ lit ".zip") (Archive entries) ms ->
    (ms <= 10000)%N ->
    Forall (fun e => jsstring_eqb (filePath_of E url)
                       (target E (movieFolder_of E url) e) = false) entries ->
    let saved := fs_write (filePath_of E url) (Archive entries)
                   (fs (prepared E url w)) in
    let unpacked := snd (extractAllTo E (movieFolder_of E url) entries saved) in
    exists w',
      startDownload E url w
        = (Ok (extraction_of E (movieFolder_of E url) unpacked
                 (Some (Archive entries))), w') /\
      filter is_transfer (trace w')
        = filter is_transfer (trace w) ++ [EvGotoDownload url; EvClick url] /\
      filter (fun e => match e with EvOpenZip _ => true | _ => false end)
          (trace w')
        = filter (fun e => match e with EvOpenZip _ => true | _ => false end)
            (trace w)
          ++ [EvOpenZip (filePath_of E url); EvOpenZip (filePath_of E url)] /\
      fs w' (filePath_of E url) = Some (Archive entries) /\
      cached E url w' = true.
Proof.
  intros E url w entries ms Hready Hfolder Hmiss Hdl Hms Hapart saved unpacked.
  rewrite (startDownload_unfold _ _ _ Hready).
  unfold try_catch, fetch. unfold bind at 1. unfold existsSync.
  rewrite (prepared_miss Hmiss). cbn [negb].
  unfold bind at 1.
  fold (logged (EvExistsSync (filePath_of E url) false) (prepared E url w)).
  destruct (@downloadSubtitles_saved E url
              (logged (EvExistsSync (filePath_of E url) false) (prepared E url w))
              entries ms (prepared_miss Hmiss) Hfolder Hdl Hms)
    as (r & w2 & -> & Hdisk1 & Htrace1).
  cbn [logged fs trace] in Hdisk1, Htrace1. fold saved in Hdisk1.
  fold unpacked in Hdisk1.
  assert (Hstill : unpacked (filePath_of E url) = Some (Archive entries)).
  { unfold unpacked. rewrite (extractAllTo_elsewhere _ _ _ _ Hapart).
    apply fs_write_same. }
  destruct (extraction_step E (filePath_of E url) (movieFolder_of E url) w2)
    as (w3 & e & Hstep & Htrace2 & Hkeeps & Hdisk2).
  rewrite Hstep, Hdisk1, Hstill. rewrite Hdisk1, Hstill in Hdisk2.
  destruct (prepared_trace E url w) as (found1 & found2 & Hprep).
  assert (Hcached : cached E url w3 = true).
  { unfold cached. rewrite !andb_true_iff, !is_some_true.
    repeat split; apply Hkeeps; rewrite Hdisk1; unfold unpacked;
      apply extractAllTo_keeps; unfold saved.
    - destruct (jsstring_eqb (subtitlesDir_of E) (filePath_of E url)) eqn:Heq.
      + apply jsstring_eqb_spec in Heq. rewrite Heq, fs_write_same. discriminate.
      + rewrite fs_write_other by assumption. unfold prepared.
        pose proof (ensure_dir_there (subtitlesDir_of E) w) as Hthere.
        destruct (fs (ensure_dir (subtitlesDir_of E) w) (subtitlesDir_of E))
          as [nd|] eqn:Hnd; [|contradiction].
        now rewrite (ensure_dir_keeps _ _ _ Hnd).
    - destruct (jsstring_eqb (movieFolder_of E url) (filePath_of E url)) eqn:Heq.
      + apply jsstring_eqb_spec in Heq. rewrite Heq, fs_write_same. discriminate.
      + rewrite fs_write_other by assumption. rewrite Hfolder. discriminate.
    - rewrite fs_write_same. discriminate. }
  assert (Hthere : fs w3 (filePath_of E url) = Some (Archive entries)).
  { rewrite Hdisk2, (extractAllTo_elsewhere _ _ _ _ Hapart). exact Hstill. }
  destruct (extraction_of E (movieFolder_of E url) unpacked
              (Some (Archive entries)));
    unfold ret; eexists; (split; [reflexivity|]);
    rewrite Htrace2, Htrace1, Hprep, !filter_app; cbn [filter is_transfer app];
    rewrite !app_nil_r, <- ?app_assoc; auto.
Qed.

(** The first download of the sample archive. *)
Lemma startDownload_downloads_once_witness :
  let E := Sample.env_of Chunked.MAX_MOVIES_source
             (Sample.site_a (Sample.archive Sample.cue)) in
  let url := lit Sample.sub_a in
  let entries :=
    [ {| entryName := lit "info.nfo"; getData := lit "release notes" |};
      {| entryName := lit "movie.srt"; getData := Sample.cue |};
      {| entryName := lit "readme.txt"; getData := lit "read me" |} ] in
  let saved := fs_write (filePath_of E url) (Archive entries)
                 (fs (prepared E url Sample.empty_world)) in
  let unpacked := snd (extractAllTo E (movieFolder_of E url) entries saved) in
  ready E url Sample.empty_world = true /\
  cache_miss E url Sample.empty_world /\
  (900 <= 10000)%N /\
  extraction_of E (movieFolder_of E url) unpacked (Some (Archive entries))
    = Some Sample.cue /\
  exists w',
    startDownload E url Sample.empty_world
      = (Ok (extraction_of E (movieFolder_of E url) unpacked
               (Some (Archive entries))), w') /\
    filter is_transfer (trace w')
      = filter is_transfer (trace Sample.empty_world)
        ++ [EvGotoDownload url; EvClick url] /\
    filter (fun e => match e with EvOpenZip _ => true | _ => false end)
        (trace w')
      = filter (fun e => match e with EvOpenZip _ => true | _ => false end)
          (trace Sample.empty_world)
        ++ [EvOpenZip (filePath_of E url); EvOpenZip (filePath_of E url)] /\
    fs w' (filePath_of E url) = Some (Archive entries) /\
    cached E url w' = true.
Proof.
  intros E url entries saved unpacked.
  assert (H0 : ready E url Sample.empty_world = true)
    by (vm_compute; reflexivity).
  assert (Hf : fs (prepared E url Sample.empty_world) (movieFolder_of E url)
               = Some Dir)
    by (vm_compute; reflexivity).
  assert (H1 : cache_miss E url Sample.empty_world)
    by (repeat split; vm_compute; reflexivity).
  assert (Hd : download (site E) url
               = Transfer (fileName_of url ++ lit ".zip") (Archive entries) 900)
    by (vm_compute; reflexivity).
  assert (H2 : (900 <= 10000)%N) by (vm_compute; discriminate).
  assert (H3 : Forall (fun e => jsstring_eqb (filePath_of E url)
                                  (target E (movieFolder_of E url) e) = false)
                 entries)
    by (repeat constructor).
  split; [exact H0|]. split; [exact H1|]. split; [exact H2|].
  split; [vm_compute; reflexivity|].
  exact (@startDownload_downloads_once E url Sample.empty_world entries 900
           H0 Hf H1 Hd H2 H3).
Defined.

(** Whatever else the archive on disk holds, [extractSubtitles] answers
    with the decoded first entry, in the archive's order, whose name ends
    in [.srt], when the unpacking reports no error, and rejects with the
    error of the unpacking when it reports one, subtitle document or not. *)
Theorem extractSubtitles_first_srt_entry :
  forall (E : env) (filePath dir : jsstring) (w : world)
         (before after : list zip_entry) (entry : zip_entry),
    fs w filePath = Some (Archive (before ++ entry :: after)) ->
    Forall (fun e => endsWith (entryName e) (lit ".srt") = false) before ->
    endsWith (entryName entry) (lit ".srt") = true ->
    fst (extractSubtitles E filePath dir w)
      = match fst (extractAllTo E dir (before ++ entry :: after) (fs w)) with
        | None => Ok (utf8_decode E (getData entry))
        | Some message => Throw (Error message)
        end.
Proof.
  intros E filePath dir w before after entry Hfile Hbefore Hentry.
  rewrite extractSubtitles_result, Hfile.
  now rewrite (@subtitleEntry_first before after entry Hbefore Hentry).
Qed.

(** The sample archive unpacks; the one with a file named as its directory
    does not, and its subtitle document is not answered. *)
Lemma extractSubtitles_first_srt_entry_witness :
  let E := Sample.env_of Chunked.MAX_MOVIES_source
             (Sample.site_a (Sample.archive Sample.cue)) in
  let on_disk (a : node) :=
    {| fs := fs_write (lit Sample.path_a) a (fs Sample.empty_world);
       trace := [] |} in
  fst (extractSubtitles E (lit Sample.path_a) (lit Sample.folder_a)
         (on_disk (Sample.archive Sample.cue)))
    = Ok Sample.cue /\
  (exists message,
      fst (extractSubtitles E (lit Sample.path_a) (lit Sample.folder_a)
             (on_disk (Sample.archive_with_clash Sample.cue)))
        = Throw (Error message)).
Proof.
  intros E on_disk. split.
  - refine (eq_trans
              (@extractSubtitles_first_srt_entry E (lit Sample.path_a)
                 (lit Sample.folder_a) (on_disk (Sample.archive Sample.cue))
                 [ {| entryName := lit "info.nfo";
                      getData := lit "release notes" |} ]
                 [ {| entryName := lit "readme.txt"; getData := lit "read me" |} ]
                 {| entryName := lit "movie.srt"; getData := Sample.cue |} _ _ _)
              _).
    + vm_compute. reflexivity.
    + repeat constructor.
    + vm_compute. reflexivity.
    + vm_compute. reflexivity.
  - eexists.
    refine (eq_trans
              (@extractSubtitles_first_srt_entry E (lit Sample.path_a)
                 (lit Sample.folder_a)
                 (on_disk (Sample.archive_with_clash Sample.cue))
                 [ {| entryName := lit "sub/"; getData := [] |};
                   {| entryName := lit "sub"; getData := lit "notes" |} ]
                 []
                 {| entryName := lit "movie.srt"; getData := Sample.cue |} _ _ _)
              _).
    + vm_compute. reflexivity.
    + repeat constructor.
    + vm_compute. reflexivity.
    + vm_compute. reflexivity.
Defined.

(* ================================================================== *)
(** ** The indices a run announces *)
(* ================================================================== *)

Lemma movie_indices_app (a b : list event) :
  movie_indices (a ++ b) = movie_indices a ++ movie_indices b.
Proof.
  induction a as [|e a IH]; [reflexivity|].
  destruct e; cbn [app movie_indices]; rewrite IH; reflexivity.
Qed.

Lemma movie_indices_silent (evs : list event) :
  Forall (fun e => is_movie e = false) evs -> movie_indices evs = [].
Proof.
  induction 1 as [|e evs He _ IH]; [reflexivity|].
  destruct e; cbn [movie_indices]; try assumption. discriminate He.
Qed.

Lemma helpers_are_silent (e : event) : helper_event e = true -> is_movie e = false.
Proof. destruct e; cbn; congruence. Qed.

Section Announces.

Variable E : env.

Lemma announces_ret {A} (idx : nat) (a : A) (post : A -> nat -> Prop) :
  post a 0 -> announces E idx (ret a) post.
Proof.
  intros Hpost w. exists 0. cbn. rewrite app_nil_r.
  repeat split; auto. now intros ? [= <-].
Qed.

Lemma announces_throw {A} (idx : nat) (e : exn) (post : A -> nat -> Prop) :
  announces E idx (throw e) post.
Proof.
  intros w. exists 0. cbn. rewrite app_nil_r.
  repeat split; auto. discriminate.
Qed.

Lemma announces_weaken {A} (idx : nat) (m : M A) (post post' : A -> nat -> Prop) :
  (forall a k, post a k -> post' a k) ->
  announces E idx m post -> announces E idx m post'.
Proof.
  intros Himp Hm w. destruct (Hm w) as (k & Htrace & Hcap & Hpost).
  exists k. repeat split; auto.
Qed.

Lemma announces_bind_silent {A B} (idx : nat) (m : M A) (f : A -> M B)
    (Q : A -> Prop) (post : B -> nat -> Prop) :
  silent m -> returns Q m ->
  (forall a, Q a -> announces E idx (f a) post) ->
  announces E idx (bind m f) post.
Proof.
  intros Hsilent Hreturns Hf w. unfold bind.
  destruct (Hsilent w) as (evs & Htrace & Hevs).
  destruct (m w) as [[a|e] w1] eqn:Hrun; cbn [snd] in Htrace.
  - destruct (Hf a (Hreturns _ _ _ Hrun) w1) as (k & Htrace' & Hcap & Hpost).
    exists k. repeat split; auto.
    rewrite Htrace', Htrace, movie_indices_app, (movie_indices_silent Hevs).
    now rewrite app_nil_r.
  - exists 0. cbn [snd fst]. repeat split; auto; [|discriminate].
    rewrite Htrace, movie_indices_app, (movie_indices_silent Hevs). reflexivity.
Qed.

Lemma announces_movie {A} (idx : nat) (m : M A) (post post' : A -> nat -> Prop) :
  idx <= MAX_MOVIES E ->
  announces E (idx + 1) m post' ->
  (forall a k, post' a k -> post a (S k)) ->
  announces E idx (bind (emit (EvMovie idx)) (fun _ => m)) post.
Proof.
  intros Hcap Hm Himp w. unfold bind, emit.
  destruct (Hm {| fs := fs w; trace := trace w ++ [EvMovie idx] |})
    as (k & Htrace & Hbound & Hpost).
  exists (S k). cbn [trace] in Htrace. repeat split.
  - rewrite Htrace, movie_indices_app. cbn [movie_indices seq].
    rewrite <- app_assoc, Nat.add_1_r. reflexivity.
  - right. lia.
  - intros a Ha. apply Himp. now apply Hpost.
Qed.

Lemma returns_anything {A} (m : M A) : returns (fun _ => True) m.
Proof. intros w a w' _. exact I. Qed.

Lemma silent_emit (e : event) : is_movie e = false -> silent (emit e).
Proof. intros He. now apply adds_emit. Qed.

Lemma silent_eval_selector {A} (x : option A) : silent (eval_selector x).
Proof. destruct x; [apply adds_ret|apply adds_throw]. Qed.

Lemma silent_getEnglishSubtitleLink (movieLink : jsstring) :
  silent (getEnglishSubtitleLink E movieLink).
Proof. apply adds_getEnglishSubtitleLink. exact helpers_are_silent. Qed.

Lemma silent_startDownload (url : jsstring) : silent (startDownload E url).
Proof. apply adds_startDownload. exact helpers_are_silent. Qed.

Lemma silent_chunk_rows (movieName data : jsstring) :
  silent (Chunked.chunk_rows movieName data).
Proof. apply adds_chunk_rows. Qed.

(** A listing that gets its rows gets at least one. *)
Lemma chunk_rows_not_empty (movieName data : jsstring) :
  returns (fun rows => rows <> []) (Chunked.chunk_rows movieName data).
Proof.
  intros w rows w'. unfold Chunked.chunk_rows, Chunked.subtitleChunks, match_all.
  destruct (match_go re_chunk 0 (normalize data)) as [|chunk chunks];
    [discriminate|].
  intros [= <- _]. discriminate.
Qed.

Ltac silent_prefix x :=
  apply announces_bind_silent with (Q := fun _ => True);
  [ first [ apply silent_emit; reflexivity
          | apply silent_eval_selector
          | apply silent_getEnglishSubtitleLink
          | apply silent_startDownload ]
  | apply returns_anything
  | intros x _ ].

(** [part_000]: one listing loop announces consecutive indices from its
    [movieIndex] on, none above the cap, and adds at least one row for each
    of them. *)
Lemma Chunked_listing_loop_announces (movieList : list listing) :
  forall n i movieIndex movies,
    announces E movieIndex
      (Chunked.listing_loop E movieList n i movieIndex movies)
      (fun out k => exists added,
           out = movies ++ added /\ k <= List.length added /\
           (k = 0 -> added = [])).
Proof.
  induction n as [|n IH]; intros i movieIndex movies;
    cbn [Chunked.listing_loop].
  - apply announces_ret. exists [].
    split; [symmetry; apply app_nil_r|split; [cbn; lia|reflexivity]].
  - cbv zeta. destruct (movieIndex <=? MAX_MOVIES E) eqn:Hcap.
    2:{ apply announces_ret. exists [].
        split; [symmetry; apply app_nil_r|split; [cbn; lia|reflexivity]]. }
    apply Nat.leb_le in Hcap.
    silent_prefix u. destruct (nth_error movieList i) as [movie|]; [|apply IH].
    silent_prefix movieName.
    destruct (negb (truthy (Some movieName))); [apply IH|].
    silent_prefix movieLink.
    destruct (negb (truthy (Some movieLink))); [apply IH|].
    silent_prefix subtitleLink. destruct subtitleLink as [[|c url]|]; try apply IH.
    silent_prefix downloadData.
    destruct downloadData as [[|d data]|]; try apply IH.
    apply announces_movie
      with (post' := fun out k => exists added,
                         out = movies ++ added /\ S k <= List.length added).
    { assumption. }
    2:{ intros out k (added & Hout & Hk). exists added.
        split; [assumption|]. split; [assumption|]. discriminate. }
    apply announces_bind_silent with (Q := fun rows => rows <> []);
      [apply silent_chunk_rows|apply chunk_rows_not_empty|].
    intros rows Hrows. eapply announces_weaken; [|apply IH].
    cbn beta. intros out k (added & -> & Hk & _).
    exists (rows ++ added). split; [now rewrite app_assoc|].
    rewrite length_app. destruct rows; [congruence|cbn [List.length]; lia].
Qed.

(** [index.js]: one listing loop announces consecutive indices and, when it
    returns, has added one row for each, carrying that index. *)
Lemma Index_listing_loop_announces (movieList : list listing) :
  forall n i movieIndex movies,
    announces E movieIndex
      (Index.listing_loop E movieList n i movieIndex movies)
      (fun out k => exists added,
           out = movies ++ added /\ map row_id added = seq movieIndex k).
Proof.
  induction n as [|n IH]; intros i movieIndex movies;
    cbn [Index.listing_loop].
  - apply announces_ret. exists []. split; [symmetry; apply app_nil_r|reflexivity].
  - cbv zeta. destruct (movieIndex <=? MAX_MOVIES E) eqn:Hcap.
    2:{ apply announces_ret. exists [].
        split; [symmetry; apply app_nil_r|reflexivity]. }
    apply Nat.leb_le in Hcap.
    silent_prefix u. destruct (nth_error movieList i) as [movie|]; [|apply IH].
    silent_prefix movieName. silent_prefix movieLink.
    destruct (negb (truthy (Some movieLink))); [apply IH|].
    silent_prefix subtitleLink. destruct subtitleLink as [url|]; [|apply IH].
    silent_prefix downloadData.
    apply announces_movie
      with (post' := fun out k => exists added,
                         out = movies ++ added /\
                         map row_id added = seq movieIndex (S k));
      [assumption| |auto].
    destruct downloadData as [data|]; [|apply announces_throw].
    eapply announces_weaken; [|apply IH].
    cbn beta. intros out k (added & -> & Hids).
    eexists (_ :: added). split; [now rewrite <- app_assoc|].
    cbn [map row_id seq]. rewrite Hids, Nat.add_1_r. reflexivity.
Qed.

End Announces.

Lemma seq_strongly_sorted (start len : nat) : StronglySorted lt (seq start len).
Proof.
  revert start. induction len as [|len IH]; intros start; cbn [seq];
    constructor; [apply IH|].
  apply Forall_forall. intros x Hx. apply in_seq in Hx. lia.
Qed.

Lemma strongly_sorted_app (a b : list nat) :
  StronglySorted lt a -> StronglySorted lt b ->
  (forall x y, In x a -> In y b -> x < y) ->
  StronglySorted lt (a ++ b).
Proof.
  induction 1 as [|x a Ha IH Hx]; intros Hb Hab; [assumption|].
  cbn [app]. constructor.
  - apply IH; [assumption|]. intros u v Hu Hv. apply Hab; [now right|assumption].
  - apply Forall_app. split; [assumption|].
    apply Forall_forall. intros y Hy. apply Hab; [now left|assumption].
Qed.

(** A strictly increasing list of numbers between [from] and [cap] has at
    most [cap + 1 - from] elements. *)
Lemma strongly_sorted_length (cap : nat) :
  forall (l : list nat) (from : nat),
    StronglySorted lt l ->
    Forall (fun k => from <= k <= cap) l ->
    List.length l <= S cap - from.
Proof.
  induction l as [|x l IH]; intros from Hsorted Hall; [cbn; lia|].
  inversion Hsorted as [|? ? Hl Hx]; subst.
  inversion Hall as [|? ? Hbound Hrest]; subst.
  assert (Hl' : Forall (fun k => S x <= k <= cap) l).
  { rewrite Forall_forall in *. intros y Hy.
    specialize (Hx y Hy). specialize (Hrest y Hy). lia. }
  specialize (IH (S x) Hl Hl'). cbn [List.length]. lia.
Qed.

Lemma climbs_seq (E : env) (from k : nat) :
  k = 0 \/ from + k <= S (MAX_MOVIES E) -> climbs E from (seq from k).
Proof.
  intros Hk. split; [apply seq_strongly_sorted|].
  apply Forall_forall. intros x Hx. apply in_seq in Hx. lia.
Qed.

Section Runs.

Variable E : env.

Lemma announces_then_ret {A B} (idx : nat) (m : M A) (g : A -> B)
    (post : A -> nat -> Prop) (post' : B -> nat -> Prop) :
  announces E idx m post ->
  (forall a k, post a k -> post' (g a) k) ->
  announces E idx (bind m (fun a => ret (g a))) post'.
Proof.
  intros Hm Himp w. unfold bind, ret.
  destruct (Hm w) as (k & Htrace & Hcap & Hpost). exists k.
  destruct (m w) as [[a|e] w1]; cbn [fst snd] in *; repeat split; auto.
  - intros b [= <-]. apply Himp. now apply Hpost.
  - discriminate.
Qed.

Lemma Chunked_getMoviesList_announces (page startIndex : nat) :
  announces E startIndex (Chunked.getMoviesList E page startIndex)
    (fun r k => match r with
                | Some rows => k <= List.length rows /\ (k = 0 -> rows = [])
                | None => k = 0
                end).
Proof.
  unfold Chunked.getMoviesList.
  apply announces_bind_silent with (Q := fun _ => True);
    [apply silent_emit; reflexivity|apply returns_anything|intros _ _].
  destruct (browse (site E) page) as [[|movie rest]|];
    [now apply announces_ret| |apply announces_throw].
  eapply announces_then_ret; [apply Chunked_listing_loop_announces|].
  cbn beta. intros out k (added & -> & Hk). exact Hk.
Qed.

Lemma Index_getMoviesList_announces (page startIndex : nat) :
  announces E startIndex (Index.getMoviesList E page startIndex)
    (fun r k => match r with
                | Some rows => k = List.length rows
                | None => k = 0
                end).
Proof.
  unfold Index.getMoviesList.
  apply announces_bind_silent with (Q := fun _ => True);
    [apply silent_emit; reflexivity|apply returns_anything|intros _ _].
  destruct (browse (site E) page) as [[|movie rest]|];
    [now apply announces_ret| |apply announces_throw].
  eapply announces_then_ret; [apply Index_listing_loop_announces|].
  cbn beta. intros out k (added & -> & Hids).
  apply (f_equal (@List.length nat)) in Hids.
  now rewrite length_map, length_seq in Hids.
Qed.

(** [part_000]: over the pages of a run the indices keep going up, because
    the next page starts at least as many indices further as the page had
    listings recorded. *)
Lemma Chunked_page_loop_climbs :
  forall fuel page startIndex movieCount movies w,
    exists indices,
      movie_indices
        (trace (snd (page_loop E (Chunked.getMoviesList E) fuel page startIndex
                       movieCount movies w)))
        = movie_indices (trace w) ++ indices /\
      climbs E startIndex indices.
Proof.
  induction fuel as [|fuel IH]; intros page startIndex movieCount movies w;
    cbn [page_loop].
  - exists []. cbn. rewrite app_nil_r. repeat split; constructor.
  - destruct (movieCount <=? MAX_MOVIES E).
    2:{ exists []. cbn. rewrite app_nil_r. repeat split; constructor. }
    unfold bind.
    destruct (Chunked_getMoviesList_announces page startIndex w)
      as (k & Htrace & Hcap & Hpost).
    destruct (Chunked.getMoviesList E page startIndex w) as [[[[|r l]|]|e] w1];
      cbn [fst snd] in *;
      try (exists (seq startIndex k); split; [exact Htrace|now apply climbs_seq]).
    specialize (Hpost _ eq_refl). cbn beta iota in Hpost.
    destruct Hpost as [Hpost _].
    destruct (IH (S page) (startIndex + List.length (r :: l))
                (movieCount + List.length (r :: l)) (movies ++ r :: l) w1)
      as (later & Hlater & Hsorted & Hbounds).
    exists (seq startIndex k ++ later). split; [|split].
    + now rewrite Hlater, Htrace, app_assoc.
    + apply strongly_sorted_app; [apply seq_strongly_sorted|assumption|].
      intros x y Hx Hy. apply in_seq in Hx.
      rewrite Forall_forall in Hbounds. specialize (Hbounds y Hy). lia.
    + apply Forall_app. split.
      * apply (proj2 (@climbs_seq E startIndex k Hcap)).
      * eapply Forall_impl; [|exact Hbounds]. cbn beta. intros; lia.
Qed.

(** [index.js]: over the pages of a run the indices go on without a gap. *)
Lemma Index_page_loop_consecutive :
  forall fuel page startIndex movieCount movies w,
    exists k,
      movie_indices
        (trace (snd (page_loop E (Index.getMoviesList E) fuel page startIndex
                       movieCount movies w)))
        = movie_indices (trace w) ++ seq startIndex k /\
      (k = 0 \/ startIndex + k <= S (MAX_MOVIES E)).
Proof.
  induction fuel as [|fuel IH]; intros page startIndex movieCount movies w;
    cbn [page_loop].
  - exists 0. cbn. rewrite app_nil_r. auto.
  - destruct (movieCount <=? MAX_MOVIES E).
    2:{ exists 0. cbn. rewrite app_nil_r. auto. }
    unfold bind.
    destruct (Index_getMoviesList_announces page startIndex w)
      as (k & Htrace & Hcap & Hpost).
    destruct (Index.getMoviesList E page startIndex w) as [[[[|r l]|]|e] w1];
      cbn [fst snd] in *; try (exists k; split; [exact Htrace|exact Hcap]).
    specialize (Hpost _ eq_refl). cbn beta iota in Hpost. subst k.
    destruct (IH (S page) (startIndex + List.length (r :: l))
                (movieCount + List.length (r :: l)) (movies ++ r :: l) w1)
      as (k' & Hlater & Hcap').
    exists (List.length (r :: l) + k'). split.
    + now rewrite Hlater, Htrace, <- app_assoc, seq_app.
    + right. cbn [List.length] in *. lia.
Qed.

(** [part_000] under a cap of 2 or less: the jump of [startIndex] by the
    number of rows never shows, because a page that recorded more rows than
    listings leaves no index within the cap. *)
Lemma Chunked_page_loop_small_cap :
  MAX_MOVIES E <= 2 ->
  forall fuel page startIndex movieCount movies w,
    1 <= startIndex ->
    exists k,
      movie_indices
        (trace (snd (page_loop E (Chunked.getMoviesList E) fuel page startIndex
                       movieCount movies w)))
        = movie_indices (trace w) ++ seq startIndex k /\
      (k = 0 \/ startIndex + k <= S (MAX_MOVIES E)).
Proof.
  intros Hsmall.
  induction fuel as [|fuel IH];
    intros page startIndex movieCount movies w Hstart; cbn [page_loop].
  - exists 0. cbn. rewrite app_nil_r. auto.
  - destruct (movieCount <=? MAX_MOVIES E).
    2:{ exists 0. cbn. rewrite app_nil_r. auto. }
    unfold bind.
    destruct (Chunked_getMoviesList_announces page startIndex w)
      as (k & Htrace & Hcap & Hpost).
    destruct (Chunked.getMoviesList E page startIndex w) as [[[[|r l]|]|e] w1];
      cbn [fst snd] in *; try (exists k; split; [exact Htrace|exact Hcap]).
    specialize (Hpost _ eq_refl). cbn beta iota in Hpost.
    destruct Hpost as [Hrows Hsome].
    assert (Hk : k <> 0) by (intros ->; now specialize (Hsome eq_refl)).
    destruct (IH (S page) (startIndex + List.length (r :: l))
                (movieCount + List.length (r :: l)) (movies ++ r :: l) w1
                ltac:(lia))
      as (k' & Hlater & Hcap').
    destruct (Nat.eq_dec (List.length (r :: l)) k) as [Heq | Hmore].
    + exists (k + k'). split.
      * rewrite Hlater, Htrace, <- app_assoc, seq_app, Heq. reflexivity.
      * right. lia.
    + assert (k' = 0) as -> by lia.
      exists k. split; [|exact Hcap].
      rewrite Hlater, Htrace. cbn [seq]. now rewrite app_nil_r.
Qed.

End Runs.

(** In every run of [part_000], finished or not, the indices announced go
    strictly up from 1 at least and stay within [MAX_MOVIES]; hence no more
    than [MAX_MOVIES] listings are ever announced, whatever the site and
    however many rows a listing gives. *)
Theorem Chunked_run_indices_climb (E : env) (w : world) :
  exists indices,
    movie_indices (trace (snd (Chunked.scrapeMovies E w)))
      = movie_indices (trace w) ++ indices /\
    StronglySorted lt indices /\
    Forall (fun k => 1 <= k <= MAX_MOVIES E) indices /\
    List.length indices <= MAX_MOVIES E.
Proof.
  unfold Chunked.scrapeMovies, scrapeMovies_with.
  destruct (Chunked_page_loop_climbs E (MAX_MOVIES E + 2) 1 1 0 [] w)
    as (indices & Htrace & Hsorted & Hbounds).
  exists indices.
  assert (Hlen : List.length indices <= MAX_MOVIES E).
  { pose proof (strongly_sorted_length Hsorted Hbounds). lia. }
  repeat split; try assumption.
  unfold bind.
  destruct (page_loop E (Chunked.getMoviesList E) (MAX_MOVIES E + 2) 1 1 0 [] w)
    as [[movies|e] w1]; cbn [snd] in *; [|assumption].
  unfold try_catch, writeMoviesToCsv, emit. cbn [snd trace].
  rewrite movie_indices_app. cbn [movie_indices]. now rewrite app_nil_r.
Qed.

(** In every run of [index.js], finished or not, the indices announced are
    1, 2, ..., [k] for some [k] within [MAX_MOVIES]. *)
Theorem Index_run_indices_consecutive (E : env) (w : world) :
  exists k,
    movie_indices (trace (snd (Index.scrapeMovies E w)))
      = movie_indices (trace w) ++ seq 1 k /\
    k <= MAX_MOVIES E.
Proof.
  unfold Index.scrapeMovies, scrapeMovies_with.
  destruct (Index_page_loop_consecutive E (MAX_MOVIES E + 2) 1 1 0 [] w)
    as (k & Htrace & Hcap).
  exists k. split; [|lia].
  unfold bind.
  destruct (page_loop E (Index.getMoviesList E) (MAX_MOVIES E + 2) 1 1 0 [] w)
    as [[movies|e] w1]; cbn [snd] in *; [|assumption].
  unfold try_catch, writeMoviesToCsv, emit. cbn [snd trace].
  rewrite movie_indices_app. cbn [movie_indices]. now rewrite app_nil_r.
Qed.

(* ================================================================== *)
(** ** C4: the index of a listing *)
(* ================================================================== *)

(** C4.  In the two scripts as they ship, the indices announced for the
    listings that get through are 1, 2, 3, ... in this order, without a
    gap, however many listings were skipped in between and however many
    rows a listing gives.  For [index.js] this holds under any cap, and
    the [id]s of the rows of a CSV file that is written are 1, 2, 3, ...
    as well.  For [part_000], whose page loop adds the number of rows to
    [startIndex], it holds because the cap is 2 there: a page that recorded
    more rows than listings leaves no index within the cap
    ([chunked_index_jumps_under_larger_cap] shows the jump under a cap
    of 3). *)
Theorem C4_indices_without_gap :
  forall (E E' : env) (w w' : world),
    MAX_MOVIES E = Chunked.MAX_MOVIES_source ->
    (exists k,
        movie_indices (trace (snd (Chunked.scrapeMovies E w)))
          = movie_indices (trace w) ++ seq 1 k /\
        k <= MAX_MOVIES E) /\
    (exists k,
        movie_indices (trace (snd (Index.scrapeMovies E' w')))
          = movie_indices (trace w') ++ seq 1 k /\
        k <= MAX_MOVIES E') /\
    (forall w1,
        Index.scrapeMovies E' w' = (Ok tt, w1) ->
        exists rows w0,
          w1 = logged (EvWriteCsv rows) w0 /\
          map row_id rows = seq 1 (List.length rows)).
Proof.
  intros E E' w w' Hcap. split; [|split].
  - unfold Chunked.scrapeMovies, scrapeMovies_with.
    assert (Hsmall : MAX_MOVIES E <= 2)
      by (rewrite Hcap; unfold Chunked.MAX_MOVIES_source; lia).
    destruct (@Chunked_page_loop_small_cap E Hsmall (MAX_MOVIES E + 2) 1 1 0 [] w
                (le_n 1))
      as (k & Htrace & Hbound).
    exists k. split; [|lia].
    unfold bind.
    destruct (page_loop E (Chunked.getMoviesList E) (MAX_MOVIES E + 2) 1 1 0 [] w)
      as [[movies|e] w1]; cbn [snd] in *; [|assumption].
    unfold try_catch, writeMoviesToCsv, emit. cbn [snd trace].
    rewrite movie_indices_app. cbn [movie_indices]. now rewrite app_nil_r.
  - unfold Index.scrapeMovies, scrapeMovies_with.
    destruct (Index_page_loop_consecutive E' (MAX_MOVIES E' + 2) 1 1 0 [] w')
      as (k & Htrace & Hbound).
    exists k. split; [|lia].
    unfold bind.
    destruct (page_loop E' (Index.getMoviesList E') (MAX_MOVIES E' + 2) 1 1 0 [] w')
      as [[movies|e] w1]; cbn [snd] in *; [|assumption].
    unfold try_catch, writeMoviesToCsv, emit. cbn [snd trace].
    rewrite movie_indices_app. cbn [movie_indices]. now rewrite app_nil_r.
  - intros w1. unfold Index.scrapeMovies, scrapeMovies_with. unfold bind at 1.
    destruct (page_loop E' (Index.getMoviesList E') _ _ _ _ _ w')
      as [[rows|e] w0] eqn:Hloop; [|discriminate].
    intros Hrun. exists rows, w0. split.
    + unfold try_catch, writeMoviesToCsv, emit in Hrun. now injection Hrun as <-.
    + now apply Index_page_loop_ids in Hloop.
Qed.

(** The theorem on two listings, one per page, each with a subtitle text of
    one chunk: both scripts announce 1 and 2. *)
Lemma C4_witness :
  let s := Sample.site_a_then_b (Sample.archive Sample.cue)
                                (Sample.archive Sample.cue) in
  let E := Sample.env_of Chunked.MAX_MOVIES_source s in
  let E' := Sample.env_of Index.MAX_MOVIES_source s in
  MAX_MOVIES E = Chunked.MAX_MOVIES_source /\
  movie_indices (trace (snd (Chunked.scrapeMovies E Sample.empty_world)))
    = [1; 2] /\
  movie_indices (trace (snd (Index.scrapeMovies E' Sample.empty_world)))
    = [1; 2] /\
  (exists k,
      movie_indices (trace (snd (Chunked.scrapeMovies E Sample.empty_world)))
        = movie_indices (trace Sample.empty_world) ++ seq 1 k /\
      k <= MAX_MOVIES E) /\
  (exists k,
      movie_indices (trace (snd (Index.scrapeMovies E' Sample.empty_world)))
        = movie_indices (trace Sample.empty_world) ++ seq 1 k /\
      k <= MAX_MOVIES E') /\
  (forall w1,
      Index.scrapeMovies E' Sample.empty_world = (Ok tt, w1) ->
      exists rows w0,
        w1 = logged (EvWriteCsv rows) w0 /\
        map row_id rows = seq 1 (List.length rows)).
Proof.
  intros s E E'.
  split; [reflexivity|]. split; [vm_compute; reflexivity|].
  split; [vm_compute; reflexivity|].
  exact (@C4_indices_without_gap E E' Sample.empty_world Sample.empty_world
           eq_refl).
Defined.

(* ================================================================== *)
(** ** How many listing pages a run fetches *)
(* ================================================================== *)

Section AnyEvent.

Variable P : event -> Prop.
Hypothesis helpers : forall e, helper_event e = true -> P e.
Hypothesis elements : forall i found, P (EvElement i found).
Hypothesis movies_announced : forall k, P (EvMovie k).

Ltac adds_any IH :=
  repeat first
    [ apply IH
    | apply adds_getEnglishSubtitleLink; exact helpers
    | apply adds_startDownload; exact helpers
    | apply adds_chunk_rows
    | apply adds_emit; first [apply elements | apply movies_announced]
    | apply adds_ret
    | apply adds_throw
    | apply adds_bind; [|intros]
    | match goal with
      | |- adds _ (eval_selector ?x) => destruct x; cbn [eval_selector]
      | |- adds _ (match ?x with _ => _ end) => destruct x
      end ].

Lemma adds_Chunked_listing_loop (E : env) (movieList : list listing) :
  forall n i movieIndex movies,
    adds P (Chunked.listing_loop E movieList n i movieIndex movies).
Proof.
  induction n as [|n IH]; intros i movieIndex movies;
    cbn [Chunked.listing_loop]; [apply adds_ret|].
  cbv zeta. adds_any IH.
Qed.

Lemma adds_Index_listing_loop (E : env) (movieList : list listing) :
  forall n i movieIndex movies,
    adds P (Index.listing_loop E movieList n i movieIndex movies).
Proof.
  induction n as [|n IH]; intros i movieIndex movies;
    cbn [Index.listing_loop]; [apply adds_ret|].
  cbv zeta. adds_any IH.
Qed.

End AnyEvent.

Lemma pages_fetched_app (a b : list event) :
  pages_fetched (a ++ b) = pages_fetched a + pages_fetched b.
Proof.
  induction a as [|e a IH]; [reflexivity|].
  destruct e; cbn [app pages_fetched]; rewrite IH; reflexivity.
Qed.

Lemma pages_fetched_none (evs : list event) :
  Forall (fun e => is_browse e = false) evs -> pages_fetched evs = 0.
Proof.
  induction 1 as [|e evs He _ IH]; [reflexivity|].
  destruct e; cbn [pages_fetched]; try assumption. discriminate He.
Qed.

Lemma helpers_fetch_no_page (e : event) :
  helper_event e = true -> is_browse e = false.
Proof. destruct e; cbn; congruence. Qed.

(** Each call of [getMoviesList] fetches one listing page. *)
Lemma Chunked_getMoviesList_fetches_one (E : env) (page startIndex : nat) (w : world) :
  pages_fetched (trace (snd (Chunked.getMoviesList E page startIndex w)))
    = S (pages_fetched (trace w)).
Proof.
  unfold Chunked.getMoviesList. unfold bind at 1. unfold emit at 1.
  destruct (browse (site E) page) as [[|movie rest]|];
    try (cbn [snd trace ret throw]; rewrite pages_fetched_app; cbn; lia).
  unfold bind.
  match goal with |- context [Chunked.listing_loop E ?ml ?n ?i ?idx ?ms ?w1] =>
    destruct (@adds_Chunked_listing_loop (fun e => is_browse e = false)
                helpers_fetch_no_page (fun _ _ => eq_refl) (fun _ => eq_refl)
                E ml n i idx ms w1) as (evs & Htrace & Hevs);
    destruct (Chunked.listing_loop E ml n i idx ms w1) as [[out|e] w2]
  end; cbn [snd trace ret] in *;
    rewrite Htrace, !pages_fetched_app, (pages_fetched_none Hevs); cbn; lia.
Qed.

Lemma Index_getMoviesList_fetches_one (E : env) (page startIndex : nat) (w : world) :
  pages_fetched (trace (snd (Index.getMoviesList E page startIndex w)))
    = S (pages_fetched (trace w)).
Proof.
  unfold Index.getMoviesList. unfold bind at 1. unfold emit at 1.
  destruct (browse (site E) page) as [[|movie rest]|];
    try (cbn [snd trace ret throw]; rewrite pages_fetched_app; cbn; lia).
  unfold bind.
  match goal with |- context [Index.listing_loop E ?ml ?n ?i ?idx ?ms ?w1] =>
    destruct (@adds_Index_listing_loop (fun e => is_browse e = false)
                helpers_fetch_no_page (fun _ _ => eq_refl) (fun _ => eq_refl)
                E ml n i idx ms w1) as (evs & Htrace & Hevs);
    destruct (Index.listing_loop E ml n i idx ms w1) as [[out|e] w2]
  end; cbn [snd trace ret] in *;
    rewrite Htrace, !pages_fetched_app, (pages_fetched_none Hevs); cbn; lia.
Qed.

(** Every page that does not end the loop adds a record to [movieCount],
    and the loop goes on only while [movieCount <= MAX_MOVIES]. *)
Lemma page_loop_fetches (E : env)
    (getMoviesList : nat -> nat -> M (option (list record))) :
  (forall page startIndex w,
      pages_fetched (trace (snd (getMoviesList page startIndex w)))
        = S (pages_fetched (trace w))) ->
  forall fuel page startIndex movieCount movies w,
    pages_fetched
      (trace (snd (page_loop E getMoviesList fuel page startIndex movieCount
                     movies w)))
      <= pages_fetched (trace w) + (S (MAX_MOVIES E) - movieCount).
Proof.
  intros Hget. induction fuel as [|fuel IH];
    intros page startIndex movieCount movies w; cbn [page_loop];
    [cbn; lia|].
  destruct (movieCount <=? MAX_MOVIES E) eqn:Hcap; [|cbn; lia].
  apply Nat.leb_le in Hcap. unfold bind.
  specialize (Hget page startIndex w).
  destruct (getMoviesList page startIndex w) as [[[[|r l]|]|e] w1];
    cbn [snd trace ret throw] in *; try lia.
  etransitivity; [apply IH|]. cbn [List.length]. lia.
Qed.

(** A run of [index.js] or of [part_000] fetches at most [MAX_MOVIES + 1]
    listing pages, however long the catalogue is. *)
Theorem run_fetches_bounded_pages (E : env) (w : world) :
  pages_fetched (trace (snd (Chunked.scrapeMovies E w)))
    <= pages_fetched (trace w) + MAX_MOVIES E + 1 /\
  pages_fetched (trace (snd (Index.scrapeMovies E w)))
    <= pages_fetched (trace w) + MAX_MOVIES E + 1.
Proof.
  assert (Hrun : forall getMoviesList,
             (forall page startIndex w,
                 pages_fetched (trace (snd (getMoviesList page startIndex w)))
                   = S (pages_fetched (trace w))) ->
             pages_fetched (trace (snd (scrapeMovies_with E getMoviesList w)))
               <= pages_fetched (trace w) + MAX_MOVIES E + 1).
  { intros getMoviesList Hget. unfold scrapeMovies_with, bind.
    pose proof (page_loop_fetches E getMoviesList Hget
                  (MAX_MOVIES E + 2) 1 1 0 [] w) as Hloop.
    destruct (page_loop E getMoviesList (MAX_MOVIES E + 2) 1 1 0 [] w)
      as [[movies|e] w1]; cbn [snd] in *; [|lia].
    unfold try_catch, writeMoviesToCsv, emit. cbn [snd trace].
    rewrite pages_fetched_app. cbn. lia. }
  split; apply Hrun.
  - apply Chunked_getMoviesList_fetches_one.
  - apply Index_getMoviesList_fetches_one.
Qed.

(* ================================================================== *)
(** ** The two ways to the file name *)
(* ================================================================== *)

(** [startDownload] takes the file name off the URL with
    [url.split("/").pop()], [downloadSubtitles] with
    [url.substring(url.lastIndexOf("/") + 1)]: the two agree on every URL,
    so the archive [downloadSubtitles] opens after the wait is the file
    whose presence [startDownload] tested. *)
Theorem file_name_derivations_agree (E : env) (url : jsstring) :
  after_last 47 url = fileName_of url /\
  path_join E (movieFolder_of E url) (after_last 47 url ++ lit ".zip")
    = filePath_of E url.
Proof.
  split; [apply after_last_is_pop_split|apply downloaded_path].
Qed.

(* ================================================================== *)
(** ** The cap and the page after it *)
(* ================================================================== *)

(** Once the running index has passed the cap while the record count has
    not, the page loop still fetches the next listing page; when that page
    has listings, none of them is read and the loop ends with the records
    it has. *)
Theorem cap_reached_fetches_one_more_page :
  forall (E : env) (fuel page startIndex movieCount : nat)
         (movies : list record) (w : world) (movie : listing) (rest : list listing),
    movieCount <= MAX_MOVIES E ->
    MAX_MOVIES E < startIndex ->
    browse (site E) page = Some (movie :: rest) ->
    page_loop E (Chunked.getMoviesList E) (S fuel) page startIndex movieCount
        movies w
      = (Ok movies, logged (EvGotoBrowse page) w) /\
    page_loop E (Index.getMoviesList E) (S fuel) page startIndex movieCount
        movies w
      = (Ok movies, logged (EvGotoBrowse page) w).
Proof.
  intros E fuel page startIndex movieCount movies w movie rest Hcount Hcap Hpage.
  apply Nat.leb_le in Hcount. apply Nat.leb_gt in Hcap.
  split; cbn [page_loop]; rewrite Hcount; unfold bind at 1.
  - unfold Chunked.getMoviesList. unfold bind at 1. unfold emit at 1.
    rewrite Hpage. cbn [List.length Chunked.listing_loop]. rewrite Hcap.
    reflexivity.
  - unfold Index.getMoviesList. unfold bind at 1. unfold emit at 1.
    rewrite Hpage. cbn [List.length Nat.add Index.listing_loop]. rewrite Hcap.
    reflexivity.
Qed.

Lemma cap_reached_fetches_one_more_page_witness :
  let E := Sample.env_of 1
             (Sample.site_a_then_b (Sample.archive Sample.cue)
                                   (Sample.archive Sample.cue)) in
  1 <= MAX_MOVIES E /\ MAX_MOVIES E < 2 /\
  browse (site E) 2 = Some [Sample.movie "Movie B" Sample.link_b] /\
  page_loop E (Chunked.getMoviesList E) 1 2 2 1 [] Sample.empty_world
    = (Ok [], logged (EvGotoBrowse 2) Sample.empty_world) /\
  page_loop E (Index.getMoviesList E) 1 2 2 1 [] Sample.empty_world
    = (Ok [], logged (EvGotoBrowse 2) Sample.empty_world).
Proof.
  intros E.
  assert (H1 : 1 <= MAX_MOVIES E) by (vm_compute; lia).
  assert (H2 : MAX_MOVIES E < 2) by (vm_compute; lia).
  assert (H3 : browse (site E) 2 = Some [Sample.movie "Movie B" Sample.link_b])
    by reflexivity.
  split; [exact H1|]. split; [exact H2|]. split; [exact H3|].
  exact (@cap_reached_fetches_one_more_page E 0 2 2 1 [] Sample.empty_world
           _ _ H1 H2 H3).
Defined.

(* ================================================================== *)
(** ** The draft, [part_001] *)
(* ================================================================== *)

Section DraftRun.

Variable E : env.
Variable H : Draft.host.

Lemma Draft_startDownload_body (url : jsstring) (w : world) :
  Draft.startDownload E H (Some url) w
    = (ensure E (subtitlesDir_of E) ;;
       ensure E (movieFolder_of E url) ;;
       draft_fetch E H url)%js w.
Proof.
  unfold Draft.startDownload. cbv zeta.
  rewrite after_last_is_pop_split. fold (fileName_of url).
  symmetry. unfold ensure. rewrite bind_assoc.
  apply bind_ext. intros found w1. apply bind_ext. intros _ w2.
  rewrite bind_assoc. reflexivity.
Qed.

Lemma Draft_startDownload_unfold (url : jsstring) (w : world) :
  ready E url w = true ->
  Draft.startDownload E H (Some url) w = draft_fetch E H url (prepared E url w).
Proof.
  intros Hready. apply andb_prop in Hready as [Hdir Hfolder].
  rewrite Draft_startDownload_body. unfold prepared.
  unfold bind at 1. rewrite (ensure_makeable _ _ _ Hdir).
  unfold bind at 1. rewrite (ensure_makeable _ _ _ Hfolder). reflexivity.
Qed.

(** Nothing catches the exception of a directory that cannot be made. *)
Lemma Draft_startDownload_not_ready (url : jsstring) (w : world) :
  ready E url w = false ->
  exists e w', Draft.startDownload E H (Some url) w = (Throw e, w').
Proof.
  intros Hready. rewrite Draft_startDownload_body.
  unfold bind at 1. unfold ready in Hready.
  destruct (makeable E (subtitlesDir_of E) w) eqn:Hdir.
  - rewrite (ensure_makeable _ _ _ Hdir). cbn [andb] in Hready.
    unfold bind at 1.
    destruct (ensure_unmakeable _ _ _ Hready) as (e & ->). eauto.
  - destruct (ensure_unmakeable _ _ _ Hdir) as (e & ->). eauto.
Qed.

(** What the draft's loop does with a listing up to the resolver's
    answer. *)
Lemma Draft_turn (movie : listing) (rest : list listing) (movieIndex : nat)
    (movies : list Draft.movie_row) (w : world)
    (movieName movieLink : jsstring) (rows : list row) :
  reads_detail E movie movieIndex movieName movieLink rows ->
  Draft.listing_loop E H (movie :: rest) movieIndex movies w =
    (downloadData <- Draft.startDownload E H (first_english rows) ;;
     text <- Draft.parse_and_convert H downloadData ;;
     match first_english rows with
     | None => Draft.listing_loop E H rest movieIndex movies
     | Some url =>
         emit (EvMovie movieIndex) ;;
         Draft.listing_loop E H rest (movieIndex + 1)
           (movies ++ [ {| Draft.name := movieName; Draft.link := movieLink;
                           Draft.subtitleLink := url; Draft.subtitle := text |} ])
     end)%js (logged (EvGotoDetail movieLink) w).
Proof.
  intros (Hcap & Hname & Hlink & Hpage & Hrows).
  cbn [Draft.listing_loop].
  assert (Hlt : (MAX_MOVIES E <? movieIndex) = false) by (apply Nat.ltb_ge; lia).
  rewrite Hlt, Hname, Hlink. cbn [eval_selector].
  unfold bind at 1. unfold ret at 1.
  unfold bind at 1. unfold ret at 1.
  unfold bind at 1. unfold emit at 1.
  rewrite Hpage. unfold bind at 1. unfold ret at 1.
  unfold bind at 1. unfold Draft.getEnglishSubtitleLink. cbn [other_subs].
  rewrite (find_english_spec _ Hrows). reflexivity.
Qed.

(** The draft calls [startDownload] before it tests the link: a listing
    whose table has no English row makes [url.substring] raise a
    [TypeError] on [null], and nothing in the draft catches it. *)
Theorem Draft_listing_without_english_row_throws :
  forall (movie : listing) (rest : list listing) (movieIndex : nat)
         (movies : list Draft.movie_row) (w : world)
         (movieName movieLink : jsstring) (rows : list row),
    reads_detail E movie movieIndex movieName movieLink rows ->
    first_english rows = None ->
    Draft.listing_loop E H (movie :: rest) movieIndex movies w
      = (Throw TypeError, logged (EvGotoDetail movieLink) w).
Proof.
  intros movie rest movieIndex movies w movieName movieLink rows Hreads Hnone.
  rewrite (Draft_turn rest movies w Hreads), Hnone. reflexivity.
Qed.

Section DraftAdds.

Variable P : event -> Prop.
Hypothesis helpers : forall e, helper_event e = true -> P e.

Lemma adds_Draft_readFileSync (path : jsstring) :
  adds P (Draft.readFileSync E H path).
Proof.
  intros w. exists []. split; [|constructor]. rewrite app_nil_r.
  unfold Draft.readFileSync. destruct (fs w path) as [[| |]|]; reflexivity.
Qed.

Lemma adds_Draft_extractSubtitles (filePath dir : jsstring) :
  adds P (Draft.extractSubtitles E H filePath dir).
Proof.
  unfold Draft.extractSubtitles.
  apply adds_bind; [apply adds_emit; now apply helpers|intros _].
  apply adds_bind.
  - intros w. exists []. split; [|constructor]. rewrite app_nil_r.
    destruct (fs w filePath) as [[|entries|]|]; try reflexivity.
    cbv zeta. destruct (fst (extractAllTo E dir entries (fs w))); reflexivity.
  - intros entries. destruct (subtitleEntry entries); [|apply adds_throw].
    cbv zeta. apply adds_bind; [apply adds_Draft_readFileSync|].
    intros data. apply adds_ret.
Qed.

Lemma adds_Draft_downloadSubtitles (url dir : jsstring) :
  adds P (Draft.downloadSubtitles E H url dir).
Proof.
  unfold Draft.downloadSubtitles.
  apply adds_bind; [apply adds_emit; now apply helpers|intros _].
  destruct (download (site E) url); try apply adds_throw.
  apply adds_bind; [apply adds_emit; now apply helpers|intros _].
  apply adds_bind; [now apply adds_waitForTimeout|intros _].
  apply adds_bind; [apply adds_emit; now apply helpers|intros _].
  cbv zeta. apply adds_Draft_extractSubtitles.
Qed.

Lemma adds_Draft_startDownload (url : option jsstring) :
  adds P (Draft.startDownload E H url).
Proof.
  unfold Draft.startDownload. destruct url as [url|]; [|apply adds_throw].
  cbv zeta.
  repeat first
    [ apply adds_existsSync; exact helpers
    | apply adds_mkdirSync
    | apply adds_Draft_downloadSubtitles
    | apply adds_Draft_extractSubtitles
    | apply adds_ret
    | apply adds_bind; [|intros]
    | match goal with
      | |- adds _ (if ?b then _ else _) => destruct b
      end ].
Qed.

End DraftAdds.

(** On a cache miss the draft's [startDownload] has no value to return. *)
Lemma Draft_miss_no_data (url : jsstring) (w : world) :
  cache_miss E url w ->
  forall r w', Draft.startDownload E H (Some url) w = (Ok r, w') -> r = None.
Proof.
  intros Hmiss r w'.
  destruct (ready E url w) eqn:Hready.
  - rewrite (Draft_startDownload_unfold _ _ Hready). unfold draft_fetch.
    unfold bind at 1. unfold existsSync. rewrite (prepared_miss Hmiss).
    cbn [negb]. unfold bind at 1.
    match goal with |- context [Draft.downloadSubtitles E H url ?dir ?w1] =>
      destruct (Draft.downloadSubtitles E H url dir w1) as [[data|e] w2] end;
      unfold ret; congruence.
  - destruct (Draft_startDownload_not_ready _ _ Hready) as (e & w2 & ->).
    discriminate.
Qed.

(** On a cache miss the draft's [startDownload] ends without [return]: the
    listing loop gets [undefined], [JSON.parse] rejects it, and the listing
    that has just been downloaded ends the loop with an exception instead of
    being recorded. *)
Theorem Draft_cache_miss_throws :
  forall (movie : listing) (rest : list listing) (movieIndex : nat)
         (movies : list Draft.movie_row) (w : world)
         (movieName movieLink url : jsstring) (rows : list row),
    reads_detail E movie movieIndex movieName movieLink rows ->
    first_english rows = Some url ->
    cache_miss E url (logged (EvGotoDetail movieLink) w) ->
    exists e w',
      Draft.listing_loop E H (movie :: rest) movieIndex movies w = (Throw e, w') /\
      movie_indices (trace w') = movie_indices (trace w).
Proof.
  intros movie rest movieIndex movies w movieName movieLink url rows
         Hreads Hsome Hmiss.
  rewrite (Draft_turn rest movies w Hreads), Hsome.
  unfold bind at 1.
  pose proof (@Draft_miss_no_data url _ Hmiss) as Hnone.
  destruct (@adds_Draft_startDownload (fun e => is_movie e = false)
              helpers_are_silent (Some url)
              (logged (EvGotoDetail movieLink) w)) as (evs & Htrace & Hevs).
  destruct (Draft.startDownload E H (Some url)
              (logged (EvGotoDetail movieLink) w)) as [[r|e] w2];
    cbn [snd logged trace] in Htrace.
  - rewrite (Hnone r w2 eq_refl). unfold bind at 1.
    cbn [Draft.parse_and_convert]. unfold throw.
    do 2 eexists. split; [reflexivity|].
    rewrite Htrace, !movie_indices_app, (movie_indices_silent Hevs). cbn.
    now rewrite !app_nil_r.
  - do 2 eexists. split; [reflexivity|].
    rewrite Htrace, !movie_indices_app, (movie_indices_silent Hevs). cbn.
    now rewrite !app_nil_r.
Qed.

(** On a cache hit the draft unpacks the archive again, reads the first
    [.srt] entry back from the disk and, when [JSON.parse] undoes
    [JSON.stringify] on that text, records the listing under the current
    index with the text stripped of its backslashes, without any transfer.
    The unpacking has to go through; the entry is read under its base name,
    so it has to lie at the top of the archive, and no later entry may be
    unpacked onto it. *)
Theorem Draft_cache_hit_records_listing :
  forall (movie : listing) (rest : list listing) (movieIndex : nat)
         (movies : list Draft.movie_row) (w : world)
         (movieName movieLink url : jsstring) (rows : list row)
         (before after : list zip_entry) (entry : zip_entry),
    reads_detail E movie movieIndex movieName movieLink rows ->
    first_english rows = Some url ->
    cached E url w = true ->
    fs w (filePath_of E url) = Some (Archive (before ++ entry :: after)) ->
    fst (extractAllTo E (movieFolder_of E url) (before ++ entry :: after) (fs w))
      = None ->
    Forall (fun e => endsWith (entryName e) (lit ".srt") = false) before ->
    endsWith (entryName entry) (lit ".srt") = true ->
    Draft.basename H (entryName entry) = entryName entry ->
    Forall (fun e => jsstring_eqb
                       (path_join E (movieFolder_of E url) (entryName entry))
                       (path_join E (movieFolder_of E url) (entryName e)) = false)
      after ->
    Draft.parse H (Draft.stringify H (utf8_decode E (getData entry)))
      = Draft.ParsedString (utf8_decode E (getData entry)) ->
    exists w',
      Draft.listing_loop E H (movie :: rest) movieIndex movies w
        = Draft.listing_loop E H rest (movieIndex + 1)
            (movies ++ [ {| Draft.name := movieName;
                            Draft.link := movieLink;
                            Draft.subtitleLink := url;
                            Draft.subtitle :=
                              Draft.convert (utf8_decode E (getData entry)) |} ])
            w' /\
      movie_indices (trace w') = movie_indices (trace w) ++ [movieIndex] /\
      filter is_transfer (trace w') = filter is_transfer (trace w).
Proof.
  intros movie rest movieIndex movies w movieName movieLink url rows
         before after entry Hreads Hsome Hcached Hfile Hok Hbefore Hentry Hbase
         Hafter Hjson.
  rewrite (Draft_turn rest movies w Hreads), Hsome.
  assert (Hcached' : cached E url (logged (EvGotoDetail movieLink) w) = true)
    by exact Hcached.
  destruct (cached_ready _ _ _ Hcached') as [Hready Hprep].
  unfold bind at 1. rewrite (Draft_startDownload_unfold _ _ Hready), Hprep.
  unfold draft_fetch. unfold bind at 1. unfold existsSync.
  cbn [logged fs trace]. rewrite Hfile. cbn [negb].
  unfold bind at 1. unfold Draft.extractSubtitles.
  unfold bind at 1. unfold emit at 1. unfold bind at 1. cbn [fs trace].
  rewrite Hfile. cbv zeta. rewrite Hok.
  rewrite (@subtitleEntry_first before after entry Hbefore Hentry).
  unfold bind at 1. unfold Draft.readFileSync. cbn [fs trace].
  assert (Hdisk : snd (extractAllTo E (movieFolder_of E url)
                         (before ++ entry :: after) (fs w))
                    (path_join E (movieFolder_of E url) (entryName entry))
                  = Some (Plain (getData entry))).
  { unfold extractAllTo in *.
    destruct (unpack_error E (movieFolder_of E url) (before ++ entry :: after)
                (fs w)); [discriminate Hok|].
    apply unpack_written; [now apply srt_is_file|assumption|assumption]. }
  rewrite Hbase, Hdisk.
  unfold ret at 1. unfold ret at 1. unfold bind at 1.
  cbn [Draft.parse_and_convert]. rewrite Hjson. unfold ret at 1.
  unfold bind at 1. unfold emit at 1. cbn [fs trace].
  eexists. split; [reflexivity|]. cbn [trace]. split.
  - rewrite !movie_indices_app. cbn. now rewrite !app_nil_r.
  - rewrite !filter_app. cbn. now rewrite !app_nil_r.
Qed.

(** A page without listings gives the draft's [getMoviesList] the empty
    array, on whose length the page loop breaks: the run goes on to write
    the rows it has. *)
Theorem Draft_empty_page_ends_loop :
  forall (fuel page startIndex movieCount : nat)
         (movies : list Draft.movie_row) (w : world),
    browse (site E) page = Some [] ->
    movieCount <= MAX_MOVIES E ->
    Draft.page_loop E H (S fuel) page startIndex movieCount movies w
      = (Ok movies, logged (EvGotoBrowse page) w).
Proof.
  intros fuel page startIndex movieCount movies w Hpage Hcount.
  cbn [Draft.page_loop]. apply Nat.leb_le in Hcount. rewrite Hcount.
  unfold bind at 1. unfold Draft.getMoviesList. unfold bind at 1.
  unfold emit at 1. rewrite Hpage. reflexivity.
Qed.

End DraftRun.

(* ------------------------------------------------------------------ *)
(** *** A directory that cannot be made *)

(** When one of the two directories is missing and cannot be made, because
    the directory it lies in is missing or is a file, [fs.mkdirSync]
    throws: [startDownload] of [index.js] and [part_000] catches the
    exception and answers [null] without any transfer, the draft lets it
    through. *)
Theorem startDownload_without_directory :
  forall (E : env) (H : Draft.host) (url : jsstring) (w : world),
    ready E url w = false ->
    (exists w',
        startDownload E url w = (Ok None, w') /\
        filter is_transfer (trace w') = filter is_transfer (trace w)) /\
    (exists e w', Draft.startDownload E H (Some url) w = (Throw e, w')).
Proof.
  intros E H url w Hready. split.
  - exact (startDownload_not_ready _ _ _ Hready).
  - exact (Draft_startDownload_not_ready E H _ _ Hready).
Qed.

(** [subtitles] is a file in the working directory. *)
Lemma startDownload_without_directory_witness :
  let E := Sample.env_of Chunked.MAX_MOVIES_source
             (Sample.site_a (Sample.archive Sample.cue)) in
  let w := {| fs := fs_write (lit Sample.subtitles_dir) (Plain (lit "notes"))
                      (fs Sample.empty_world);
              trace := [] |} in
  ready E (lit Sample.sub_a) w = false /\
  trace (snd (startDownload E (lit Sample.sub_a) w))
    = [ EvExistsSync (lit Sample.subtitles_dir) true;
        EvExistsSync (lit Sample.folder_a) false ] /\
  (exists w',
      startDownload E (lit Sample.sub_a) w = (Ok None, w') /\
      filter is_transfer (trace w') = filter is_transfer (trace w)) /\
  (exists e w',
      Draft.startDownload E SampleDraft.host (Some (lit Sample.sub_a)) w
        = (Throw e, w')).
Proof.
  intros E w.
  assert (H0 : ready E (lit Sample.sub_a) w = false) by (vm_compute; reflexivity).
  split; [exact H0|]. split; [vm_compute; reflexivity|].
  exact (@startDownload_without_directory E SampleDraft.host (lit Sample.sub_a)
           w H0).
Defined.

(** An archive that does not unpack: the listing is skipped by [part_000]
    although the archive holds a subtitle document. *)
Example clashing_archive_is_skipped :
  let E := Sample.env_of Chunked.MAX_MOVIES_source
             (Sample.site_ab (Sample.archive_with_clash Sample.cue)
                             (Sample.archive Sample.long_text)) in
  fst (startDownload E (lit Sample.sub_a) Sample.empty_world) = Ok None /\
  Sample.outcome (Chunked.scrapeMovies E Sample.empty_world)
    = (Ok tt, [1], [Sample.long_rows "Movie B"]).
Proof.
  cbv zeta. split; vm_compute; reflexivity.
Qed.

(** What the draft stores of a text without backslash is the text itself,
    line breaks, cue numbers and time codes included. *)
Theorem Draft_convert_without_backslash (s : jsstring) :
  Forall (fun c => c <> 92%N) s -> Draft.convert s = s.
Proof.
  intros Hplain. unfold Draft.convert, replace_all.
  assert (Hhead : forall c t, c <> 92%N -> Forall (fun c => c <> 92%N) t ->
                              exec Draft.re_escaped_crlf (c :: t) = None).
  { intros c t Hc _. unfold exec, Draft.re_escaped_crlf. cbn [Lit matcher].
    unfold is_char. apply N.eqb_neq in Hc. now rewrite Hc. }
  assert (Hhead' : forall c t, c <> 92%N -> Forall (fun c => c <> 92%N) t ->
                               exec Draft.re_backslashes (c :: t) = None).
  { intros c t Hc _. unfold exec, Draft.re_backslashes. cbn [matcher].
    unfold is_char. apply N.eqb_neq in Hc. now rewrite Hc. }
  rewrite (@replace_go_untouched Draft.re_escaped_crlf (lit " ")
             (fun c => c <> 92%N) eq_refl Hhead s Hplain).
  exact (@replace_go_untouched Draft.re_backslashes []
           (fun c => c <> 92%N) eq_refl Hhead' s Hplain).
Qed.

Lemma Draft_convert_without_backslash_witness :
  Forall (fun c => c <> 92%N) Sample.cue /\
  Draft.convert Sample.cue = Sample.cue.
Proof.
  assert (H : Forall (fun c => c <> 92%N) Sample.cue)
    by (unfold Sample.cue; cbn [lit]; repeat constructor; discriminate).
  split; [exact H|]. exact (Draft_convert_without_backslash H).
Defined.

(** Listing A has French subtitles only. *)
Lemma Draft_listing_without_english_row_throws_witness :
  let E := Sample.env_of Draft.MAX_MOVIES_source SampleDraft.site_french in
  let rows :=
    [ {| sub_lang := Some (lit "French");
         subtitle_download := Some (lit "https://yts-subs.com/subtitles/french") |} ] in
  reads_detail E (Sample.movie "Movie A" Sample.link_a) 1
    (lit "Movie A") (lit Sample.link_a) rows /\
  first_english rows = None /\
  Draft.listing_loop E SampleDraft.host [Sample.movie "Movie A" Sample.link_a]
      1 [] Sample.on_page_1
    = (Throw TypeError, logged (EvGotoDetail (lit Sample.link_a)) Sample.on_page_1).
Proof.
  intros E rows.
  assert (H1 : reads_detail E (Sample.movie "Movie A" Sample.link_a) 1
                 (lit "Movie A") (lit Sample.link_a) rows).
  { split; [vm_compute; lia|]. split; [reflexivity|]. split; [reflexivity|].
    split; [vm_compute; reflexivity|]. repeat constructor; discriminate. }
  assert (H2 : first_english rows = None) by (vm_compute; reflexivity).
  split; [exact H1|]. split; [exact H2|].
  exact (@Draft_listing_without_english_row_throws E SampleDraft.host _ []
           1 [] Sample.on_page_1 _ _ rows H1 H2).
Defined.

(** The first run of the draft on listing A, from an empty disk. *)
Lemma Draft_cache_miss_throws_witness :
  let E := Sample.env_of Draft.MAX_MOVIES_source
             (Sample.site_a (Sample.archive Sample.cue)) in
  let rows :=
    [ {| sub_lang := Some (lit "French");
         subtitle_download := Some (lit "https://yts-subs.com/subtitles/french") |};
      {| sub_lang := Some (lit "  English ");
         subtitle_download := Some (lit Sample.sub_a) |} ] in
  reads_detail E (Sample.movie "Movie A" Sample.link_a) 1
    (lit "Movie A") (lit Sample.link_a) rows /\
  first_english rows = Some (lit Sample.sub_a) /\
  cache_miss E (lit Sample.sub_a)
    (logged (EvGotoDetail (lit Sample.link_a)) Sample.on_page_1) /\
  fst (Draft.listing_loop E SampleDraft.host
         [Sample.movie "Movie A" Sample.link_a] 1 [] Sample.on_page_1)
    = Throw (Error "SyntaxError: undefined is not valid JSON") /\
  exists e w',
    Draft.listing_loop E SampleDraft.host
        [Sample.movie "Movie A" Sample.link_a] 1 [] Sample.on_page_1
      = (Throw e, w') /\
    movie_indices (trace w') = movie_indices (trace Sample.on_page_1).
Proof.
  intros E rows.
  assert (H1 : reads_detail E (Sample.movie "Movie A" Sample.link_a) 1
                 (lit "Movie A") (lit Sample.link_a) rows).
  { split; [vm_compute; lia|]. split; [reflexivity|]. split; [reflexivity|].
    split; [vm_compute; reflexivity|]. repeat constructor; discriminate. }
  assert (H2 : first_english rows = Some (lit Sample.sub_a))
    by (vm_compute; reflexivity).
  assert (H3 : cache_miss E (lit Sample.sub_a)
                 (logged (EvGotoDetail (lit Sample.link_a)) Sample.on_page_1))
    by (repeat split; vm_compute; reflexivity).
  split; [exact H1|]. split; [exact H2|]. split; [exact H3|].
  split; [vm_compute; reflexivity|].
  exact (@Draft_cache_miss_throws E SampleDraft.host _ [] 1 []
           Sample.on_page_1 _ _ _ rows H1 H2 H3).
Defined.

(** The second run of the draft on listing A, with the archive on disk. *)
Lemma Draft_cache_hit_records_listing_witness :
  let E := Sample.env_of Draft.MAX_MOVIES_source
             (Sample.site_a (Sample.archive Sample.cue)) in
  let rows :=
    [ {| sub_lang := Some (lit "French");
         subtitle_download := Some (lit "https://yts-subs.com/subtitles/french") |};
      {| sub_lang := Some (lit "  English ");
         subtitle_download := Some (lit Sample.sub_a) |} ] in
  let w := SampleDraft.cached_a (Sample.archive Sample.cue) in
  reads_detail E (Sample.movie "Movie A" Sample.link_a) 1
    (lit "Movie A") (lit Sample.link_a) rows /\
  cached E (lit Sample.sub_a) w = true /\
  fs w (filePath_of E (lit Sample.sub_a)) = Some (Sample.archive Sample.cue) /\
  exists w',
    Draft.listing_loop E SampleDraft.host
        [Sample.movie "Movie A" Sample.link_a] 1 [] w
      = Draft.listing_loop E SampleDraft.host [] (1 + 1)
          ([] ++ [ {| Draft.name := lit "Movie A";
                      Draft.link := lit Sample.link_a;
                      Draft.subtitleLink := lit Sample.sub_a;
                      Draft.subtitle := Draft.convert Sample.cue |} ])
          w' /\
    movie_indices (trace w') = movie_indices (trace w) ++ [1] /\
    filter is_transfer (trace w') = filter is_transfer (trace w).
Proof.
  intros E rows w.
  assert (H1 : reads_detail E (Sample.movie "Movie A" Sample.link_a) 1
                 (lit "Movie A") (lit Sample.link_a) rows).
  { split; [vm_compute; lia|]. split; [reflexivity|]. split; [reflexivity|].
    split; [vm_compute; reflexivity|]. repeat constructor; discriminate. }
  assert (H2 : fs w (filePath_of E (lit Sample.sub_a))
               = Some (Sample.archive Sample.cue))
    by (vm_compute; reflexivity).
  assert (H3 : cached E (lit Sample.sub_a) w = true)
    by (vm_compute; reflexivity).
  split; [exact H1|]. split; [exact H3|]. split; [exact H2|].
  refine (@Draft_cache_hit_records_listing E SampleDraft.host _ [] 1 [] w
            (lit "Movie A") (lit Sample.link_a) (lit Sample.sub_a) rows
            [ {| entryName := lit "info.nfo"; getData := lit "release notes" |} ]
            [ {| entryName := lit "readme.txt"; getData := lit "read me" |} ]
            {| entryName := lit "movie.srt"; getData := Sample.cue |}
            H1 _ H3 H2 _ _ _ _ _ _).
  - vm_compute. reflexivity.
  - vm_compute. reflexivity.
  - repeat constructor.
  - vm_compute. reflexivity.
  - vm_compute. reflexivity.
  - repeat constructor.
  - vm_compute. reflexivity.
Defined.

(** Page 2 of the sample site has no listing. *)
Lemma Draft_empty_page_ends_loop_witness :
  let E := Sample.env_of Draft.MAX_MOVIES_source
             (Sample.site_a (Sample.archive Sample.cue)) in
  browse (site E) 2 = Some [] /\
  0 <= MAX_MOVIES E /\
  Draft.page_loop E SampleDraft.host 1 2 1 0 [] Sample.empty_world
    = (Ok [], logged (EvGotoBrowse 2) Sample.empty_world).
Proof.
  intros E.
  assert (H1 : browse (site E) 2 = Some []) by reflexivity.
  assert (H2 : 0 <= MAX_MOVIES E) by (vm_compute; lia).
  split; [exact H1|]. split; [exact H2|].
  exact (@Draft_empty_page_ends_loop E SampleDraft.host 0 2 1 0 []
           Sample.empty_world H1 H2).
Defined.

(* ------------------------------------------------------------------ *)
(** *** The draft's page loop never runs out of fuel *)

Section DraftFuel.

Variable E : env.
Variable H : Draft.host.

Lemma fuelled_waitForTimeout (delay : N) (dir name : jsstring) (content : node)
    (ms : N) :
  fuelled (waitForTimeout E delay dir name content ms).
Proof.
  unfold waitForTimeout. apply fuelled_bind; [apply fuelled_emit|].
  intros _ w. destruct (ms <=? delay)%N; [destruct (fs w _)|];
    try discriminate.
  destruct (fs w dir) as [[| |]|]; discriminate.
Qed.

Lemma fuelled_Draft_extractSubtitles (filePath dir : jsstring) :
  fuelled (Draft.extractSubtitles E H filePath dir).
Proof.
  unfold Draft.extractSubtitles.
  apply fuelled_bind; [apply fuelled_emit|intros _].
  apply fuelled_bind.
  - intros w. destruct (fs w filePath) as [[|entries|]|]; try discriminate.
    cbv zeta. destruct (fst (extractAllTo E dir entries (fs w))); discriminate.
  - intros entries. destruct (subtitleEntry entries);
      [|apply fuelled_throw; discriminate].
    cbv zeta. apply fuelled_bind; [|intros; apply fuelled_ret].
    intros w. unfold Draft.readFileSync.
    destruct (fs w _) as [[| |]|]; discriminate.
Qed.

Lemma fuelled_Draft_startDownload (url : option jsstring) :
  fuelled (Draft.startDownload E H url).
Proof.
  unfold Draft.startDownload. destruct url as [url|];
    [|apply fuelled_throw; discriminate].
  cbv zeta.
  assert (Hexists : forall p, fuelled (existsSync p)) by (intros p w; discriminate).
  assert (Hmkdir : forall p, fuelled (mkdirSync E p)).
  { intros p w. unfold mkdirSync. destruct (fs w p); [discriminate|].
    destruct (fs w (dirname E p)) as [[| |]|]; discriminate. }
  assert (Hdownload : forall dir, fuelled (Draft.downloadSubtitles E H url dir)).
  { intros dir. unfold Draft.downloadSubtitles.
    apply fuelled_bind; [apply fuelled_emit|intros _].
    destruct (download (site E) url); try (apply fuelled_throw; discriminate).
    apply fuelled_bind; [apply fuelled_emit|intros _].
    apply fuelled_bind; [apply fuelled_waitForTimeout|intros _].
    apply fuelled_bind; [apply fuelled_emit|intros _].
    cbv zeta. apply fuelled_Draft_extractSubtitles. }
  repeat first
    [ apply Hexists | apply Hmkdir | apply Hdownload
    | apply fuelled_Draft_extractSubtitles
    | apply fuelled_ret
    | apply fuelled_bind; [|intros]
    | match goal with
      | |- fuelled (if ?b then _ else _) => destruct b
      end ].
Qed.

Lemma fuelled_Draft_listing_loop (movieList : list listing) :
  forall movieIndex movies,
    fuelled (Draft.listing_loop E H movieList movieIndex movies).
Proof.
  induction movieList as [|movie rest IH]; intros movieIndex movies;
    cbn [Draft.listing_loop]; [apply fuelled_ret|].
  destruct (MAX_MOVIES E <? movieIndex); [apply fuelled_ret|].
  repeat first
    [ apply IH
    | apply fuelled_Draft_startDownload
    | apply fuelled_find_english
    | apply fuelled_ret
    | apply fuelled_emit
    | apply fuelled_throw; discriminate
    | apply fuelled_bind; [|intros]
    | progress unfold Draft.getEnglishSubtitleLink, Draft.parse_and_convert
    | match goal with
      | |- fuelled (eval_selector ?x) => destruct x; cbn [eval_selector]
      | |- fuelled (match ?x with _ => _ end) => destruct x
      end ].
Qed.

(** The draft ends too, with the rows for the CSV file or with a JavaScript
    exception. *)
Lemma Draft_scrapeMovies_fuel (w : world) :
  fst (Draft.scrapeMovies E H w) <> Throw OutOfFuel.
Proof.
  unfold Draft.scrapeMovies.
  assert (Hloop : forall fuel page startIndex movieCount movies,
             1 <= fuel -> MAX_MOVIES E + 2 <= fuel + movieCount ->
             fuelled (Draft.page_loop E H fuel page startIndex movieCount movies)).
  { induction fuel as [|fuel IH];
      intros page startIndex movieCount movies Hpos Hfuel; [lia|].
    cbn [Draft.page_loop].
    destruct (movieCount <=? MAX_MOVIES E) eqn:Hcap; [|apply fuelled_ret].
    apply Nat.leb_le in Hcap.
    apply fuelled_bind.
    - unfold Draft.getMoviesList.
      apply fuelled_bind; [apply fuelled_emit|intros _].
      destruct (browse (site E) page);
        [apply fuelled_Draft_listing_loop|apply fuelled_throw; discriminate].
    - intros [|r l]; [apply fuelled_ret|].
      apply IH; cbn [List.length]; lia. }
  apply Hloop; lia.
Qed.

End DraftFuel.

(* ------------------------------------------------------------------ *)
(** *** A finished run of [index.js] *)

(** A cap of 1: listing A is recorded on page 1, page 2 has a listing that
    is not read, and the CSV file is written. *)
Lemma Index_ids_without_gap_witness :
  let E := Sample.env_of 1
             (Sample.site_a_then_b (Sample.archive Sample.cue)
                                   (Sample.archive Sample.cue)) in
  let w' := snd (Index.scrapeMovies E Sample.empty_world) in
  Index.scrapeMovies E Sample.empty_world = (Ok tt, w') /\
  csv_writes (trace w')
    = [[MovieRow 1 (lit "Movie A") (lit Sample.link_a) (lit Sample.sub_a)
          (lit "Hello there ")]] /\
  exists rows w1,
    w' = logged (EvWriteCsv rows) w1 /\
    map row_id rows = seq 1 (List.length rows).
Proof.
  intros E w'.
  assert (H : Index.scrapeMovies E Sample.empty_world = (Ok tt, w')).
  { unfold w'.
    destruct (Index.scrapeMovies E Sample.empty_world) as [r w1] eqn:Hrun.
    assert (Hr : fst (Index.scrapeMovies E Sample.empty_world) = Ok tt)
      by (vm_compute; reflexivity).
    rewrite Hrun in Hr. cbn [fst snd] in *. now subst r. }
  split; [exact H|]. split; [vm_compute; reflexivity|].
  exact (@Index_ids_without_gap E Sample.empty_world w' H).
Defined.
